(** * Learning Games Site: bulk ZIP import and leaderboard

    A shallow embedding of two request handlers of [backend/server.js]:
    - [POST /api/admin/bulk-upload] (lines 208-256), the import pipeline;
    - [POST /api/games/:id/leaderboard] (lines 174-182).

    JavaScript strings are modelled as [string] (sequences of bytes), the
    filesystem, the clock and the database as an explicit world that the
    handlers thread through a small state-and-exception monad. *)

From Stdlib Require Import String Ascii List Bool Arith ZArith NArith Lia.
From Stdlib Require Import DecimalString DecimalN Sorted Permutation.
Import ListNotations.

Local Open Scope string_scope.
Local Open Scope list_scope.

(* ================================================================== *)
(** ** JavaScript string primitives *)

Module Str.

Definition slash : ascii := "/"%char.

(** [s.split(sep)] for a one-character separator: the fields between the
    occurrences of [sep], always at least one field. *)
Fixpoint split (sep : ascii) (s : string) : list string :=
  match s with
  | EmptyString => [EmptyString]
  | String c s' =>
      if Ascii.eqb c sep then EmptyString :: split sep s'
      else match split sep s' with
           | h :: t => String c h :: t
           | [] => [String c EmptyString]
           end
  end.

(** [parts.join(sep)]. *)
Definition join (sep : string) (parts : list string) : string :=
  String.concat sep parts.

(** [s.startsWith(p)]. *)
Definition startsWith (s p : string) : bool := String.prefix p s.

(** [s.substring(n)]: [s] without its first [n] characters. *)
Fixpoint substring_from (n : nat) (s : string) : string :=
  match n, s with
  | O, _ => s
  | S n', String _ s' => substring_from n' s'
  | S _, EmptyString => EmptyString
  end.

(** Does [c] occur in [s]? *)
Fixpoint mem (c : ascii) (s : string) : bool :=
  match s with
  | EmptyString => false
  | String d s' => Ascii.eqb d c || mem c s'
  end.

Definition endsWith_char (s : string) (c : ascii) : bool :=
  match rev (list_ascii_of_string s) with
  | d :: _ => Ascii.eqb d c
  | [] => false
  end.

(** Number-to-string conversion of a non-negative integer, as produced
    by [folder + '_' + Date.now()]. *)
Definition of_N (n : N) : string := NilZero.string_of_uint (N.to_uint n).

End Str.

(* ================================================================== *)
(** ** Node's [path] module (POSIX flavour)

    [path.join], [path.basename] and [path.dirname] as the handler calls
    them.  Paths stay strings; the resolution of [.] and [..] works on the
    fields between slashes. *)

Module Path.

Definition nonempty (s : string) : bool := negb (String.eqb s "").

(** [normalizeString]: drops empty and [.] fields and resolves [..]
    against the fields kept so far ([res], most recent first). *)
Fixpoint normalizeSegments (allowAboveRoot : bool) (res segs : list string)
  : list string :=
  match segs with
  | [] => rev res
  | seg :: rest =>
      if String.eqb seg "" || String.eqb seg "." then
        normalizeSegments allowAboveRoot res rest
      else if String.eqb seg ".." then
        match res with
        | top :: res' =>
            if String.eqb top ".." then
              normalizeSegments allowAboveRoot
                (if allowAboveRoot then ".." :: res else res) rest
            else normalizeSegments allowAboveRoot res' rest
        | [] =>
            normalizeSegments allowAboveRoot
              (if allowAboveRoot then [".."] else []) rest
        end
      else normalizeSegments allowAboveRoot (seg :: res) rest
  end.

Fixpoint last_char (s : string) : option ascii :=
  match s with
  | EmptyString => None
  | String c EmptyString => Some c
  | String _ s' => last_char s'
  end.

Definition isAbsolute (p : string) : bool :=
  match p with
  | String c _ => Ascii.eqb c Str.slash
  | EmptyString => false
  end.

Definition trailingSeparator (p : string) : bool :=
  match last_char p with
  | Some c => Ascii.eqb c Str.slash
  | None => false
  end.

(** [path.normalize(p)]. *)
Definition normalize (p : string) : string :=
  if String.eqb p "" then "."
  else
    let q := Str.join "/"
               (normalizeSegments (negb (isAbsolute p)) []
                  (Str.split Str.slash p)) in
    if String.eqb q "" then
      if isAbsolute p then "/"
      else if trailingSeparator p then "./" else "."
    else
      ((if isAbsolute p then "/" else "") ++ q ++
       (if trailingSeparator p then "/" else ""))%string.

(** [path.join(...args)]: the non-empty arguments joined by [/], then
    normalized. *)
Definition join (args : list string) : string :=
  match filter nonempty args with
  | [] => "."
  | parts => normalize (Str.join "/" parts)
  end.

(** [path.basename(p)]: the last non-empty field. *)
Definition basename (p : string) : string :=
  last (filter nonempty (Str.split Str.slash p)) "".

Fixpoint drop_while {A} (f : A -> bool) (l : list A) : list A :=
  match l with
  | x :: l' => if f x then drop_while f l' else l
  | [] => []
  end.

Definition is_slash (c : ascii) : bool := Ascii.eqb c Str.slash.

(** [path.dirname(p)]: scanning from the end and never looking at the
    first character, skip the trailing slashes and the base name; the
    directory is what precedes the slash found there. *)
Definition dirname (p : string) : string :=
  match p with
  | EmptyString => "."
  | String c0 tl =>
      let hasRoot := is_slash c0 in
      let backwards := rev (list_ascii_of_string tl) in
      let after_base :=
        drop_while (fun c => negb (is_slash c))
          (drop_while is_slash backwards) in
      match after_base with
      | [] => if hasRoot then "/" else "."
      | _ :: before =>
          if hasRoot && Nat.eqb (List.length before) 0 then "//"
          else String c0 (string_of_list_ascii (rev before))
      end
  end.

(** A field that survives normalization unchanged. *)
Definition plain (seg : string) : bool :=
  negb (String.eqb seg "" || String.eqb seg "." || String.eqb seg "..").

End Path.

(* ================================================================== *)
(** ** JSON values

    What [JSON.parse] returns.  A number is kept as the decimal it was
    written as, [m * 10^e]; strings are byte strings. *)

Module Json.

#[warnings="-register-all"]
Inductive value : Type :=
| JNull
| JBool (b : bool)
| JNum (m e : Z)
| JStr (s : string)
| JArr (items : list value)
| JObj (members : list (string * value)).

(** A decimal [m * 10^e] that the parser rounds to the double [0]:
    zero itself, or a magnitude of at most [2^-1075], half the least
    positive double. *)
Definition rounds_to_zero (m e : Z) : bool :=
  (m =? 0)%Z ||
  ((e <? 0)%Z && (Z.abs m * 2 ^ 1075 <=? 10 ^ (- e))%Z).

(** JavaScript truthiness, as [||] tests it. *)
Definition truthy (v : value) : bool :=
  match v with
  | JNull => false
  | JBool b => b
  | JNum m e => negb (rounds_to_zero m e)
  | JStr s => negb (String.eqb s "")
  | JArr _ => true
  | JObj _ => true
  end.

(** Own property of a parsed object; of repeated keys the last one
    wins, as in [JSON.parse]. *)
Fixpoint lookup (k : string) (members : list (string * value))
  : option value :=
  match members with
  | [] => None
  | (k', v) :: rest =>
      match lookup k rest with
      | Some v' => Some v'
      | None => if String.eqb k' k then Some v else None
      end
  end.

(** Reading the property [k] of [v], for the manifest keys the handler
    reads (none of them is inherited from a prototype).  The outer
    [None] is the [TypeError] of reading a property of [null]; the
    inner [None] is [undefined]. *)
Definition get (v : value) (k : string) : option (option value) :=
  match v with
  | JNull => None
  | JObj members => Some (lookup k members)
  | _ => Some None
  end.

(** [x || d]. *)
Definition or_else (x : option value) (d : value) : value :=
  match x with
  | Some v => if truthy v then v else d
  | None => d
  end.

(** *** A reference parser

    A recursive-descent reader of the JSON grammar, used to run the
    handler on concrete archives.  The statements about the handler
    hold for any parsing function. *)

Definition is_ws (c : ascii) : bool :=
  let n := nat_of_ascii c in
  Nat.eqb n 32 || Nat.eqb n 9 || Nat.eqb n 10 || Nat.eqb n 13.

Fixpoint skip_ws (s : string) : string :=
  match s with
  | String c s' => if is_ws c then skip_ws s' else s
  | EmptyString => EmptyString
  end.

Definition digit_of (c : ascii) : option Z :=
  let n := nat_of_ascii c in
  if Nat.leb 48 n && Nat.leb n 57 then Some (Z.of_nat (n - 48)) else None.

Definition hex_of (c : ascii) : option nat :=
  let n := nat_of_ascii c in
  if Nat.leb 48 n && Nat.leb n 57 then Some (n - 48)
  else if Nat.leb 65 n && Nat.leb n 70 then Some (n - 55)
  else if Nat.leb 97 n && Nat.leb n 102 then Some (n - 87)
  else None.

(** UTF-8 bytes of a code point of the basic plane. *)
Definition utf8 (cp : nat) : string :=
  if Nat.ltb cp 128 then String (ascii_of_nat cp) ""
  else if Nat.ltb cp 2048 then
    String (ascii_of_nat (192 + cp / 64))
      (String (ascii_of_nat (128 + cp mod 64)) "")
  else
    String (ascii_of_nat (224 + cp / 4096))
      (String (ascii_of_nat (128 + (cp / 64) mod 64))
         (String (ascii_of_nat (128 + cp mod 64)) "")).

(** The double quote character, code 34. *)
Definition dquote : ascii :=
  Ascii false true false false false true false false.

Definition unescape (c : ascii) : option ascii :=
  if Ascii.eqb c dquote then Some dquote
  else
    match c with
    | "\"%char => Some "\"%char
    | "/"%char => Some "/"%char
    | "b"%char => Some (ascii_of_nat 8)
    | "f"%char => Some (ascii_of_nat 12)
    | "n"%char => Some (ascii_of_nat 10)
    | "r"%char => Some (ascii_of_nat 13)
    | "t"%char => Some (ascii_of_nat 9)
    | _ => None
    end.

Definition cons_chars (pre : string) (r : option (string * string))
  : option (string * string) :=
  match r with
  | Some (body, rest) => Some ((pre ++ body)%string, rest)
  | None => None
  end.

(** The characters of a string literal after its opening quote. *)
Fixpoint parse_chars (s : string) : option (string * string) :=
  match s with
  | EmptyString => None
  | String c s' =>
      if Ascii.eqb c dquote then Some (EmptyString, s')
      else if Ascii.eqb c "\"%char then
        match s' with
        | String e s'' =>
            match unescape e with
            | Some d => cons_chars (String d "") (parse_chars s'')
            | None =>
                if Ascii.eqb e "u"%char then
                  match s'' with
                  | String h1 (String h2 (String h3 (String h4 s4))) =>
                      match hex_of h1, hex_of h2, hex_of h3, hex_of h4 with
                      | Some a, Some b, Some c', Some d =>
                          cons_chars
                            (utf8 (((a * 16 + b) * 16 + c') * 16 + d))
                            (parse_chars s4)
                      | _, _, _, _ => None
                      end
                  | _ => None
                  end
                else None
            end
        | EmptyString => None
        end
      else if Nat.ltb (nat_of_ascii c) 32 then None
      else cons_chars (String c "") (parse_chars s')
  end.

(** A run of digits: their value, their count, and what follows. *)
Fixpoint digits (acc : Z) (n : nat) (s : string) : Z * nat * string :=
  match s with
  | String c s' =>
      match digit_of c with
      | Some d => digits (acc * 10 + d) (S n) s'
      | None => (acc, n, s)
      end
  | EmptyString => (acc, n, s)
  end.

Definition parse_exponent (s : string) : option (Z * string) :=
  match s with
  | String c s' =>
      if Ascii.eqb c "e"%char || Ascii.eqb c "E"%char then
        let '(neg, s1) :=
          match s' with
          | String "-"%char r => (true, r)
          | String "+"%char r => (false, r)
          | _ => (false, s')
          end in
        let '(x, n, rest) := digits 0 0 s1 in
        if Nat.eqb n 0 then None
        else Some (if neg then (- x)%Z else x, rest)
      else Some (0%Z, s)
  | EmptyString => Some (0%Z, s)
  end.

Definition parse_fraction (int_part : Z) (s : string)
  : option (Z * Z * string) :=
  match s with
  | String "."%char s' =>
      let '(x, n, rest) := digits int_part 0 s' in
      if Nat.eqb n 0 then None else Some (x, (- Z.of_nat n)%Z, rest)
  | _ => Some (int_part, 0%Z, s)
  end.

(** A number literal: [-]? int frac? exp?, no leading zeros. *)
Definition parse_number (s : string) : option (value * string) :=
  let '(neg, s0) :=
    match s with
    | String "-"%char r => (true, r)
    | _ => (false, s)
    end in
  let '(i, n, s1) := digits 0 0 s0 in
  let leading_zero :=
    match s0 with
    | String "0"%char _ => Nat.ltb 1 n
    | _ => false
    end in
  if Nat.eqb n 0 || leading_zero then None
  else
    match parse_fraction i s1 with
    | Some (m, e1, s2) =>
        match parse_exponent s2 with
        | Some (e2, s3) =>
            Some (JNum (if neg then (- m)%Z else m) (e1 + e2), s3)
        | None => None
        end
    | None => None
    end.

Definition expect (lit : string) (v : value) (s : string)
  : option (value * string) :=
  if String.prefix lit s then
    Some (v, Str.substring_from (String.length lit) s)
  else None.

Fixpoint parse_value (fuel : nat) (s : string) : option (value * string) :=
  match fuel with
  | O => None
  | S fuel' =>
      match skip_ws s with
      | EmptyString => None
      | String c s' as s0 =>
          if Ascii.eqb c "{"%char then
            match skip_ws s' with
            | String "}"%char rest => Some (JObj [], rest)
            | _ =>
                match parse_members fuel' s' with
                | Some (ms, rest) => Some (JObj ms, rest)
                | None => None
                end
            end
          else if Ascii.eqb c "["%char then
            match skip_ws s' with
            | String "]"%char rest => Some (JArr [], rest)
            | _ =>
                match parse_elements fuel' s' with
                | Some (vs, rest) => Some (JArr vs, rest)
                | None => None
                end
            end
          else if Ascii.eqb c dquote then
            match parse_chars s' with
            | Some (str, rest) => Some (JStr str, rest)
            | None => None
            end
          else if Ascii.eqb c "t"%char then expect "true" (JBool true) s0
          else if Ascii.eqb c "f"%char then expect "false" (JBool false) s0
          else if Ascii.eqb c "n"%char then expect "null" JNull s0
          else parse_number s0
      end
  end

with parse_elements (fuel : nat) (s : string)
  : option (list value * string) :=
  match fuel with
  | O => None
  | S fuel' =>
      match parse_value fuel' s with
      | Some (v, rest) =>
          match skip_ws rest with
          | String ","%char rest' =>
              match parse_elements fuel' rest' with
              | Some (vs, rest'') => Some (v :: vs, rest'')
              | None => None
              end
          | String "]"%char rest' => Some ([v], rest')
          | _ => None
          end
      | None => None
      end
  end

with parse_members (fuel : nat) (s : string)
  : option (list (string * value) * string) :=
  match fuel with
  | O => None
  | S fuel' =>
      match skip_ws s with
      | String c s1 =>
          if negb (Ascii.eqb c dquote) then None
          else
          match parse_chars s1 with
          | Some (k, s2) =>
              match skip_ws s2 with
              | String ":"%char s3 =>
                  match parse_value fuel' s3 with
                  | Some (v, rest) =>
                      match skip_ws rest with
                      | String ","%char rest' =>
                          match parse_members fuel' rest' with
                          | Some (ms, rest'') => Some ((k, v) :: ms, rest'')
                          | None => None
                          end
                      | String "}"%char rest' => Some ([(k, v)], rest')
                      | _ => None
                      end
                  | None => None
                  end
              | _ => None
              end
          | None => None
          end
      | EmptyString => None
      end
  end.

(** [JSON.parse(text)]; [None] stands for the [SyntaxError]. *)
Definition parse (text : string) : option value :=
  match parse_value (String.length text + 2) text with
  | Some (v, rest) =>
      match skip_ws rest with
      | EmptyString => Some v
      | _ => None
      end
  | None => None
  end.

End Json.


(* ================================================================== *)
(** ** Mongoose schemas (server.js, lines 55-76) *)

Module Schema.

(** An [ObjectId]. *)
Definition ObjectId := nat.

Record Comment := {
  c_userId : ObjectId; c_userEmail : string; c_text : string;
  c_createdAt : N; c_approved : bool }.

Record Rating := { r_userId : ObjectId; r_score : Z }.

(** An element of [leaderboard]; [score] is an integer, or [None]
    when the entry is stored without a score. *)
Record Score := {
  userId : ObjectId; name : string; score : option Z; scoreCreatedAt : N }.

(** A [Game] document.  The fields that the import fills from a
    manifest keep the JSON value handed to [Game.create]; casting by
    the schema is not modelled. *)
Record Game := {
  _id : ObjectId;
  title : Json.value;
  description : Json.value;
  category : Json.value;
  tags : Json.value;
  filePath : string;
  lesson_title : Json.value;
  lesson_content : Json.value;
  quizzes : Json.value;
  ratings : list Rating;
  comments : list Comment;
  leaderboard : list Score;
  createdAt : N }.

(** The object literal passed to [Game.create] by the import. *)
Record GameInput := {
  in_title : Json.value;
  in_description : Json.value;
  in_category : Json.value;
  in_tags : Json.value;
  in_filePath : string;
  in_lesson_title : Json.value;
  in_lesson_content : Json.value;
  in_quizzes : Json.value }.

End Schema.

(* ================================================================== *)
(** ** The world the handlers run in

    Filesystem calls are recorded in a log; whether a call raises is
    decided by the world, from everything that happened so far.  The
    database is the list of stored games; the clock is read by
    [Date.now()]. *)

Module World.
Import Schema.

Inductive op : Type :=
| MkdirP (dir : string)                 (* fs.mkdirSync(dir, {recursive}) *)
| WriteFile (file : string) (data : string)      (* fs.writeFileSync *)
| Readdir (dir : string)                          (* fs.readdirSync *)
| Rename (src dst : string)                       (* fs.renameSync *)
| Unlink (file : string).                         (* fs.unlinkSync *)

Record state := {
  fs_log : list op;       (* filesystem calls that returned, oldest first *)
  db : list Game;         (* the games collection, oldest first *)
  ticks : nat }.          (* clock readings taken so far *)

Record t := {
  fs_fails : state -> op -> bool;
  db_fails : state -> GameInput -> bool;
  clock : nat -> N }.

Inductive error : Type :=
| ArchiveError          (* new AdmZip(path) could not read the file *)
| TypeError             (* property read on null *)
| IoError (o : op)
| DbError.

Inductive outcome (A : Type) : Type :=
| Ret (a : A) (s : state)
| Throw (e : error) (s : state).
Arguments Ret {A} a s.
Arguments Throw {A} e s.

Definition M (A : Type) : Type := state -> outcome A.

Definition ret {A} (a : A) : M A := fun s => Ret a s.
Definition throw {A} (e : error) : M A := fun s => Throw e s.
Definition bind {A B} (m : M A) (k : A -> M B) : M B :=
  fun s => match m s with
           | Ret a s' => k a s'
           | Throw e s' => Throw e s'
           end.

Definition final_state {A} (o : outcome A) : state :=
  match o with Ret _ s => s | Throw _ s => s end.

End World.

Declare Scope monad_scope.
Notation "x <- m ;; k" := (World.bind m (fun x => k))
  (at level 61, m at next level, right associativity) : monad_scope.
Notation "m ;;; k" := (World.bind m (fun _ => k))
  (at level 61, right associativity) : monad_scope.

(* ================================================================== *)
(** ** [POST /api/admin/bulk-upload] (server.js, lines 208-256) *)

Module BulkUpload.
Import Schema World Json.
Local Open Scope monad_scope.

(** A zip entry as AdmZip hands it out: [entry.entryName],
    [entry.isDirectory], and its content ([zip.readAsText(entry)],
    [zip.readFile(entry)]). *)
Record Entry := {
  entryName : string;
  isDirectory : bool;
  data : string }.

(** [req.file]: where multer stored the upload, and the entries AdmZip
    reads from it ([None] when [new AdmZip(path)] throws). *)
Record File := {
  path : string;
  zip : option (list Entry) }.

Record Request := {
  role : string;                (* req.user.role *)
  file : option File }.

Inductive Body : Type :=
| ErrorBody (error : string)
| ImportBody (created : nat) (items : list Game).

Record Response := { status : nat; body : Body }.

Definition send (b : Body) : Response := {| status := 200; body := b |}.
Definition send_status (code : nat) (b : Body) : Response :=
  {| status := code; body := b |}.

Fixpoint forEach {A} (l : list A) (f : A -> M unit) : M unit :=
  match l with
  | [] => ret tt
  | x :: l' => f x ;;; forEach l' f
  end.

(** [parts.length >= 2 && parts[parts.length-1] === 'metadata.json'] *)
Definition is_manifest (parts : list string) : bool :=
  Nat.leb 2 (List.length parts) &&
  String.eqb (last parts "") "metadata.json".

Section Handler.

Variable JSON_parse : string -> option value.
Variable uploadDir : string.
Variable W : World.t.

(** A filesystem call: raises when the world says so, is logged
    otherwise. *)
Definition fs (o : op) : M unit :=
  fun s =>
    if fs_fails W s o then Throw (IoError o) s
    else Ret tt {| fs_log := fs_log s ++ [o]; db := db s;
                   ticks := ticks s |}.

Definition Date_now : M N :=
  fun s => Ret (clock W (ticks s))
             {| fs_log := fs_log s; db := db s; ticks := S (ticks s) |}.

(** [Game.create(input)]: the stored document gets a fresh id, empty
    [ratings], [comments] and [leaderboard], and [createdAt] from
    its default [Date.now]. *)
Definition Game_create (input : GameInput) : M Game :=
  fun s =>
    if db_fails W s input then Throw DbError s
    else
      let g := {| _id := List.length (db s);
                  title := in_title input;
                  description := in_description input;
                  category := in_category input;
                  tags := in_tags input;
                  filePath := in_filePath input;
                  lesson_title := in_lesson_title input;
                  lesson_content := in_lesson_content input;
                  quizzes := in_quizzes input;
                  ratings := []; comments := []; leaderboard := [];
                  createdAt := clock W (ticks s) |} in
      Ret g {| fs_log := fs_log s; db := db s ++ [g];
               ticks := S (ticks s) |}.

(** The argument of [Game.create] (lines 242-246); [None] is the
    [TypeError] raised by the first property read when [meta] is
    [null]. *)
Definition game_input (meta : value) (serveUrl : string)
  : option GameInput :=
  match Json.get meta "title", Json.get meta "description",
        Json.get meta "category", Json.get meta "tags",
        Json.get meta "lessonTitle", Json.get meta "lessonContent",
        Json.get meta "quizzes" with
  | Some t, Some d, Some c, Some tg, Some lt, Some lc, Some q =>
      Some {| in_title := or_else t (JStr "Untitled");
              in_description := or_else d (JStr "");
              in_category := or_else c (JStr "");
              in_tags := or_else tg (JArr []);
              in_filePath := serveUrl;
              in_lesson_title := or_else lt (JStr "");
              in_lesson_content := or_else lc (JStr "");
              in_quizzes := or_else q (JArr []) |}
  | _, _, _, _, _, _, _ => None
  end.

Definition or_throw {A} (e : error) (x : option A) : M A :=
  match x with
  | Some a => ret a
  | None => throw e
  end.

(** Lines 227-233: copy the files of [folder]. *)
Definition extract (entries : list Entry) (folder targetFolder : string)
  : M unit :=
  forEach
    (filter (fun en => Str.startsWith (entryName en) (folder ++ "/"))
       entries)
    (fun en =>
       let rel :=
         Str.substring_from (String.length folder + 1) (entryName en) in
       if isDirectory en then ret tt
       else
         let outPath := Path.join [targetFolder; rel] in
         fs (MkdirP (Path.dirname outPath)) ;;;
         fs (WriteFile outPath (data en))).

Definition serveUrl_of (targetFolder : string) : string :=
  ("/games/files/" ++ Path.basename targetFolder ++ "/index.html")%string.

(** Lines 225-247, for one parsed manifest. *)
Definition materialize_and_create
  (entries : list Entry) (folder : string) (meta : value) : M Game :=
  now <- Date_now ;;
  let targetFolder :=
    Path.join [uploadDir; (folder ++ "_" ++ Str.of_N now)%string] in
  fs (MkdirP targetFolder) ;;;
  extract entries folder targetFolder ;;;
  (* indexPath: the directory is listed, the result is never used *)
  fs (Readdir targetFolder) ;;;
  let serveUrl := serveUrl_of targetFolder in
  let destDir := Path.join [uploadDir; Path.basename targetFolder] in
  fs (Rename targetFolder destDir) ;;;
  input <- or_throw TypeError (game_input meta serveUrl) ;;
  Game_create input.

(** The [for (const entry of entries)] loop (lines 216-249); [rest]
    is what remains to be visited, [created] the accumulator. *)
Fixpoint for_entries (entries rest : list Entry) (created : list Game)
  : M (list Game) :=
  match rest with
  | [] => ret created
  | entry :: rest' =>
      if isDirectory entry then for_entries entries rest' created
      else
        let parts := Str.split Str.slash (entryName entry) in
        if is_manifest parts then
          let folder := Str.join "/" (removelast parts) in
          let metaRaw := data entry in
          match JSON_parse metaRaw with
          | None => for_entries entries rest' created   (* continue *)
          | Some meta =>
              g <- materialize_and_create entries folder meta ;;
              for_entries entries rest' (created ++ [g])
          end
        else for_entries entries rest' created
  end.

(** The body of the [try] block (lines 212-251). *)
Definition try_block (f : File) : M Response :=
  match zip f with
  | None => throw ArchiveError
  | Some entries =>
      created <- for_entries entries entries [] ;;
      fs (Unlink (path f)) ;;;
      ret (send (ImportBody (List.length created) (firstn 20 created)))
  end.

(** The handler, after [authMiddleware] and [upload.single]. *)
Definition bulk_upload (req : Request) (s : state) : Response * state :=
  if negb (String.eqb (role req) "admin") then
    (send_status 403 (ErrorBody "Forbidden"), s)
  else
    match file req with
    | None => (send_status 400 (ErrorBody "No file"), s)
    | Some f =>
        match try_block f s with
        | Ret r s' => (r, s')
        | Throw _ s' =>
            (send_status 500 (ErrorBody "Failed processing zip"), s')
        end
    end.

End Handler.

(** *** Concrete worlds and archives *)

(** A world in which no call ever fails and the clock advances by one
    millisecond per reading. *)
Definition calm (t0 : N) : World.t :=
  {| fs_fails := fun _ _ => false;
     db_fails := fun _ _ => false;
     clock := fun k => (t0 + N.of_nat k)%N |}.

Definition empty_state : state := {| fs_log := []; db := []; ticks := 0 |}.

Definition file_entry (name content : string) : Entry :=
  {| entryName := name; isDirectory := false; data := content |}.

Definition dir_entry (name : string) : Entry :=
  {| entryName := name; isDirectory := true; data := "" |}.

Definition admin_request (f : File) : Request :=
  {| role := "admin"; file := Some f |}.

Definition admin_upload (entries : list Entry) : Request :=
  admin_request {| path := "/srv/uploads/3f9a"; zip := Some entries |}.

(** A world whose only failure is the write of one file. *)
Definition write_fails_at (target : string) (t0 : N) : World.t :=
  {| fs_fails := fun _ o =>
       match o with
       | WriteFile file _ => String.eqb file target
       | _ => false
       end;
     db_fails := fun _ _ => false;
     clock := fun k => (t0 + N.of_nat k)%N |}.

(** *** Sample archives *)

(** [s] between double quotes. *)
Definition quoted (s : string) : string :=
  String Json.dquote (s ++ String Json.dquote "").

(** The manifest text of an object with just a title. *)
Definition titled (t : string) : string :=
  ("{" ++ quoted "title" ++ ":" ++ quoted t ++ "}")%string.

Definition uploads : string := "/srv/uploads".

Definition meta_add : string :=
  ("{" ++ quoted "title" ++ ":" ++ quoted "Add" ++ "," ++
   quoted "quizzes" ++ ":[{" ++
   quoted "question" ++ ":" ++ quoted "2+2" ++ "," ++
   quoted "options" ++ ":[" ++ quoted "3" ++ "," ++ quoted "4" ++ "]," ++
   quoted "answerIndex" ++ ":1}]}")%string.

(** The scenario of the contributing guide: one game folder. *)
Definition archive_mathgame : list Entry :=
  [dir_entry "mathgame/";
   file_entry "mathgame/metadata.json" meta_add;
   file_entry "mathgame/index.html" "<html></html>";
   file_entry "mathgame/img/logo.png" "PNG"].

(** A truncated manifest next to a good one. *)
Definition broken_manifest : Entry :=
  file_entry "broken/metadata.json" ("{" ++ quoted "title" ++ ":" ++ String Json.dquote "Bro")%string.

Definition archive_broken_good : list Entry :=
  [broken_manifest;
   file_entry "broken/index.html" "<html></html>";
   file_entry "good/metadata.json" (titled "Good");
   file_entry "good/index.html" "<html></html>"].

(** Three folders; the write of the second one's page will fail. *)
Definition archive_three : list Entry :=
  [file_entry "ok/metadata.json" (titled "Ok");
   file_entry "ok/index.html" "<html></html>";
   file_entry "bad/metadata.json" (titled "Bad");
   file_entry "bad/index.html" "<html></html>";
   file_entry "good/metadata.json" (titled "Good");
   file_entry "good/index.html" "<html></html>"].

(** A manifest at the root of the archive. *)
Definition archive_root_manifest : list Entry :=
  [file_entry "metadata.json" (titled "Root");
   file_entry "index.html" "<html></html>"].

(** A folder without [index.html]. *)
Definition archive_no_index : list Entry :=
  [file_entry "puzzle/metadata.json" "{}";
   file_entry "puzzle/main.js" "start()"].

(** A [null] manifest after a good folder. *)
Definition archive_null_second : list Entry :=
  [file_entry "first/metadata.json" (titled "First");
   file_entry "first/index.html" "<html></html>";
   file_entry "second/metadata.json" "null";
   file_entry "second/index.html" "<html></html>";
   file_entry "third/metadata.json" "{}"].

Definition archive_null_only : list Entry :=
  [file_entry "solo/metadata.json" "null";
   file_entry "solo/index.html" "<html></html>"].

(** No manifest that parses. *)
Definition archive_no_manifest : list Entry :=
  [dir_entry "notes/";
   file_entry "notes/readme.txt" "hello";
   file_entry "notes/metadata.json" "{oops"].

End BulkUpload.


(* ================================================================== *)
(** ** [POST /api/games/:id/leaderboard] (server.js, lines 174-182) *)

Module Leaderboard.
Import Schema World.

(** A submission.  [id] is [None] for a text that Mongoose cannot
    cast to an ObjectId.  [req_score] is the number in the body, and
    [None] when the body has no score: nothing checks it, and the
    entry is then stored without one.  What the schema's cast makes
    of other values is not modelled. *)
Record Request := {
  id : option ObjectId;     (* req.params.id *)
  user : ObjectId;          (* req.user.id *)
  req_name : string;        (* req.body.name *)
  req_score : option Z }.   (* req.body.score *)

Inductive Body : Type :=
| NotFound
| Ok (top : list Score).

Record Response := { status : nat; body : Body }.

(** The comparator [(a,b) => b.score - a.score]; [None] is [NaN], the
    difference when one of the two entries has no score. *)
Definition compare (a b : Score) : option Z :=
  match score b, score a with
  | Some y, Some x => Some (y - x)%Z
  | _, _ => None
  end.

(** [a.score >= b.score], which is false when a score is missing. *)
Definition score_ge (a b : Score) : Prop :=
  match score a, score b with
  | Some x, Some y => (x >= y)%Z
  | _, _ => False
  end.

(** [a.score < b.score] *)
Definition score_lt (a b : Score) : Prop :=
  match score a, score b with
  | Some x, Some y => (x < y)%Z
  | _, _ => False
  end.

(** How [Array.prototype.sort] reads the answer of its comparator:
    [NaN] counts as [+0]. *)
Definition SortCompare {A} (comparefn : A -> A -> option Z) (x y : A) : Z :=
  match comparefn x y with
  | Some v => v
  | None => 0%Z
  end.

(** The stable insertion that defines the sorted order: [x] goes
    before the first element the comparator orders after it. *)
Fixpoint insert {A} (cmp : A -> A -> Z) (x : A) (sorted : list A) : list A :=
  match sorted with
  | [] => [x]
  | y :: rest =>
      if (0 <? cmp y x)%Z then x :: y :: rest
      else y :: insert cmp x rest
  end.

Definition stable_sort {A} (cmp : A -> A -> Z) (l : list A) : list A :=
  fold_left (fun acc x => insert cmp x acc) l [].

(** Where the pivot goes between [left] and [right], by bisection;
    [order y] is the comparator's answer for the pivot and [y]. *)
Fixpoint insertion_point {A} (order : A -> Z) (arr : list A)
  (fuel left right : nat) : nat :=
  match fuel with
  | 0 => left
  | S fuel' =>
      if Nat.ltb left right then
        let mid := left + (right - left) / 2 in
        match nth_error arr mid with
        | Some y =>
            if (order y <? 0)%Z
            then insertion_point order arr fuel' left mid
            else insertion_point order arr fuel' (S mid) right
        | None => left
        end
      else left
  end.

(** One step of the binary insertion sort. *)
Definition binary_insert {A} (cmp : A -> A -> Z) (sorted : list A)
  (pivot : A) : list A :=
  let n := List.length sorted in
  let k := insertion_point (cmp pivot) sorted n 0 n in
  firstn k sorted ++ pivot :: skipn k sorted.

(** The elements after [previous] that continue the run at the start
    of the array, and the elements after the run. *)
Fixpoint run_from {A} (cmp : A -> A -> Z) (descending : bool)
  (previous : A) (l : list A) : list A * list A :=
  match l with
  | [] => ([], [])
  | current :: l' =>
      let order := cmp current previous in
      if (if descending then (order <? 0)%Z else (0 <=? order)%Z) then
        let (run, rest) := run_from cmp descending current l' in
        (current :: run, rest)
      else ([], l)
  end.

(** [Array.prototype.sort(comparefn)].  For a comparator that is
    consistent the language fixes the result, the stable sorted
    order; for any other, such as one that answers [NaN] for some
    pairs only, the order is left to the engine.  This is what V8
    does on arrays of fewer than 64 elements: the run at the start of
    the array (turned round when it is strictly descending) is
    extended by binary insertion of the remaining elements, from left
    to right.  On longer arrays V8 sorts runs in this way and merges
    them, which gives the same array whenever the comparator is
    consistent. *)
Definition sort {A} (comparefn : A -> A -> option Z) (l : list A) : list A :=
  let cmp := SortCompare comparefn in
  match l with
  | a :: b :: l' =>
      let descending := (cmp b a <? 0)%Z in
      let (run, rest) := run_from cmp descending b l' in
      fold_left (binary_insert cmp) rest
        (if descending then rev (a :: b :: run) else a :: b :: run)
  | _ => l
  end.

(** Lines 178-179: push, sort, keep the first hundred. *)
Definition submit (board : list Score) (entry : Score) : list Score :=
  firstn 100 (sort compare (board ++ [entry])).

Definition findById (i : ObjectId) (games : list Game) : option Game :=
  find (fun g => Nat.eqb (_id g) i) games.

Definition with_leaderboard (g : Game) (board : list Score) : Game :=
  {| _id := _id g; title := title g; description := description g;
     category := category g; tags := tags g; filePath := filePath g;
     lesson_title := lesson_title g; lesson_content := lesson_content g;
     quizzes := quizzes g; ratings := ratings g; comments := comments g;
     leaderboard := board; createdAt := createdAt g |}.

(** [g.save()]: the stored document with the id of [g] becomes [g]. *)
Definition save (g : Game) (games : list Game) : list Game :=
  map (fun h => if Nat.eqb (_id h) (_id g) then g else h) games.

Definition new_entry (W : World.t) (req : Request) (s : state) : Score :=
  {| userId := user req; name := req_name req; score := req_score req;
     scoreCreatedAt := clock W (ticks s) |}.

(** [POST /api/games/:id/leaderboard] (lines 174-182), after
    [authMiddleware].  There is no response ([None]) when
    [Game.findById] rejects the id: the handler throws before it
    answers. *)
Definition post_leaderboard (W : World.t) (req : Request) (s : state)
  : option Response * state :=
  match id req with
  | None => (None, s)
  | Some i =>
      match findById i (db s) with
      | None => (Some {| status := 404; body := NotFound |}, s)
      | Some g =>
          let board := submit (leaderboard g) (new_entry W req s) in
          (Some {| status := 200; body := Ok (firstn 10 board) |},
           {| fs_log := fs_log s;
              db := save (with_leaderboard g board) (db s);
              ticks := S (ticks s) |})
      end
  end.

(** A sequence of submissions, one request after the other. *)
Definition posts (W : World.t) (reqs : list Request) (s : state) : state :=
  fold_left (fun s r => snd (post_leaderboard W r s)) reqs s.

(** What identifies a submission: who, under which name, which score. *)
Definition entry_sig (e : Score) : ObjectId * string * option Z :=
  (userId e, name e, score e).
Definition req_sig (r : Request) : ObjectId * string * option Z :=
  (user r, req_name r, req_score r).

(** The request is addressed to game [i]. *)
Definition to_game (i : ObjectId) (r : Request) : bool :=
  match id r with
  | Some j => Nat.eqb j i
  | None => false
  end.

Definition is_score (v : Z) (x : option Z) : bool :=
  match x with
  | Some y => (y =? v)%Z
  | None => false
  end.

Definition has_score (v : Z) (e : Score) : bool := is_score v (score e).

End Leaderboard.

(* ================================================================== *)
(** ** Comments and their moderation (server.js, lines 150-158 and
    285-308; Admin dashboard, [approveComment] and [deleteComment]) *)

Module Comments.
Import Schema World.

(** White space that [parseInt] skips (the ASCII part of it). *)
Definition is_space (c : ascii) : bool :=
  let n := nat_of_ascii c in
  Nat.eqb n 32 || (Nat.leb 9 n && Nat.leb n 13).

Fixpoint skip_spaces (s : string) : string :=
  match s with
  | String c s' => if is_space c then skip_spaces s' else s
  | EmptyString => EmptyString
  end.

(** The leading decimal digits of [s]: their value, if there is one. *)
Fixpoint leading_digits (acc : option Z) (s : string) : option Z :=
  match s with
  | String c s' =>
      match Json.digit_of c with
      | Some d =>
          leading_digits
            (Some (match acc with Some a => a * 10 + d | None => d end)%Z) s'
      | None => acc
      end
  | EmptyString => acc
  end.

(** [parseInt(s, 10)]; [None] is [NaN]. *)
Definition parseInt (s : string) : option Z :=
  match skip_spaces s with
  | String "-"%char r => option_map Z.opp (leading_digits None r)
  | String "+"%char r => leading_digits None r
  | r => leading_digits None r
  end.

(** [a[idx]] for an index computed by [parseInt]: an element only for
    an integer within bounds. *)
Definition at_index {A} (l : list A) (idx : option Z) : option A :=
  match idx with
  | Some i => if (i <? 0)%Z then None else nth_error l (Z.to_nat i)
  | None => None
  end.

(** [a.splice(start, 1)], the array that remains: [NaN] counts as [0],
    a negative start counts from the end, and the start is clamped to
    the array. *)
Definition splice1 {A} (start : option Z) (l : list A) : list A :=
  let len := Z.of_nat (List.length l) in
  let relativeStart := match start with Some i => i | None => 0%Z end in
  let actualStart :=
    if (relativeStart <? 0)%Z then Z.max (len + relativeStart) 0
    else Z.min relativeStart len in
  let actualDeleteCount := Z.min 1 (len - actualStart) in
  firstn (Z.to_nat actualStart) l ++
  skipn (Z.to_nat (actualStart + actualDeleteCount)) l.

Inductive Body : Type :=
| ErrorBody (error : string)
| OkBody.

Record Response := { status : nat; body : Body }.

Definition with_comments (g : Game) (cs : list Comment) : Game :=
  {| _id := _id g; title := title g; description := description g;
     category := category g; tags := tags g; filePath := filePath g;
     lesson_title := lesson_title g; lesson_content := lesson_content g;
     quizzes := quizzes g; ratings := ratings g; comments := cs;
     leaderboard := leaderboard g; createdAt := createdAt g |}.

Definition put (g : Game) (s : state) : state :=
  {| fs_log := fs_log s; db := Leaderboard.save g (db s); ticks := ticks s |}.

(** The authenticated user, from the token. *)
Record User := { user_id : ObjectId; user_email : string; user_role : string }.

(** [POST /api/games/:id/comment] *)
Definition post_comment (W : World.t) (u : User) (id : ObjectId)
  (text : string) (s : state) : Response * state :=
  match Leaderboard.findById id (db s) with
  | None => ({| status := 404; body := ErrorBody "Not found" |}, s)
  | Some g =>
      let c := {| c_userId := user_id u; c_userEmail := user_email u;
                  c_text := text; c_createdAt := clock W (ticks s);
                  c_approved := false |} in
      ({| status := 200; body := OkBody |},
       {| fs_log := fs_log s;
          db := Leaderboard.save (with_comments g (comments g ++ [c])) (db s);
          ticks := S (ticks s) |})
  end.

Definition approve (c : Comment) : Comment :=
  {| c_userId := c_userId c; c_userEmail := c_userEmail c;
     c_text := c_text c; c_createdAt := c_createdAt c; c_approved := true |}.

Fixpoint set_nth {A} (n : nat) (x : A) (l : list A) : list A :=
  match n, l with
  | O, _ :: l' => x :: l'
  | S n', y :: l' => y :: set_nth n' x l'
  | _, [] => []
  end.

(** [POST /api/admin/comments/:gameId/:commentIndex/approve] *)
Definition post_approve (u : User) (gameId : ObjectId)
  (commentIndex : string) (s : state) : Response * state :=
  if negb (String.eqb (user_role u) "admin") then
    ({| status := 403; body := ErrorBody "Forbidden" |}, s)
  else
    match Leaderboard.findById gameId (db s) with
    | None => ({| status := 404; body := ErrorBody "Not found" |}, s)
    | Some g =>
        let idx := parseInt commentIndex in
        match at_index (comments g) idx, idx with
        | Some c, Some i =>
            ({| status := 200; body := OkBody |},
             put (with_comments g
                    (set_nth (Z.to_nat i) (approve c) (comments g))) s)
        | _, _ =>
            ({| status := 404; body := ErrorBody "Comment not found" |}, s)
        end
    end.

(** [DELETE /api/admin/comments/:gameId/:commentIndex].  There is no
    check that the game exists: for an unknown id the handler throws
    and no response is sent ([None]). *)
Definition delete_comment (u : User) (gameId : ObjectId)
  (commentIndex : string) (s : state) : option Response * state :=
  if negb (String.eqb (user_role u) "admin") then
    (Some {| status := 403; body := ErrorBody "Forbidden" |}, s)
  else
    match Leaderboard.findById gameId (db s) with
    | None => (None, s)
    | Some g =>
        let idx := parseInt commentIndex in
        (Some {| status := 200; body := OkBody |},
         put (with_comments g (splice1 idx (comments g))) s)
    end.

(** An item of [GET /api/admin/comments] is the object
    [{ gameId, gameTitle, comment }]; its properties, by name. *)
Inductive field : Type :=
| FId (i : ObjectId)
| FTitle (t : Json.value)
| FComment (c : Comment)
| FNum (n : Z).

Definition Item := list (string * field).

Definition item_of (g : Game) (c : Comment) : Item :=
  [("gameId", FId (_id g)); ("gameTitle", FTitle (title g));
   ("comment", FComment c)].

(** [GET /api/admin/comments]: the games that have a first comment
    ([{'comments.0': {$exists: true}}]), then one item per comment. *)
Definition list_comments (games : list Game) : list Item :=
  flat_map (fun g => map (item_of g) (comments g))
    (filter (fun g => match comments g with [] => false | _ => true end)
       games).

Fixpoint item_field (k : string) (it : Item) : option field :=
  match it with
  | [] => None
  | (k', v) :: rest => if String.eqb k' k then Some v else item_field k rest
  end.

Definition truthy_field (f : field) : bool :=
  match f with
  | FNum n => negb (n =? 0)%Z
  | FTitle t => Json.truthy t
  | FId _ => true
  | FComment _ => true
  end.

(** The dashboard's buttons call
    [approveComment(c.gameId, c.commentIndex||0)] and
    [deleteComment(c.gameId, c.commentIndex||0)]: the second argument. *)
Definition clicked_index (it : Item) : field :=
  match item_field "commentIndex" it with
  | Some f => if truthy_field f then f else FNum 0
  | None => FNum 0
  end.

Definition clicked_game (it : Item) : option field :=
  item_field "gameId" it.

(** The index as it is spliced into the request URL. *)
Definition url_segment (f : field) : option string :=
  match f with
  | FNum n =>
      Some (if (n <? 0)%Z then ("-" ++ Str.of_N (Z.to_N (- n)))%string
            else Str.of_N (Z.to_N n))
  | FId i => Some (Str.of_N (N.of_nat i))
  | _ => None
  end.

Definition approved_count (cs : list Comment) : nat :=
  List.length (filter c_approved cs).

End Comments.

(* ================================================================== *)
(** ** Ratings and favorites (server.js, lines 139-148 and 160-171)

    Scores are taken to be integers, and the average of the response
    is kept as the sum and the count it divides. *)

Module Ratings.
Import Schema World.

Inductive Body : Type :=
| ErrorBody (error : string)
| Rated (sum : Z) (count : nat).     (* average: sum / count *)

Record Response := { status : nat; body : Body }.

Definition with_ratings (g : Game) (rs : list Rating) : Game :=
  {| _id := _id g; title := title g; description := description g;
     category := category g; tags := tags g; filePath := filePath g;
     lesson_title := lesson_title g; lesson_content := lesson_content g;
     quizzes := quizzes g; ratings := rs; comments := comments g;
     leaderboard := leaderboard g; createdAt := createdAt g |}.

(** Lines 144-145: drop the user's earlier ratings, push the new one. *)
Definition rate (u : ObjectId) (v : Z) (rs : list Rating) : list Rating :=
  filter (fun r => negb (Nat.eqb (r_userId r) u)) rs ++
  [{| r_userId := u; r_score := v |}].

(** [g.ratings.reduce((s,x)=>s+x.score,0)] *)
Definition total (rs : list Rating) : Z :=
  fold_left (fun s x => (s + r_score x)%Z) rs 0%Z.

(** [POST /api/games/:id/rate] *)
Definition post_rate (u : ObjectId) (id : ObjectId) (v : Z) (s : state)
  : Response * state :=
  match Leaderboard.findById id (db s) with
  | None => ({| status := 404; body := ErrorBody "Not found" |}, s)
  | Some g =>
      let rs := rate u v (ratings g) in
      ({| status := 200; body := Rated (total rs) (List.length rs) |},
       {| fs_log := fs_log s;
          db := Leaderboard.save (with_ratings g rs) (db s);
          ticks := ticks s |})
  end.

(** A series of ratings of one game, as (user, score) pairs. *)
Definition rate_all (votes : list (ObjectId * Z)) (rs : list Rating)
  : list Rating :=
  fold_left (fun acc e => rate (fst e) (snd e) acc) votes rs.

(** The last vote of [u] in a series. *)
Definition last_vote (u : ObjectId) (votes : list (ObjectId * Z))
  : option Z :=
  option_map snd (find (fun e => Nat.eqb (fst e) u) (rev votes)).

End Ratings.

Module Favorites.
Import Schema.

(** A [User] document (server.js, line 56). *)
Record UserDoc := {
  uid : ObjectId;
  email : string;
  passwordHash : string;
  role : string;
  favorites : list ObjectId }.

Definition findUser (i : ObjectId) (users : list UserDoc) : option UserDoc :=
  find (fun u => Nat.eqb (uid u) i) users.

Definition saveUser (u : UserDoc) (users : list UserDoc) : list UserDoc :=
  map (fun h => if Nat.eqb (uid h) (uid u) then u else h) users.

Definition with_favorites (u : UserDoc) (favs : list ObjectId) : UserDoc :=
  {| uid := uid u; email := email u; passwordHash := passwordHash u;
     role := role u; favorites := favs |}.

Section Ids.

(** [String(f)], the text of an ObjectId, and the cast of a text to an
    ObjectId that Mongoose applies to what is pushed onto [favorites]
    ([None] when the cast throws). *)
Variable toString : ObjectId -> string.
Variable cast : string -> option ObjectId.

(** [String(f) === gid] *)
Definition is_gid (gid : string) (f : ObjectId) : bool :=
  String.eqb (toString f) gid.

(** Lines 164-168, for [gid] the text of [req.params.id]: remove the
    favorites that print as [gid] if there is one, push [gid] if
    not.  [None] when the push throws. *)
Definition toggle (gid : string) (favs : list ObjectId)
  : option (list ObjectId) :=
  if existsb (is_gid gid) favs then
    Some (filter (fun f => negb (is_gid gid f)) favs)
  else
    match cast gid with
    | Some g => Some (favs ++ [g])
    | None => None
    end.

(** [POST /api/games/:id/favorite]: the response body is the new list
    of favorites; when the token's user no longer exists, or the push
    throws, the handler throws and sends nothing ([None]). *)
Definition post_favorite (user : ObjectId) (gid : string)
  (users : list UserDoc) : option (list ObjectId) * list UserDoc :=
  match findUser user users with
  | None => (None, users)
  | Some u =>
      match toggle gid (favorites u) with
      | Some favs => (Some favs, saveUser (with_favorites u favs) users)
      | None => (None, users)
      end
  end.

End Ids.

End Favorites.

(* ================================================================== *)
(** ** Quiz scoring (server.js, lines 129-137) and the tags of a
    single upload (line 188) *)

Module Quiz.
Import Json.

(** A quiz of a game, as [QuizSchema] holds it (line 61); a quiz
    stored without an answer index reads [undefined].  Answer indexes
    are taken to be integers. *)
Record Item := {
  question : string;
  options : list string;
  answerIndex : option Z }.

(** [answers[i]], for [answers] as it arrives in the request body.
    The outer [None] is the [TypeError] of indexing [null] or
    [undefined]; the inner [None] is [undefined].  A string is indexed
    by character, which is what JavaScript does for ASCII text. *)
Definition element (answers : option value) (i : nat)
  : option (option value) :=
  match answers with
  | None => None
  | Some JNull => None
  | Some (JArr items) => Some (nth_error items i)
  | Some (JObj members) => Some (Json.lookup (Str.of_N (N.of_nat i)) members)
  | Some (JStr s) =>
      Some (option_map (fun c => JStr (String c "")) (String.get i s))
  | Some (JBool _) => Some None
  | Some (JNum _ _) => Some None
  end.

(** The decimal [m * 10^e] is the integer [n]. *)
Definition number_is (m e n : Z) : bool :=
  if (0 <=? e)%Z then (m * 10 ^ e =? n)%Z else (m =? n * 10 ^ (- e))%Z.

(** [a === q.answerIndex]: a number equal to the index, or both
    [undefined]. *)
Definition strict_eq (a : option value) (idx : option Z) : bool :=
  match a, idx with
  | None, None => true
  | Some (JNum m e), Some n => number_is m e n
  | _, _ => false
  end.

(** [g.quizzes.forEach((q,i)=>{ if(answers[i] === q.answerIndex) score++; })]
    from position [i] on; [None] when an index read throws. *)
Fixpoint score_from (i : nat) (quizzes : list Item) (answers : option value)
  : option nat :=
  match quizzes with
  | [] => Some 0
  | q :: rest =>
      match element answers i with
      | None => None
      | Some a =>
          match score_from (S i) rest answers with
          | Some n => Some ((if strict_eq a (answerIndex q) then 1 else 0) + n)
          | None => None
          end
      end
  end.

Inductive Body : Type :=
| NotFound
| Scored (score total : nat).

Record Response := { status : nat; body : Body }.

(** [POST /api/games/:id/quiz], given the quizzes of the game found
    ([None]: no such game).  No response ([None]) when the handler
    throws. *)
Definition post_quiz (found : option (list Item)) (answers : option value)
  : option Response :=
  match found with
  | None => Some {| status := 404; body := NotFound |}
  | Some quizzes =>
      match score_from 0 quizzes answers with
      | Some score =>
          Some {| status := 200;
                  body := Scored score (List.length quizzes) |}
      | None => None
      end
  end.

(** The answer that matches a quiz. *)
Definition right_answer (q : Item) (a : value) : Prop :=
  exists n, answerIndex q = Some n /\ a = JNum n 0.

End Quiz.

Module Tags.

(** [s.trim()], for ASCII white space. *)
Fixpoint trim_end (s : string) : string :=
  match s with
  | EmptyString => EmptyString
  | String c s' =>
      let r := trim_end s' in
      if Comments.is_space c && String.eqb r "" then EmptyString
      else String c r
  end.

Definition trim (s : string) : string := trim_end (Comments.skip_spaces s).

(** [(tags||'').split(',').map(t=>t.trim()).filter(Boolean)] *)
Definition parsedTags (tags : option string) : list string :=
  filter Path.nonempty
    (map trim
       (Str.split ","%char (match tags with Some t => t | None => "" end))).

Definition first_char (s : string) : option ascii :=
  match s with String c _ => Some c | EmptyString => None end.

Definition spaced (c : option ascii) : bool :=
  match c with Some c => Comments.is_space c | None => false end.

End Tags.

(* ================================================================== *)
(** ** Tokens, accounts and the game secret (server.js, lines 78-105,
    271-278 and 321-347)

    Signing, verifying and hashing are left to the libraries the
    server calls: they are parameters here, and what a property needs
    of them is a hypothesis of that property.  Emails, passwords,
    secrets and roles in request bodies are strings or missing. *)

Module Access.
Import Schema.

(** The claims of a token payload that the server reads. *)
Record Payload := {
  p_id : option ObjectId;
  p_role : option string;
  p_email : option string;
  p_isPremium : bool;
  p_type : option string }.

Inductive AuthResult : Type :=
| Rejected (status : nat) (error : string)
| Next (user : Payload).

(** [req.headers.authorization?.split(' ')[1]] *)
Definition bearer (authorization : option string) : option string :=
  match authorization with
  | Some h => nth_error (Str.split " "%char h) 1
  | None => None
  end.

(** A request as [hasGameAccess] reads it: the authorization header,
    [req.cookies] ([None] when no cookie parser has set it) with its
    [game_access_token], the [access] query parameter and the
    [x-game-access] header. *)
Record AccessRequest := {
  authorization : option string;
  cookies : option (option string);
  query_access : option string;
  header_access : option string }.

Definition truthy_string (x : option string) : bool :=
  match x with
  | Some s => negb (String.eqb s "")
  | None => false
  end.

(** [a || b] on strings that may be undefined. *)
Definition or_string (a b : option string) : option string :=
  if truthy_string a then a else b.

(** [x === s] *)
Definition string_is (x : option string) (s : string) : bool :=
  match x with
  | Some y => String.eqb y s
  | None => false
  end.

Inductive UnlockBody : Type :=
| UnlockError (error : string)
| Unlocked (token : string).

(** The answer of [/api/unlock]; [cookie] is the [game_access_token]
    cookie it sets. *)
Record UnlockResponse := {
  status : nat;
  body : UnlockBody;
  cookie : option string }.

Section Jwt.

(** [jwt.verify(token, JWT_SECRET)], [None] when it throws, and
    [jwt.sign(payload, JWT_SECRET, ...)]. *)
Variable verify : string -> option Payload.
Variable sign : Payload -> string.

(** [process.env.GAME_SECRET] *)
Variable env_GAME_SECRET : option string.

(** [process.env.GAME_SECRET || 'skibidi123'] *)
Definition GAME_SECRET : string :=
  match or_string env_GAME_SECRET (Some "skibidi123") with
  | Some s => s
  | None => "skibidi123"
  end.

(** Lines 81-85. *)
Definition authMiddleware (authorization : option string) : AuthResult :=
  let auth := bearer authorization in
  if negb (truthy_string auth) then Rejected 401 "Unauthorized"
  else
    match auth with
    | Some token =>
        match verify token with
        | Some user => Next user
        | None => Rejected 401 "Invalid token"
        end
    | None => Rejected 401 "Unauthorized"
    end.

(** Lines 323-334. *)
Definition hasGameAccess (req : AccessRequest) : bool :=
  let auth := bearer (authorization req) in
  let by_token :=
    if truthy_string auth then
      match auth with
      | Some token =>
          match verify token with
          | Some p => string_is (p_role p) "admin" || p_isPremium p
          | None => false
          end
      | None => false
      end
    else false in
  if by_token then true
  else
    let accessToken :=
      or_string
        (or_string
           (match cookies req with Some c => c | None => None end)
           (query_access req))
        (header_access req) in
    if truthy_string accessToken then
      match accessToken with
      | Some t =>
          if String.eqb t GAME_SECRET then true
          else
            match verify t with
            | Some payload => string_is (p_type payload) "game_access"
            | None => false
            end
      | None => false
      end
    else false.

Definition game_access : Payload :=
  {| p_id := None; p_role := None; p_email := None; p_isPremium := false;
     p_type := Some "game_access" |}.

(** Lines 337-347. *)
Definition unlock (secret : option string) : UnlockResponse :=
  if negb (truthy_string secret) then
    {| status := 400; body := UnlockError "Missing secret"; cookie := None |}
  else if string_is secret GAME_SECRET then
    let token := sign game_access in
    {| status := 200; body := Unlocked token; cookie := Some token |}
  else
    {| status := 403; body := UnlockError "Wrong secret"; cookie := None |}.

(** [createToken(user)], line 80. *)
Definition createToken (u : Favorites.UserDoc) : string :=
  sign {| p_id := Some (Favorites.uid u);
          p_role := Some (Favorites.role u);
          p_email := Some (Favorites.email u);
          p_isPremium := false; p_type := None |}.

(** A handler behind [authMiddleware]: it runs on [req.user] when the
    middleware calls [next()]; otherwise the middleware has answered. *)
Definition behind_auth {A} (authorization : option string)
  (handler : Payload -> A) : AuthResult + A :=
  match authMiddleware authorization with
  | Next user => inr (handler user)
  | r => inl r
  end.

End Jwt.

(** [req.user.role !== 'admin'] *)
Definition not_admin (user : Payload) : bool :=
  negb (string_is (p_role user) "admin").

(** [req.user.role] as the import handler compares it with ['admin'];
    a payload without a role is no admin. *)
Definition role_of (user : Payload) : string :=
  match p_role user with
  | Some r => r
  | None => ""
  end.

End Access.

Module Accounts.
Import Schema Favorites.

Inductive Body : Type :=
| ErrorBody (error : string)
| Session (token : string) (role : string).

Record Response := { status : nat; body : Body }.

(** The users collection and the number of salts drawn so far. *)
Record store := { users : list UserDoc; salts : nat }.

Definition findOne (e : string) (us : list UserDoc) : option UserDoc :=
  find (fun u => String.eqb (email u) e) us.

(** A fresh [ObjectId]: above all ids in use. *)
Definition fresh_id (us : list UserDoc) : ObjectId :=
  S (fold_right Nat.max 0 (map uid us)).

Section Handlers.

(** [jwt.sign(payload, JWT_SECRET, { expiresIn: '7d' })] at a reading
    of the clock: the token carries the time of issue and of expiry
    next to the payload. *)
Variable sign : N -> Access.Payload -> string.

(** [bcrypt.hash(password, 10)] with the salt it draws, and
    [bcrypt.compare]. *)
Variable hash : nat -> string -> string.
Variable compare : string -> string -> bool.

(** [POST /api/signup] (lines 88-96), answered at time [now]. *)
Definition signup (now : N) (e password : option string) (st : store)
  : Response * store :=
  match e, password with
  | Some em, Some pw =>
      if String.eqb em "" || String.eqb pw "" then
        ({| status := 400; body := ErrorBody "Missing" |}, st)
      else
        match findOne em (users st) with
        | Some _ => ({| status := 400; body := ErrorBody "User exists" |}, st)
        | None =>
            let user := {| uid := fresh_id (users st); email := em;
                           passwordHash := hash (salts st) pw;
                           role := "user"; favorites := [] |} in
            ({| status := 200;
                body := Session (Access.createToken (sign now) user)
                          (role user) |},
             {| users := users st ++ [user]; salts := S (salts st) |})
        end
  | _, _ => ({| status := 400; body := ErrorBody "Missing" |}, st)
  end.

(** [POST /api/login] (lines 98-105), answered at time [now], for an
    email and a password that are strings. *)
Definition login (now : N) (e password : string) (st : store) : Response :=
  match findOne e (users st) with
  | None => {| status := 400; body := ErrorBody "Invalid credentials" |}
  | Some user =>
      if compare password (passwordHash user) then
        {| status := 200;
           body := Session (Access.createToken (sign now) user)
                     (role user) |}
      else {| status := 400; body := ErrorBody "Invalid credentials" |}
  end.

End Handlers.

Definition with_role (u : UserDoc) (r : string) : UserDoc :=
  {| uid := uid u; email := email u; passwordHash := passwordHash u;
     role := r; favorites := favorites u |}.

Inductive RoleBody : Type :=
| RoleError (error : string)
| RoleSet (id : ObjectId) (email : string) (role : string).

(** [POST /api/admin/users/:id/role] (lines 271-278), after
    [authMiddleware], for a role that is a string. *)
Definition post_role (caller : Access.Payload) (id : ObjectId)
  (new_role : string) (us : list UserDoc) : nat * RoleBody * list UserDoc :=
  if Access.not_admin caller then (403, RoleError "Forbidden", us)
  else
    match findUser id us with
    | None => (404, RoleError "Not found", us)
    | Some u =>
        let u' := with_role u new_role in
        (200, RoleSet (uid u') (email u') (role u'), saveUser u' us)
    end.

End Accounts.

(* ================================================================== *)
(** * Properties *)

(** ** Strings *)

Module StrFacts.
Import Str.

(** *** Facts about [split] and [join] *)

Lemma split_nonnil sep s : split sep s <> [].
Proof.
  destruct s as [|c s]; simpl; [discriminate|].
  destruct (Ascii.eqb c sep); [discriminate|].
  destruct (split sep s); discriminate.
Qed.

Lemma split_cons sep s : exists h t, split sep s = h :: t.
Proof.
  destruct (split sep s) as [|h t] eqn:E.
  - exfalso; exact (split_nonnil _ _ E).
  - eauto.
Qed.

Lemma mem_app c (a b : string) : mem c (a ++ b)%string = mem c a || mem c b.
Proof.
  induction a as [|d a IH]; simpl; [reflexivity|].
  rewrite IH. now rewrite orb_assoc.
Qed.

Lemma split_no_sep sep s : mem sep s = false -> split sep s = [s].
Proof.
  induction s as [|c s IH]; simpl; intros H; [reflexivity|].
  apply orb_false_iff in H. destruct H as [Hc Hs].
  rewrite Hc, (IH Hs). reflexivity.
Qed.

Lemma split_fields_no_sep sep s :
  Forall (fun f => mem sep f = false) (split sep s).
Proof.
  induction s as [|c s IH]; simpl.
  - constructor; [reflexivity|constructor].
  - destruct (Ascii.eqb c sep) eqn:E.
    + constructor; [reflexivity|exact IH].
    + destruct (split sep s) as [|h t]; simpl.
      * constructor; [simpl; now rewrite E|constructor].
      * inversion IH; subst. constructor; [simpl; now rewrite E|assumption].
Qed.

(** [join] undoes [split]. *)
Lemma join_split sep s : join (String sep EmptyString) (split sep s) = s.
Proof.
  unfold join. induction s as [|c s IH]; simpl; [reflexivity|].
  destruct (Ascii.eqb c sep) eqn:E.
  - apply Ascii.eqb_eq in E. subst c.
    destruct (split_cons sep s) as (h & t & Hs). rewrite Hs in *.
    simpl. simpl in IH. now rewrite IH.
  - destruct (split_cons sep s) as (h & t & Hs). rewrite Hs in *.
    simpl in *. destruct t; simpl in *; now rewrite <- IH.
Qed.

(** [split] undoes [join] on fields that do not contain the separator. *)
Lemma split_join sep parts :
  parts <> [] ->
  Forall (fun f => mem sep f = false) parts ->
  split sep (join (String sep EmptyString) parts) = parts.
Proof.
  unfold join. induction parts as [|p ps IH]; intros Hne Hall; [congruence|].
  inversion Hall as [|? ? Hp Hps]; subst.
  destruct ps as [|q ps].
  - simpl. now apply split_no_sep.
  - assert (IH' : split sep (String.concat (String sep "") (q :: ps)) = q :: ps)
      by (apply IH; [discriminate|assumption]).
    clear IH. change (String.concat (String sep "") (p :: q :: ps))
      with (p ++ String sep "" ++ String.concat (String sep "") (q :: ps))%string.
    set (r := String.concat (String sep "") (q :: ps)) in *. clearbody r.
    clear Hne Hall Hps.
    induction p as [|c p IHp]; simpl.
    + rewrite Ascii.eqb_refl, IH'. reflexivity.
    + simpl in Hp. apply orb_false_iff in Hp. destruct Hp as [Hc Hp].
      rewrite Hc. simpl in IHp. rewrite (IHp Hp). reflexivity.
Qed.

(** Splitting a concatenation around a separator. *)
Lemma split_app_sep sep (a b : string) :
  split sep (a ++ String sep b)%string =
    removelast (split sep a) ++ last (split sep a) EmptyString :: split sep b.
Proof.
  induction a as [|c a IH]; simpl.
  - rewrite Ascii.eqb_refl. reflexivity.
  - destruct (Ascii.eqb c sep) eqn:E.
    + rewrite IH. destruct (split_cons sep a) as (h & t & Hs).
      rewrite Hs. reflexivity.
    + rewrite IH. destruct (split_cons sep a) as (h & t & Hs).
      rewrite Hs. destruct t as [|h' t']; simpl; reflexivity.
Qed.

(** Appending text without separator extends the last field. *)
Lemma split_app_no_sep sep (a b : string) :
  mem sep b = false ->
  split sep (a ++ b)%string =
    removelast (split sep a) ++ [(last (split sep a) EmptyString ++ b)%string].
Proof.
  intros Hb. induction a as [|c a IH]; simpl.
  - now apply split_no_sep.
  - destruct (Ascii.eqb c sep) eqn:E.
    + rewrite IH. destruct (split_cons sep a) as (h & t & Hs).
      rewrite Hs. reflexivity.
    + rewrite IH. destruct (split_cons sep a) as (h & t & Hs).
      rewrite Hs. destruct t as [|h' t']; simpl; reflexivity.
Qed.

End StrFacts.

(** ** Paths *)

Module PathFacts.
Import Path.

Lemma normalizeSegments_snoc allow seg : plain seg = true ->
  forall segs res,
    normalizeSegments allow res (segs ++ [seg]) =
    normalizeSegments allow res segs ++ [seg].
Proof.
  intros Hp. unfold plain in Hp. apply negb_true_iff in Hp.
  apply orb_false_iff in Hp. destruct Hp as [Hp Hdd].
  induction segs as [|s segs IH]; intros res; simpl.
  - rewrite Hp, Hdd. reflexivity.
  - destruct (String.eqb s "" || String.eqb s "."); [apply IH|].
    destruct (String.eqb s "..").
    + destruct res as [|top res']; [apply IH|].
      destruct (String.eqb top ".."); apply IH.
    + apply IH.
Qed.

Lemma normalizeSegments_Forall (P : string -> Prop) allow :
  P ".." ->
  forall segs res, Forall P segs -> Forall P res ->
    Forall P (normalizeSegments allow res segs).
Proof.
  intros Hdd. induction segs as [|s segs IH]; intros res Hs Hr; simpl.
  - now apply Forall_rev.
  - inversion Hs; subst.
    destruct (String.eqb s "" || String.eqb s "."); [now apply IH|].
    destruct (String.eqb s "..").
    + destruct res as [|top res'].
      * apply IH; [assumption|]. destruct allow; repeat constructor; assumption.
      * inversion Hr; subst.
        destruct (String.eqb top ".."); apply IH; try assumption.
        destruct allow; [constructor|]; assumption.
    + apply IH; [assumption|]. now constructor.
Qed.

Lemma last_char_slash_split s :
  last_char s = Some Str.slash -> last (Str.split Str.slash s) "" = "".
Proof.
  induction s as [|c s IH]; simpl; [discriminate|].
  destruct s as [|d s'].
  - intros H. injection H as ->. reflexivity.
  - intros H. specialize (IH H).
    destruct (Ascii.eqb c Str.slash).
    + destruct (StrFacts.split_cons Str.slash (String d s')) as (h & t & E).
      rewrite E in *. exact IH.
    + destruct (StrFacts.split_cons Str.slash (String d s')) as (h & t & E).
      rewrite E in *. destruct t; [|exact IH].
      simpl in IH. subst h. exfalso.
      clear - E. simpl in E. destruct (Ascii.eqb d Str.slash).
      * injection E as E. exact (StrFacts.split_nonnil _ _ E).
      * destruct (Str.split Str.slash s'); discriminate.
Qed.

Lemma last_snoc {A} (l : list A) (x d : A) : last (l ++ [x]) d = x.
Proof. induction l as [|a [|b l] IH]; simpl in *; auto. Qed.

Lemma removelast_snoc {A} (l : list A) (x : A) : removelast (l ++ [x]) = l.
Proof. now rewrite removelast_app, app_nil_r by discriminate. Qed.

Lemma filter_snoc {A} (f : A -> bool) l x :
  f x = true -> filter f (l ++ [x]) = filter f l ++ [x].
Proof. intros H. rewrite filter_app. simpl. now rewrite H. Qed.

(** The base name of a normalized path whose last field is plain is
    that field. *)
Lemma basename_normalize_snoc (p : string) segs seg :
  Str.split Str.slash p = segs ++ [seg] ->
  plain seg = true ->
  basename (normalize p) = seg.
Proof.
  intros Hsplit Hplain.
  assert (Hne : nonempty seg = true).
  { unfold plain in Hplain. unfold nonempty.
    destruct (String.eqb seg ""); [discriminate|reflexivity]. }
  assert (Hp : String.eqb p "" = false).
  { destruct p; [|reflexivity]. simpl in Hsplit.
    destruct segs as [|a [|b segs]]; simpl in Hsplit; try discriminate.
    injection Hsplit as <-. discriminate. }
  assert (Htr : trailingSeparator p = false).
  { unfold trailingSeparator. destruct (last_char p) as [c|] eqn:E; [|reflexivity].
    destruct (Ascii.eqb c Str.slash) eqn:Ec; [|reflexivity].
    apply Ascii.eqb_eq in Ec. subst c.
    apply last_char_slash_split in E. rewrite Hsplit, last_snoc in E.
    subst seg. discriminate. }
  unfold normalize. rewrite Hp, Hsplit, Htr.
  rewrite normalizeSegments_snoc by assumption.
  set (N := normalizeSegments (negb (isAbsolute p)) [] segs).
  assert (HN : Forall (fun f => Str.mem Str.slash f = false) (N ++ [seg])).
  { pose proof (StrFacts.split_fields_no_sep Str.slash p) as HF.
    rewrite Hsplit in HF. apply Forall_app in HF. destruct HF as [HF1 HF2].
    apply Forall_app. split; [|assumption].
    apply normalizeSegments_Forall; [reflexivity|assumption|constructor]. }
  assert (Hq : String.eqb (Str.join "/" (N ++ [seg])) "" = false).
  { apply String.eqb_neq. intros Hq.
    assert (Hs := StrFacts.split_join Str.slash (N ++ [seg])).
    change (String Str.slash "") with "/" in Hs. rewrite Hq in Hs.
    simpl in Hs. specialize (Hs ltac:(destruct N; discriminate) HN).
    destruct N as [|a [|b N]]; simpl in Hs; try discriminate.
    injection Hs as <-. discriminate. }
  rewrite Hq. unfold basename.
  destruct (isAbsolute p).
  - assert (Happ : forall s : string, (s ++ "")%string = s)
      by (induction s; simpl; congruence).
    rewrite Happ.
    assert (Hcons : ("/" ++ Str.join "/" (N ++ [seg]))%string =
                    Str.join "/" ("" :: N ++ [seg])).
    { destruct (N ++ [seg]) eqn:EN; [destruct N; discriminate|reflexivity]. }
    rewrite Hcons.
    assert (Hs := StrFacts.split_join Str.slash ("" :: N ++ [seg])).
    change (String Str.slash "") with "/" in Hs.
    rewrite Hs; [|discriminate|constructor; [reflexivity|assumption]].
    change ("" :: N ++ [seg]) with (("" :: N) ++ [seg]).
    rewrite filter_snoc by assumption. apply last_snoc.
  - assert (Happ : forall s : string, (s ++ "")%string = s)
      by (induction s; simpl; congruence).
    simpl. rewrite Happ.
    assert (Hs := StrFacts.split_join Str.slash (N ++ [seg])).
    change (String Str.slash "") with "/" in Hs.
    rewrite Hs; [|destruct N; discriminate|assumption].
    rewrite filter_snoc by assumption. apply last_snoc.
Qed.

Lemma Str_mem_app_r c (a b : string) :
  Str.mem c b = true -> Str.mem c (a ++ b)%string = true.
Proof. intros H. rewrite StrFacts.mem_app, H. apply orb_true_r. Qed.

Lemma plain_underscore (s : string) :
  Str.mem "_"%char s = true -> plain s = true.
Proof.
  intros H. unfold plain. apply negb_true_iff.
  apply orb_false_iff; split; [apply orb_false_iff; split|];
    apply String.eqb_neq; intros ->; discriminate.
Qed.

Lemma uint_no_slash d :
  Str.mem Str.slash (NilEmpty.string_of_uint d) = false.
Proof. induction d; simpl; auto. Qed.

Lemma of_N_no_slash n : Str.mem Str.slash (Str.of_N n) = false.
Proof.
  unfold Str.of_N, NilZero.string_of_uint.
  destruct (N.to_uint n) eqn:E; try reflexivity;
    rewrite <- E; clear E; apply uint_no_slash.
Qed.

Lemma string_app_assoc (a b c : string) :
  ((a ++ b) ++ c)%string = (a ++ b ++ c)%string.
Proof. induction a; simpl; congruence. Qed.

(** The suffixed name of a folder: its last field carries the suffix. *)
Lemma split_suffixed (folder : string) (n : N) :
  Str.split Str.slash (folder ++ "_" ++ Str.of_N n)%string =
  removelast (Str.split Str.slash folder) ++
  [(last (Str.split Str.slash folder) "" ++ "_" ++ Str.of_N n)%string].
Proof.
  apply StrFacts.split_app_no_sep. simpl. apply of_N_no_slash.
Qed.

(** The base name of the temporary folder is the last field of the
    folder identifier followed by the suffix, whatever the upload
    directory and the other fields are. *)
Lemma basename_targetFolder (uploadDir folder : string) (n : N) :
  basename (join [uploadDir; (folder ++ "_" ++ Str.of_N n)%string]) =
  (last (Str.split Str.slash folder) "" ++ "_" ++ Str.of_N n)%string.
Proof.
  set (x := (folder ++ "_" ++ Str.of_N n)%string).
  set (seg := (last (Str.split Str.slash folder) "" ++ "_" ++ Str.of_N n)%string).
  assert (Hplain : plain seg = true).
  { apply plain_underscore. unfold seg. rewrite Str_mem_app_r; [reflexivity|].
    simpl. reflexivity. }
  assert (Hx : nonempty x = true).
  { unfold nonempty, x. apply negb_true_iff, String.eqb_neq.
    destruct folder; discriminate. }
  unfold join. simpl. rewrite Hx.
  destruct (nonempty uploadDir) eqn:Hu.
  - eapply basename_normalize_snoc; [|exact Hplain].
    change (Str.join "/" [uploadDir; x])
      with (uploadDir ++ String Str.slash x)%string.
    rewrite StrFacts.split_app_sep.
    change (Str.join "/" [x]) with x. unfold x. rewrite split_suffixed.
    fold seg. rewrite app_comm_cons, app_assoc. reflexivity.
  - eapply basename_normalize_snoc; [|exact Hplain].
    change (Str.join "/" [x]) with x. unfold x. apply split_suffixed.
Qed.

End PathFacts.

(** ** The import pipeline *)

Module BulkUploadFacts.
Import Schema World Json BulkUpload.
Local Open Scope monad_scope.

(** The record stored for an input. *)
Definition stored (input : GameInput) (g : Game) : Prop :=
  title g = in_title input /\ description g = in_description input /\
  category g = in_category input /\ tags g = in_tags input /\
  filePath g = in_filePath input /\
  lesson_title g = in_lesson_title input /\
  lesson_content g = in_lesson_content input /\
  quizzes g = in_quizzes input /\
  ratings g = [] /\ comments g = [] /\ leaderboard g = [].

(** The code's test for a candidate manifest (lines 217-219). *)
Definition candidate (e : Entry) : bool :=
  negb (isDirectory e) && is_manifest (Str.split Str.slash (entryName e)).

Definition folder_of (e : Entry) : string :=
  Str.join "/" (removelast (Str.split Str.slash (entryName e))).

Definition is_unlink (o : op) : bool :=
  match o with Unlink _ => true | _ => false end.

Definition is_write (o : op) : bool :=
  match o with MkdirP _ | WriteFile _ _ => true | _ => false end.

(** The filesystem calls that copy the files of [folder]. *)
Definition copy_ops (entries : list Entry) (folder targetFolder : string)
  : list op :=
  flat_map
    (fun en =>
       if isDirectory en then []
       else
         let rel :=
           Str.substring_from (String.length folder + 1) (entryName en) in
         let outPath := Path.join [targetFolder; rel] in
         [MkdirP (Path.dirname outPath); WriteFile outPath (data en)])
    (filter (fun en => Str.startsWith (entryName en) (folder ++ "/"))
       entries).

Definition log_more (ops : list op) (s : state) : state :=
  {| fs_log := fs_log s ++ ops; db := db s; ticks := ticks s |}.

Definition tick (s : state) : state :=
  {| fs_log := fs_log s; db := db s; ticks := S (ticks s) |}.

Lemma log_more_nil s : log_more [] s = s.
Proof. destruct s; unfold log_more; simpl. now rewrite app_nil_r. Qed.

Lemma log_more_app a b s : log_more b (log_more a s) = log_more (a ++ b) s.
Proof. unfold log_more; simpl. now rewrite app_assoc. Qed.

Section Facts.

Variable JSON_parse : string -> option value.
Variable uploadDir : string.
Variable W : World.t.

Abbreviation fs := (fs W).
Abbreviation materialize_and_create :=
  (materialize_and_create uploadDir W).
Abbreviation for_entries := (for_entries JSON_parse uploadDir W).
Abbreviation try_block := (try_block JSON_parse uploadDir W).
Abbreviation bulk_upload := (bulk_upload JSON_parse uploadDir W).

(** No call of the world fails (from any state). *)
Definition never_fails : Prop :=
  (forall s o, fs_fails W s o = false) /\
  (forall s i, db_fails W s i = false).

(** The folder names the handler derives for a clock reading. *)
Definition targetFolder_at (folder : string) (now : N) : string :=
  Path.join [uploadDir; (folder ++ "_" ++ Str.of_N now)%string].

Definition final_name (folder : string) (now : N) : string :=
  (last (Str.split Str.slash folder) "" ++ "_" ++ Str.of_N now)%string.

Definition folder_ops (entries : list Entry) (folder : string) (now : N)
  : list op :=
  let targetFolder := targetFolder_at folder now in
  MkdirP targetFolder :: copy_ops entries folder targetFolder ++
  [Readdir targetFolder;
   Rename targetFolder
     (Path.join [uploadDir; Path.basename targetFolder])].

(** *** Sequences of filesystem calls *)

Lemma forEach_fs_spec ops : forall s,
  match forEach ops fs s with
  | Ret _ s' => s' = log_more ops s
  | Throw e s' =>
      exists done o rest,
        ops = done ++ o :: rest /\ e = IoError o /\
        s' = log_more done s /\ fs_fails W s' o = true
  end.
Proof.
  induction ops as [|o ops IH]; intros s; simpl.
  - unfold ret. now rewrite log_more_nil.
  - unfold bind, BulkUpload.fs at 1.
    destruct (fs_fails W s o) eqn:Hf.
    + exists [], o, ops. rewrite log_more_nil. auto.
    + fold (log_more [o] s). specialize (IH (log_more [o] s)).
      destruct (forEach ops fs (log_more [o] s)) as [u s'|e s'].
      * subst s'. apply log_more_app.
      * destruct IH as (done & o' & rest & -> & -> & -> & Hfail).
        exists (o :: done), o', rest.
        rewrite log_more_app in *. auto.
Qed.

Lemma forEach_fs_calm ops s :
  (forall s o, fs_fails W s o = false) ->
  forEach ops fs s = Ret tt (log_more ops s).
Proof.
  intros Hcalm. pose proof (forEach_fs_spec ops s) as H.
  destruct (forEach ops fs s) as [[] s'|e s'].
  - now subst.
  - destruct H as (? & o & ? & _ & _ & _ & Hf).
    rewrite Hcalm in Hf. discriminate.
Qed.

Lemma forEach_app {A} (f : A -> M unit) (a b : list A) s :
  forEach (a ++ b) f s =
  match forEach a f s with
  | Ret _ s' => forEach b f s'
  | Throw e s' => Throw e s'
  end.
Proof.
  revert s. induction a as [|x a IH]; intros s; simpl; [reflexivity|].
  unfold bind. destruct (f x s); [apply IH|reflexivity].
Qed.

(** [extract] performs exactly the calls of [copy_ops]. *)
Lemma extract_as_ops entries folder targetFolder s :
  extract W entries folder targetFolder s =
  forEach (copy_ops entries folder targetFolder) fs s.
Proof.
  unfold extract, copy_ops.
  generalize (filter
    (fun en => Str.startsWith (entryName en) (folder ++ "/")) entries).
  intros l. revert s. induction l as [|en l IH]; intros s; simpl;
    [reflexivity|].
  destruct (isDirectory en); simpl.
  - unfold bind, ret. apply IH.
  - unfold bind. destruct (BulkUpload.fs W _ s); [|reflexivity].
    destruct (BulkUpload.fs W _ s0); [apply IH|reflexivity].
Qed.

(** One folder: the filesystem calls first, then the record. *)
Lemma materialize_unfold entries folder meta s :
  materialize_and_create entries folder meta s =
  let now := clock W (ticks s) in
  match forEach (folder_ops entries folder now) fs (tick s) with
  | Ret _ s1 =>
      match game_input meta (serveUrl_of (targetFolder_at folder now)) with
      | Some input => Game_create W input s1
      | None => Throw TypeError s1
      end
  | Throw e s1 => Throw e s1
  end.
Proof.
  unfold BulkUpload.materialize_and_create, folder_ops.
  unfold bind at 1. unfold Date_now. fold (tick s).
  cbv zeta. fold (targetFolder_at folder (clock W (ticks s))).
  set (T := targetFolder_at folder (clock W (ticks s))).
  change (MkdirP T :: copy_ops entries folder T ++
          [Readdir T; Rename T (Path.join [uploadDir; Path.basename T])])
    with ([MkdirP T] ++ copy_ops entries folder T ++
          [Readdir T; Rename T (Path.join [uploadDir; Path.basename T])]).
  rewrite !forEach_app. simpl forEach.
  unfold bind.
  destruct (BulkUpload.fs W (MkdirP T) (tick s)) as [u s1|]; [|reflexivity].
  unfold ret at 1. rewrite extract_as_ops, forEach_app.
  destruct (forEach (copy_ops entries folder T) fs s1) as [u2 s2|];
    [|reflexivity].
  simpl forEach. unfold bind.
  destruct (BulkUpload.fs W (Readdir T) s2) as [u3 s3|]; [|reflexivity].
  destruct (BulkUpload.fs W (Rename T _) s3) as [u4 s4|]; [|reflexivity].
  unfold ret. destruct (game_input meta (serveUrl_of T)); reflexivity.
Qed.

(** The public reference keeps the suffix of the temporary name. *)
Lemma serveUrl_targetFolder folder now :
  serveUrl_of (targetFolder_at folder now) =
  ("/games/files/" ++ final_name folder now ++ "/index.html")%string.
Proof.
  unfold serveUrl_of, targetFolder_at, final_name.
  now rewrite PathFacts.basename_targetFolder.
Qed.

Lemma copy_ops_no_unlink entries folder T :
  Forall (fun o => is_unlink o = false) (copy_ops entries folder T).
Proof.
  unfold copy_ops.
  induction (filter _ entries) as [|en l IH]; simpl; [constructor|].
  destruct (isDirectory en); simpl; [exact IH|].
  repeat constructor. exact IH.
Qed.

Lemma folder_ops_no_unlink entries folder now :
  Forall (fun o => is_unlink o = false) (folder_ops entries folder now).
Proof.
  unfold folder_ops. constructor; [reflexivity|].
  apply Forall_app. split; [apply copy_ops_no_unlink|].
  repeat constructor.
Qed.

(** What processing one parsed manifest can do. *)
Lemma materialize_cases entries folder meta s :
  let now := clock W (ticks s) in
  match materialize_and_create entries folder meta s with
  | Ret g s' =>
      exists input,
        game_input meta (serveUrl_of (targetFolder_at folder now))
          = Some input /\
        stored input g /\
        s' = {| fs_log := fs_log s ++ folder_ops entries folder now;
                db := db s ++ [g];
                ticks := S (S (ticks s)) |}
  | Throw e s' =>
      db s' = db s /\
      exists done rest,
        folder_ops entries folder now = done ++ rest /\
        fs_log s' = fs_log s ++ done
  end.
Proof.
  clear JSON_parse.
  intros now. rewrite materialize_unfold. cbv zeta. fold now.
  pose proof (forEach_fs_spec (folder_ops entries folder now) (tick s)) as H.
  destruct (forEach (folder_ops entries folder now) fs (tick s))
    as [u s1|e s1].
  - subst s1.
    destruct (game_input meta (serveUrl_of (targetFolder_at folder now)))
      as [input|] eqn:Hin.
    + unfold Game_create.
      destruct (db_fails W
                  (log_more (folder_ops entries folder now) (tick s))
                  input); simpl.
      * split; [reflexivity|].
        exists (folder_ops entries folder now), [].
        now rewrite app_nil_r.
      * exists input. split; [reflexivity|]. split; [|reflexivity].
        unfold stored. simpl. tauto.
    + split; [reflexivity|].
      exists (folder_ops entries folder now), [].
      now rewrite app_nil_r.
  - destruct H as (done & o & rest & Hops & _ & -> & _).
    split; [reflexivity|]. exists done, (o :: rest). auto.
Qed.

(** With a [null] manifest no record is ever created. *)
Lemma materialize_null entries folder s :
  exists e s', materialize_and_create entries folder JNull s = Throw e s'.
Proof.
  rewrite materialize_unfold. cbv zeta.
  destruct (forEach _ fs (tick s)) as [u s1|e s1]; simpl; eauto.
Qed.

(** *** The loop over the entries *)

Lemma for_entries_cons entries e rest created s :
  for_entries entries (e :: rest) created s =
  if candidate e then
    match JSON_parse (data e) with
    | None => for_entries entries rest created s
    | Some meta =>
        match materialize_and_create entries (folder_of e) meta s with
        | Ret g s1 => for_entries entries rest (created ++ [g]) s1
        | Throw err s1 => Throw err s1
        end
    end
  else for_entries entries rest created s.
Proof.
  unfold candidate, folder_of. simpl.
  destruct (isDirectory e); simpl; [reflexivity|].
  destruct (is_manifest _); [|reflexivity].
  destruct (JSON_parse (data e)); reflexivity.
Qed.

Lemma for_entries_app entries a b : forall created s,
  for_entries entries (a ++ b) created s =
  match for_entries entries a created s with
  | Ret c s1 => for_entries entries b c s1
  | Throw e s1 => Throw e s1
  end.
Proof.
  induction a as [|x a IH]; intros created s; [reflexivity|].
  rewrite <- app_comm_cons, !for_entries_cons.
  destruct (candidate x); [|apply IH].
  destruct (JSON_parse (data x)); [|apply IH].
  destruct (materialize_and_create entries (folder_of x) v s);
    [apply IH|reflexivity].
Qed.

(** Whatever happens, the loop only appends to the database and to
    the log, never unlinks, and returns what it appended. *)
Lemma for_entries_grows entries rest : forall created s,
  exists new ops,
    db (final_state (for_entries entries rest created s)) = db s ++ new /\
    fs_log (final_state (for_entries entries rest created s))
      = fs_log s ++ ops /\
    Forall (fun o => is_unlink o = false) ops /\
    (forall out s', for_entries entries rest created s = Ret out s' ->
       out = created ++ new).
Proof.
  induction rest as [|e rest IH]; intros created s.
  - exists [], []. simpl. rewrite !app_nil_r.
    repeat split; auto. intros out s' H. now injection H as <- _.
  - rewrite for_entries_cons.
    destruct (candidate e); [|apply IH].
    destruct (JSON_parse (data e)) as [meta|]; [|apply IH].
    pose proof (materialize_cases entries (folder_of e) meta s) as Hm.
    cbv zeta in Hm.
    destruct (materialize_and_create entries (folder_of e) meta s)
      as [g s1|err s1].
    + destruct Hm as (input & _ & _ & ->).
      destruct (IH (created ++ [g])
                  {| fs_log := fs_log s ++
                       folder_ops entries (folder_of e) (clock W (ticks s));
                     db := db s ++ [g]; ticks := S (S (ticks s)) |})
        as (new & ops & Hdb & Hlog & Hops & Hout).
      simpl in Hdb, Hlog.
      exists (g :: new),
        (folder_ops entries (folder_of e) (clock W (ticks s)) ++ ops).
      rewrite Hdb, Hlog, <- !app_assoc. repeat split; auto.
      * apply Forall_app. split; [apply folder_ops_no_unlink|exact Hops].
      * intros out s' H. rewrite (Hout _ _ H), <- app_assoc. reflexivity.
    + destruct Hm as (Hdb & done & rest' & Hops & Hlog).
      exists [], done. simpl. rewrite app_nil_r.
      repeat split; auto.
      * pose proof (folder_ops_no_unlink entries (folder_of e)
                      (clock W (ticks s))) as HF.
        rewrite Hops in HF. now apply Forall_app in HF.
      * discriminate.
Qed.

(** *** Manifests and the records made from them *)

(** The (folder identifier, parsed manifest) pairs of the candidate
    entries whose content parses, in entry order. *)
Definition manifests (rest : list Entry) : list (string * value) :=
  flat_map
    (fun e =>
       if candidate e then
         match JSON_parse (data e) with
         | Some meta => [(folder_of e, meta)]
         | None => []
         end
       else [])
    rest.

(** [g] is the record made from the manifest [fm]: its fields are
    those of [game_input], its reference is the suffixed folder. *)
Definition record_of (fm : string * value) (g : Game) : Prop :=
  exists now input,
    game_input (snd fm)
      ("/games/files/" ++ final_name (fst fm) now ++ "/index.html")
      = Some input /\
    stored input g.

Lemma manifests_app a b : manifests (a ++ b) = manifests a ++ manifests b.
Proof. unfold manifests. apply flat_map_app. Qed.

Lemma game_input_nonnull meta url :
  meta <> JNull -> exists input, game_input meta url = Some input.
Proof.
  intros H. destruct meta; [congruence|..]; eexists; reflexivity.
Qed.

(** When the loop completes, it has made one record per manifest, in
    order. *)
Lemma for_entries_ret entries rest : forall created s out s',
  for_entries entries rest created s = Ret out s' ->
  exists new,
    out = created ++ new /\ db s' = db s ++ new /\
    Forall2 record_of (manifests rest) new.
Proof.
  induction rest as [|e rest IH]; intros created s out s' H.
  - injection H as <- <-. exists []. rewrite !app_nil_r.
    repeat split. constructor.
  - rewrite for_entries_cons in H. unfold manifests. simpl.
    fold (manifests rest).
    destruct (candidate e); [|now apply IH].
    destruct (JSON_parse (data e)) as [meta|]; [|now apply IH].
    pose proof (materialize_cases entries (folder_of e) meta s) as Hm.
    cbv zeta in Hm.
    destruct (materialize_and_create entries (folder_of e) meta s)
      as [g s1|err s1]; [|discriminate].
    destruct Hm as (input & Hin & Hst & ->).
    destruct (IH _ _ _ _ H) as (new & -> & Hdb & HF).
    simpl in Hdb. exists (g :: new).
    rewrite Hdb, <- !app_assoc. repeat split.
    simpl. constructor; [|exact HF].
    exists (clock W (ticks s)), input. cbn [fst snd].
    rewrite <- serveUrl_targetFolder. auto.
Qed.

(** In a world without failures, with no [null] manifest, the loop
    completes. *)
Lemma for_entries_calm entries rest :
  never_fails ->
  Forall (fun fm => snd fm <> JNull) (manifests rest) ->
  forall created s,
    exists out s', for_entries entries rest created s = Ret out s'.
Proof.
  intros [Hfs Hdb]. induction rest as [|e rest IH]; intros Hnn created s.
  - simpl. unfold ret. eauto.
  - rewrite for_entries_cons. unfold manifests in Hnn. simpl in Hnn.
    fold (manifests rest) in Hnn.
    destruct (candidate e); [|now apply IH].
    destruct (JSON_parse (data e)) as [meta|]; [|now apply IH].
    simpl in Hnn. inversion Hnn as [|? ? Hmeta Hrest]; subst.
    rewrite materialize_unfold. cbv zeta.
    rewrite forEach_fs_calm by assumption.
    destruct (game_input_nonnull meta
                (serveUrl_of (targetFolder_at (folder_of e)
                                (clock W (ticks s)))) Hmeta)
      as (input & ->).
    unfold Game_create. rewrite Hdb. now apply IH.
Qed.

(** In a world without failures a manifest that is not [null] gets
    its record. *)
Lemma materialize_calm entries folder meta s :
  never_fails -> meta <> JNull ->
  exists g s', materialize_and_create entries folder meta s = Ret g s'.
Proof.
  intros [Hfs Hdb] Hmeta. rewrite materialize_unfold. cbv zeta.
  rewrite forEach_fs_calm by assumption.
  destruct (game_input_nonnull meta
              (serveUrl_of (targetFolder_at folder (clock W (ticks s))))
              Hmeta) as (input & ->).
  unfold Game_create. rewrite Hdb. eauto.
Qed.

(** *** The handler *)

Definition failed : Response :=
  send_status 500 (ErrorBody "Failed processing zip").

Lemma bulk_upload_admin f s :
  bulk_upload (admin_request f) s =
  match try_block f s with
  | Ret r s' => (r, s')
  | Throw _ s' => (failed, s')
  end.
Proof. reflexivity. Qed.

Lemma try_block_entries f entries s :
  zip f = Some entries ->
  try_block f s =
  match for_entries entries entries [] s with
  | Ret created s1 =>
      if fs_fails W s1 (Unlink (path f)) then
        Throw (IoError (Unlink (path f))) s1
      else
        Ret (send (ImportBody (List.length created) (firstn 20 created)))
          (log_more [Unlink (path f)] s1)
  | Throw e s1 => Throw e s1
  end.
Proof.
  intros Hz. unfold BulkUpload.try_block. rewrite Hz. unfold bind.
  destruct (for_entries entries entries [] s) as [created s1|];
    [|reflexivity].
  unfold BulkUpload.fs. destruct (fs_fails W s1 _); reflexivity.
Qed.

(** An error while a folder is processed ends the request. *)
Lemma folder_error_aborts f pre e post meta created s s1 err s2 :
  zip f = Some (pre ++ e :: post) ->
  candidate e = true ->
  JSON_parse (data e) = Some meta ->
  for_entries (pre ++ e :: post) pre [] s = Ret created s1 ->
  materialize_and_create (pre ++ e :: post) (folder_of e) meta s1
    = Throw err s2 ->
  bulk_upload (admin_request f) s = (failed, s2) /\
  db s2 = db s ++ created.
Proof.
  intros Hz Hc Hp Hpre Hm.
  rewrite bulk_upload_admin, (try_block_entries _ _ _ Hz).
  rewrite for_entries_app, Hpre, for_entries_cons, Hc, Hp, Hm.
  split; [reflexivity|].
  destruct (for_entries_ret _ _ _ _ _ _ Hpre) as (new & -> & Hdb & _).
  pose proof (materialize_cases (pre ++ e :: post) (folder_of e) meta s1)
    as Hc'.
  cbv zeta in Hc'. rewrite Hm in Hc'. destruct Hc' as [-> _].
  exact Hdb.
Qed.

(** C1 (as amended): when a filesystem call made for a folder (a
    directory creation, a file write or the finalize rename) raises,
    the error is not confined to that folder.  It reaches the outer
    [catch]: the loop stops, the response is the 500
    [Failed processing zip] error, and the database holds exactly the
    records created for the earlier manifests; neither the failing
    folder nor any later folder gets a record. *)
Theorem write_failure_aborts_import f pre e post meta created s s1 o s2 :
  zip f = Some (pre ++ e :: post) ->
  candidate e = true ->
  JSON_parse (data e) = Some meta ->
  for_entries (pre ++ e :: post) pre [] s = Ret created s1 ->
  materialize_and_create (pre ++ e :: post) (folder_of e) meta s1
    = Throw (IoError o) s2 ->
  bulk_upload (admin_request f) s =
    (send_status 500 (ErrorBody "Failed processing zip"), s2) /\
  db s2 = db s ++ created.
Proof. apply folder_error_aborts. Qed.


(** The loop on entries none of which yields a manifest. *)
Lemma for_entries_skips entries rest created s :
  manifests rest = [] ->
  for_entries entries rest created s = Ret created s.
Proof.
  induction rest as [|e rest IH]; intros Hm; [reflexivity|].
  rewrite for_entries_cons. unfold manifests in Hm. simpl in Hm.
  fold (manifests rest) in Hm.
  destruct (candidate e); [|now apply IH].
  destruct (JSON_parse (data e)); [discriminate|now apply IH].
Qed.

(** A completed import answers with the count and the first twenty
    of the records it made. *)
Lemma bulk_upload_calm f entries s :
  never_fails ->
  zip f = Some entries ->
  Forall (fun fm => snd fm <> JNull) (manifests entries) ->
  exists created,
    fst (bulk_upload (admin_request f) s) =
      send (ImportBody (List.length created) (firstn 20 created)) /\
    db (snd (bulk_upload (admin_request f) s)) = db s ++ created /\
    Forall2 record_of (manifests entries) created.
Proof.
  intros Hnf Hz Hnn.
  destruct (for_entries_calm entries entries Hnf Hnn [] s)
    as (out & s1 & Hrun).
  destruct (for_entries_ret _ _ _ _ _ _ Hrun) as (new & -> & Hdb & HF).
  rewrite bulk_upload_admin, (try_block_entries _ _ _ Hz), Hrun.
  destruct Hnf as [Hfs _]. rewrite Hfs. simpl.
  exists new. auto.
Qed.

(** C3: a candidate manifest whose content does not parse is skipped
    without any effect: the loop over a list that contains it is the
    loop over the list without it, so every other folder is
    processed exactly as if the malformed manifest were absent.  In
    particular, when nothing fails and the other manifests are not
    [null], the response is the success response that counts one
    record per parsed manifest, in order; the malformed one only
    lowers the count. *)
Theorem malformed_manifest_skipped bad :
  candidate bad = true ->
  JSON_parse (data bad) = None ->
  (forall entries pre post created s,
     for_entries entries (pre ++ bad :: post) created s =
     for_entries entries (pre ++ post) created s) /\
  (forall f pre post s,
     never_fails ->
     zip f = Some (pre ++ bad :: post) ->
     Forall (fun fm => snd fm <> JNull) (manifests (pre ++ post)) ->
     exists created,
       fst (bulk_upload (admin_request f) s) =
         send (ImportBody (List.length created) (firstn 20 created)) /\
       db (snd (bulk_upload (admin_request f) s)) = db s ++ created /\
       Forall2 record_of (manifests (pre ++ post)) created).
Proof.
  intros Hc Hp.
  assert (Hm : forall pre post,
             manifests (pre ++ bad :: post) = manifests (pre ++ post)).
  { intros pre post. rewrite !manifests_app. f_equal.
    unfold manifests. simpl. now rewrite Hc, Hp. }
  split.
  - intros entries pre post created s.
    rewrite !for_entries_app.
    destruct (for_entries entries pre created s); [|reflexivity].
    now rewrite for_entries_cons, Hc, Hp.
  - intros f pre post s Hnf Hz Hnn. rewrite <- Hm in *.
    now apply bulk_upload_calm.
Qed.

Lemma concat_snoc sep (l : list string) x :
  l <> [] ->
  String.concat sep (l ++ [x]) = (String.concat sep l ++ sep ++ x)%string.
Proof.
  induction l as [|a l IH]; intros Hne; [congruence|].
  destruct l as [|b l]; [reflexivity|].
  change (String.concat sep ((a :: b :: l) ++ [x]))
    with (a ++ sep ++ String.concat sep ((b :: l) ++ [x]))%string.
  rewrite IH by discriminate.
  change (String.concat sep (a :: b :: l))
    with (a ++ sep ++ String.concat sep (b :: l))%string.
  now rewrite !PathFacts.string_app_assoc.
Qed.

Lemma split_manifest_path (folder : string) :
  Str.split Str.slash (folder ++ "/metadata.json")%string =
  Str.split Str.slash folder ++ ["metadata.json"].
Proof.
  change (folder ++ "/metadata.json")%string
    with (folder ++ String Str.slash "metadata.json")%string.
  rewrite StrFacts.split_app_sep.
  change (Str.split Str.slash "metadata.json") with ["metadata.json"].
  rewrite (app_removelast_last ""
             (StrFacts.split_nonnil Str.slash folder)) at 3.
  now rewrite <- app_assoc.
Qed.

Lemma is_manifest_iff (entryName : string) :
  is_manifest (Str.split Str.slash entryName) = true <->
  exists folder, entryName = (folder ++ "/metadata.json")%string.
Proof.
  unfold is_manifest. split.
  - intros H. apply andb_true_iff in H. destruct H as [Hlen Hlast].
    apply Nat.leb_le in Hlen. apply String.eqb_eq in Hlast.
    exists (Str.join "/"
              (removelast (Str.split Str.slash entryName))).
    rewrite <- (StrFacts.join_split Str.slash entryName) at 1.
    rewrite (app_removelast_last ""
               (StrFacts.split_nonnil Str.slash entryName)) at 1.
    rewrite Hlast. unfold Str.join.
    change (String Str.slash "") with "/".
    apply concat_snoc.
    destruct (Str.split Str.slash entryName) as [|a [|b l]];
      simpl in *; try lia; discriminate.
  - intros [folder ->]. rewrite split_manifest_path.
    rewrite PathFacts.last_snoc, length_app. simpl.
    destruct (StrFacts.split_cons Str.slash folder) as (h & t & ->).
    simpl. now rewrite Nat.add_comm.
Qed.

Lemma folder_of_manifest_path e (folder : string) :
  entryName e = (folder ++ "/metadata.json")%string ->
  folder_of e = folder.
Proof.
  intros H. unfold folder_of.
  rewrite H, split_manifest_path, PathFacts.removelast_snoc.
  apply (StrFacts.join_split Str.slash).
Qed.

Lemma for_entries_filter entries rest : forall created s,
  for_entries entries rest created s =
  for_entries entries (filter candidate rest) created s.
Proof.
  induction rest as [|e rest IH]; intros created s; [reflexivity|].
  simpl filter. destruct (candidate e) eqn:Hc.
  - rewrite !for_entries_cons, Hc.
    destruct (JSON_parse (data e)); [|apply IH].
    destruct (materialize_and_create entries (folder_of e) v s);
      [apply IH|reflexivity].
  - rewrite for_entries_cons, Hc. apply IH.
Qed.

(** C4 (as amended): a non-directory entry is a candidate manifest
    exactly when its name has at least two fields and the last one
    is [metadata.json], that is, when the name is some folder
    identifier followed by [/metadata.json]; an entry named just
    [metadata.json] is not a candidate.  The folder identifier is
    that prefix.  The loop handles the candidates in entry order and
    nothing else, repeated folder identifiers included: each
    candidate's content is parsed, and when the loop completes there
    is one record per parsed manifest, in order. *)
Theorem candidate_manifests :
  (forall e,
     candidate e = true <->
     isDirectory e = false /\
     exists folder, entryName e = (folder ++ "/metadata.json")%string) /\
  (forall e folder,
     entryName e = (folder ++ "/metadata.json")%string ->
     folder_of e = folder) /\
  (forall entries e rest created s,
     for_entries entries (e :: rest) created s =
     if candidate e then
       match JSON_parse (data e) with
       | None => for_entries entries rest created s
       | Some meta =>
           match materialize_and_create entries (folder_of e) meta s with
           | Ret g s1 => for_entries entries rest (created ++ [g]) s1
           | Throw err s1 => Throw err s1
           end
       end
     else for_entries entries rest created s) /\
  (forall entries rest created s,
     for_entries entries rest created s =
     for_entries entries (filter candidate rest) created s) /\
  (forall entries rest s out s',
     for_entries entries rest [] s = Ret out s' ->
     Forall2 record_of (manifests rest) out).
Proof.
  split; [|split; [|split; [|split]]].
  - intros e. unfold candidate. rewrite andb_true_iff, negb_true_iff.
    now rewrite is_manifest_iff.
  - apply folder_of_manifest_path.
  - intros. apply for_entries_cons.
  - intros. apply for_entries_filter.
  - intros entries rest s out s' H.
    destruct (for_entries_ret _ _ _ _ _ _ H) as (new & -> & _ & HF).
    exact HF.
Qed.

Lemma game_input_fields meta url input :
  game_input meta url = Some input ->
  exists t d c tg lt lc q,
    Json.get meta "title" = Some t /\
    Json.get meta "description" = Some d /\
    Json.get meta "category" = Some c /\
    Json.get meta "tags" = Some tg /\
    Json.get meta "lessonTitle" = Some lt /\
    Json.get meta "lessonContent" = Some lc /\
    Json.get meta "quizzes" = Some q /\
    input = {| in_title := or_else t (JStr "Untitled");
               in_description := or_else d (JStr "");
               in_category := or_else c (JStr "");
               in_tags := or_else tg (JArr []);
               in_filePath := url;
               in_lesson_title := or_else lt (JStr "");
               in_lesson_content := or_else lc (JStr "");
               in_quizzes := or_else q (JArr []) |}.
Proof.
  unfold game_input.
  destruct (Json.get meta "title") as [t|],
    (Json.get meta "description") as [d|],
    (Json.get meta "category") as [c|],
    (Json.get meta "tags") as [tg|],
    (Json.get meta "lessonTitle") as [lt|],
    (Json.get meta "lessonContent") as [lc|],
    (Json.get meta "quizzes") as [q|]; try discriminate.
  intros H. injection H as <-.
  exists t, d, c, tg, lt, lc, q. repeat split.
Qed.

(** C5: the record created from a parsed manifest is stored in the
    database, and every manifest field that is missing (reads as
    [undefined]) takes its default: [title] is ["Untitled"],
    [description] and [category] are the empty string, [tags] and
    [quizzes] the empty array, the lesson's title and content the
    empty string. *)
Theorem missing_fields_defaulted entries folder meta s g s' :
  materialize_and_create entries folder meta s = Ret g s' ->
  db s' = db s ++ [g] /\
  (Json.get meta "title" = Some None -> title g = JStr "Untitled") /\
  (Json.get meta "description" = Some None -> description g = JStr "") /\
  (Json.get meta "category" = Some None -> category g = JStr "") /\
  (Json.get meta "tags" = Some None -> tags g = JArr []) /\
  (Json.get meta "quizzes" = Some None -> quizzes g = JArr []) /\
  (Json.get meta "lessonTitle" = Some None -> lesson_title g = JStr "") /\
  (Json.get meta "lessonContent" = Some None ->
     lesson_content g = JStr "").
Proof.
  intros H.
  pose proof (materialize_cases entries folder meta s) as Hm.
  cbv zeta in Hm. rewrite H in Hm.
  destruct Hm as (input & Hin & Hst & ->).
  split; [reflexivity|].
  destruct (game_input_fields _ _ _ Hin)
    as (t & d & c & tg & lt & lc & q &
        Ht & Hd & Hc & Htg & Hlt & Hlc & Hq & ->).
  destruct Hst as (-> & -> & -> & -> & _ & -> & -> & -> & _). simpl.
  rewrite Ht, Hd, Hc, Htg, Hlt, Hlc, Hq.
  repeat split; intros E; injection E as ->; reflexivity.
Qed.

(** C6: an import succeeds exactly when the caller is an admin, the
    archive can be read, the loop over the entries completes and the
    uploaded file can be removed.  The response is then
    [{created, items}] with status 200, where [created] is the number
    of records this import added to the database and [items] the
    first twenty of them, one per parsed manifest in the order of the
    entries; this is what happens whenever no call fails and no
    manifest is [null].  Every other request is answered by an error
    body with status 403, 400 or 500; an archive that cannot be read
    gives the 500 error and changes nothing. *)
Theorem import_response :
  (forall f entries s created s1,
     zip f = Some entries ->
     for_entries entries entries [] s = Ret created s1 ->
     fs_fails W s1 (Unlink (path f)) = false ->
     bulk_upload (admin_request f) s =
       ({| status := 200;
           body := ImportBody (List.length created) (firstn 20 created) |},
        log_more [Unlink (path f)] s1) /\
     db s1 = db s ++ created /\
     Forall2 record_of (manifests entries) created) /\
  (forall f entries s,
     never_fails ->
     zip f = Some entries ->
     Forall (fun fm => snd fm <> JNull) (manifests entries) ->
     exists created s1,
       for_entries entries entries [] s = Ret created s1 /\
       fs_fails W s1 (Unlink (path f)) = false) /\
  (forall req s,
     status (fst (bulk_upload req s)) = 200 ->
     exists f entries created s1,
       req = admin_request f /\ zip f = Some entries /\
       for_entries entries entries [] s = Ret created s1 /\
       fs_fails W s1 (Unlink (path f)) = false) /\
  (forall req s,
     status (fst (bulk_upload req s)) <> 200 ->
     exists code msg,
       fst (bulk_upload req s) =
         {| status := code; body := ErrorBody msg |} /\
       (code = 403 \/ code = 400 \/ code = 500)) /\
  (forall p s,
     bulk_upload (admin_request {| path := p; zip := None |}) s =
     ({| status := 500; body := ErrorBody "Failed processing zip" |}, s)).
Proof.
  split; [|split; [|split; [|split; [|reflexivity]]]].
  - intros f entries s created s1 Hz Hrun Hunlink.
    rewrite bulk_upload_admin, (try_block_entries _ _ _ Hz), Hrun, Hunlink.
    split; [reflexivity|].
    destruct (for_entries_ret _ _ _ _ _ _ Hrun) as (new & -> & Hdb & HF).
    auto.
  - intros f entries s [Hfs Hdb] Hz Hnn.
    destruct (for_entries_calm entries entries (conj Hfs Hdb) Hnn [] s)
      as (created & s1 & Hrun).
    exists created, s1. auto.
  - intros req s. unfold BulkUpload.bulk_upload.
    destruct req as [r fo]. cbn [role file].
    destruct (String.eqb_spec r "admin") as [->|Hr]; cbn [negb];
      [|discriminate].
    destruct fo as [f|]; [|discriminate].
    destruct (zip f) as [entries|] eqn:Hz.
    2:{ unfold BulkUpload.try_block. rewrite Hz. discriminate. }
    rewrite (try_block_entries _ _ _ Hz).
    destruct (for_entries entries entries [] s) as [created s1|err s1]
      eqn:Hrun; [|discriminate].
    destruct (fs_fails W s1 (Unlink (path f))) eqn:Hun; [discriminate|].
    intros _. exists f, entries, created, s1. auto.
  - intros req s. unfold BulkUpload.bulk_upload.
    destruct (negb (String.eqb (role req) "admin")).
    { intros _. exists 403, "Forbidden". auto. }
    destruct (file req) as [f|].
    2:{ intros _. exists 400, "No file". auto. }
    destruct (zip f) as [entries|] eqn:Hz.
    2:{ unfold BulkUpload.try_block. rewrite Hz. intros _.
        exists 500, "Failed processing zip". auto. }
    rewrite (try_block_entries _ _ _ Hz).
    destruct (for_entries entries entries [] s) as [created s1|err s1].
    2:{ intros _. exists 500, "Failed processing zip". auto. }
    destruct (fs_fails W s1 (Unlink (path f))).
    + intros _. exists 500, "Failed processing zip". auto.
    + intros H. now contradiction H.
Qed.

(** C7 (as amended): when the archive is readable and no candidate
    manifest in it parses as JSON, and the uploaded file can be
    removed, the response is
    [{created: 0, items: []}]; the only filesystem call of the
    request is that removal (no directory is created, no file is
    written) and the database is unchanged. *)
Theorem no_manifest_no_writes f entries s :
  zip f = Some entries ->
  (forall e, In e entries -> candidate e = true ->
             JSON_parse (data e) = None) ->
  fs_fails W s (Unlink (path f)) = false ->
  bulk_upload (admin_request f) s =
    ({| status := 200; body := ImportBody 0 [] |},
     {| fs_log := fs_log s ++ [Unlink (path f)];
        db := db s; ticks := ticks s |}).
Proof.
  intros Hz Hnone Hunlink.
  assert (Hm : manifests entries = []).
  { clear Hz. induction entries as [|e l IH]; [reflexivity|].
    unfold manifests. simpl. fold (manifests l).
    rewrite IH by (intros; apply Hnone; simpl; auto).
    destruct (candidate e) eqn:Hc; [|reflexivity].
    rewrite (Hnone e) by (simpl; auto). reflexivity. }
  rewrite bulk_upload_admin, (try_block_entries _ _ _ Hz).
  rewrite (for_entries_skips _ _ _ _ Hm), Hunlink. reflexivity.
Qed.

Lemma Forall2_app_inv_l' {A B} (R : A -> B -> Prop) a x l :
  Forall2 R (a ++ [x]) l -> exists y, In y l /\ R x y.
Proof.
  intros H. apply Forall2_app_inv_l in H.
  destruct H as (l1 & l2 & _ & H2 & ->).
  inversion H2 as [|? y ? ? Hxy _]; subst.
  exists y. split; [apply in_or_app; right; simpl; auto|exact Hxy].
Qed.

(** C9 (as amended): the pipeline never looks for an [index.html].
    When no call fails and the manifests met so far are not [null],
    a folder whose [metadata.json] parses to any value other than
    [null] gets a record, whatever the folder contains: the import
    appends it to the database right after the records of the earlier
    folders, its fields are those read from this manifest, and its
    reference is
    [/games/files/<last field of the folder>_<clock>/index.html]
    with the clock as read when the folder is reached. *)
Theorem record_without_index_check f pre e post meta s :
  never_fails ->
  zip f = Some (pre ++ e :: post) ->
  candidate e = true ->
  JSON_parse (data e) = Some meta ->
  meta <> JNull ->
  Forall (fun fm => snd fm <> JNull) (manifests pre) ->
  exists before s1 g later,
    for_entries (pre ++ e :: post) pre [] s = Ret before s1 /\
    db s1 = db s ++ before /\
    db (snd (bulk_upload (admin_request f) s)) =
      db s ++ before ++ g :: later /\
    filePath g =
      ("/games/files/" ++
       (last (Str.split Str.slash (folder_of e)) "" ++ "_" ++
        Str.of_N (clock W (ticks s1))) ++ "/index.html")%string /\
    exists input,
      game_input meta (filePath g) = Some input /\ stored input g.
Proof.
  intros Hnf Hz Hc Hp Hmeta Hpre.
  set (entries := pre ++ e :: post) in *.
  destruct (for_entries_calm entries pre Hnf Hpre [] s)
    as (before & s1 & Hrun).
  destruct (for_entries_ret _ _ _ _ _ _ Hrun) as (new & Hb & Hdb1 & _).
  simpl in Hb. subst before.
  destruct (materialize_calm entries (folder_of e) meta s1 Hnf Hmeta)
    as (g & s2 & Hmat).
  pose proof (materialize_cases entries (folder_of e) meta s1) as Hm.
  cbv zeta in Hm. rewrite Hmat in Hm.
  destruct Hm as (input & Hin & Hst & Hs2).
  rewrite serveUrl_targetFolder in Hin.
  assert (Hfp : filePath g =
            ("/games/files/" ++
             final_name (folder_of e) (clock W (ticks s1)) ++
             "/index.html")%string).
  { destruct (game_input_fields _ _ _ Hin)
      as (? & ? & ? & ? & ? & ? & ? & _ & _ & _ & _ & _ & _ & _ & ->).
    destruct Hst as (_ & _ & _ & _ & -> & _). reflexivity. }
  destruct (for_entries_grows entries post (new ++ [g]) s2)
    as (more & ops & Hdb' & _).
  exists new, s1, g, more.
  split; [exact Hrun|]. split; [exact Hdb1|]. split; [|split].
  - rewrite bulk_upload_admin, (try_block_entries _ _ _ Hz).
    unfold entries at 2. rewrite for_entries_app. fold entries.
    rewrite Hrun, for_entries_cons, Hc, Hp, Hmat.
    assert (Hdb2 : db s2 = db s ++ new ++ [g]).
    { rewrite Hs2. simpl. now rewrite Hdb1, <- app_assoc. }
    destruct (for_entries entries post (new ++ [g]) s2) as [c s3|err s3];
      simpl in Hdb'.
    + destruct (fs_fails W s3 (Unlink (path f))); simpl;
        rewrite Hdb', Hdb2, <- !app_assoc; reflexivity.
    + simpl. rewrite Hdb', Hdb2, <- !app_assoc; reflexivity.
  - exact Hfp.
  - exists input. rewrite Hfp. auto.
Qed.

(** C10: a [metadata.json] whose content parses to [null] is not
    skipped.  Building the record reads a property of [null], which
    throws; whatever else happens, the response is the 500
    [Failed processing zip] error, the request never removes the
    uploaded archive, and the records created for the earlier
    folders stay in the database. *)
Theorem null_manifest_aborts f pre e post s :
  zip f = Some (pre ++ e :: post) ->
  candidate e = true ->
  JSON_parse (data e) = Some JNull ->
  (forall url, game_input JNull url = None) /\
  fst (bulk_upload (admin_request f) s) =
    {| status := 500; body := ErrorBody "Failed processing zip" |} /\
  (exists ops,
     fs_log (snd (bulk_upload (admin_request f) s)) = fs_log s ++ ops /\
     Forall (fun o => is_unlink o = false) ops) /\
  (forall created s1,
     for_entries (pre ++ e :: post) pre [] s = Ret created s1 ->
     db (snd (bulk_upload (admin_request f) s)) = db s ++ created).
Proof.
  intros Hz Hc Hp.
  set (entries := pre ++ e :: post) in *.
  split; [reflexivity|].
  assert (Hthrow : exists err s2,
             for_entries entries entries [] s = Throw err s2).
  { unfold entries at 2. rewrite for_entries_app.
    destruct (for_entries entries pre [] s) as [c s1|err s1]; [|eauto].
    rewrite for_entries_cons, Hc, Hp.
    destruct (materialize_null entries (folder_of e) s1)
      as (err & s2 & ->). eauto. }
  destruct Hthrow as (err & s2 & Hrun).
  rewrite bulk_upload_admin, (try_block_entries _ _ _ Hz), Hrun. simpl.
  split; [reflexivity|]. split.
  - destruct (for_entries_grows entries entries [] s)
      as (new & ops & _ & Hlog & Hops & _).
    rewrite Hrun in Hlog. simpl in Hlog. eauto.
  - intros created s1 Hpre.
    unfold entries at 2 in Hrun.
    rewrite for_entries_app, Hpre, for_entries_cons, Hc, Hp in Hrun.
    destruct (for_entries_ret _ _ _ _ _ _ Hpre) as (new & -> & Hdb & _).
    pose proof (materialize_cases entries (folder_of e) JNull s1) as Hm.
    cbv zeta in Hm.
    destruct (materialize_null entries (folder_of e) s1)
      as (err' & s3 & Hn).
    rewrite Hn in Hrun, Hm. injection Hrun as _ <-.
    destruct Hm as [-> _]. exact Hdb.
Qed.

End Facts.

End BulkUploadFacts.

(** ** The leaderboard *)

Module LeaderboardFacts.
Import Schema World Leaderboard.

(** The score of an entry as a number, for entries that have one. *)
Definition num (e : Score) : Z :=
  match score e with
  | Some v => v
  | None => 0%Z
  end.

Definition numeric (e : Score) : Prop := score e <> None.

(** The comparator on entries whose scores are numbers. *)
Definition by_num (a b : Score) : Z := (num b - num a)%Z.

(** [a] may stand before [b] in a board sorted by descending score. *)
Definition ge_num (a b : Score) : Prop := (num b <= num a)%Z.

Definition lt_num (a b : Score) : Prop := (num a < num b)%Z.

Definition sorted_desc (board : list Score) : Prop :=
  StronglySorted ge_num board.

Definition has_num (v : Z) (e : Score) : bool := (num e =? v)%Z.

(** A submission to a board of numbers. *)
Definition submit_num (board : list Score) (entry : Score) : list Score :=
  firstn 100 (stable_sort by_num (board ++ [entry])).

Abbreviation ins := (fun acc x => insert by_num x acc).

(** *** Insertion *)

Lemma insert_Forall (P : Score -> Prop) x l :
  P x -> Forall P l -> Forall P (insert by_num x l).
Proof.
  intros Hx. induction 1 as [|y l Hy Hl IH]; simpl.
  - repeat constructor; assumption.
  - destruct (0 <? by_num y x)%Z; repeat constructor; assumption.
Qed.

Lemma insert_sorted x l : sorted_desc l -> sorted_desc (insert by_num x l).
Proof.
  unfold sorted_desc. induction 1 as [|y l Hs IH Hy]; simpl.
  - repeat constructor.
  - destruct (0 <? by_num y x)%Z eqn:E.
    + apply Z.ltb_lt in E. unfold by_num in E.
      constructor; [constructor; assumption|].
      constructor; [unfold ge_num; lia|].
      eapply Forall_impl; [|exact Hy]. unfold ge_num. intros; lia.
    + apply Z.ltb_ge in E. unfold by_num in E.
      constructor; [exact IH|].
      apply insert_Forall; [unfold ge_num; lia|exact Hy].
Qed.

(** An element not above any element of the board goes to its end. *)
Lemma insert_at_end x l :
  Forall (fun y => ge_num y x) l -> insert by_num x l = l ++ [x].
Proof.
  induction 1 as [|y l Hy Hl IH]; simpl; [reflexivity|].
  unfold ge_num in Hy.
  destruct (0 <? by_num y x)%Z eqn:E.
  - apply Z.ltb_lt in E. unfold by_num in E. lia.
  - now rewrite IH.
Qed.

(** Only the first [k] elements matter for the first [k] elements. *)
Lemma firstn_insert_firstn x : forall k l,
  firstn k (insert by_num x (firstn k l)) = firstn k (insert by_num x l).
Proof.
  induction k as [|k IH]; intros l; [reflexivity|].
  destruct l as [|y l]; [reflexivity|].
  rewrite firstn_cons. cbn [insert].
  destruct (0 <? by_num y x)%Z; rewrite !firstn_cons.
  - f_equal. destruct k; [reflexivity|]. rewrite !firstn_cons. f_equal.
    rewrite firstn_firstn. f_equal. lia.
  - f_equal. apply IH.
Qed.

(** *** The stable sorted order *)

Lemma fold_ins_sorted l : forall acc,
  sorted_desc acc -> sorted_desc (fold_left ins l acc).
Proof.
  induction l as [|x l IH]; intros acc H; simpl; [exact H|].
  apply IH. now apply insert_sorted.
Qed.

Lemma sort_sorted l : sorted_desc (stable_sort by_num l).
Proof. apply fold_ins_sorted. constructor. Qed.

Lemma sorted_app_inv {A} (R : A -> A -> Prop) a b :
  StronglySorted R (a ++ b) ->
  StronglySorted R a /\ StronglySorted R b /\
  Forall (fun x => Forall (fun y => R x y) b) a.
Proof.
  induction a as [|x a IH]; simpl; intros H.
  - repeat split; [constructor|exact H|constructor].
  - inversion H as [|? ? Hs Hx]; subst.
    destruct (IH Hs) as (Ha & Hb & Hab).
    apply Forall_app in Hx. destruct Hx as [Hxa Hxb].
    repeat split; [constructor; assumption|assumption|].
    constructor; assumption.
Qed.

Lemma fold_ins_of_sorted l : forall acc,
  sorted_desc (acc ++ l) -> fold_left ins l acc = acc ++ l.
Proof.
  induction l as [|x l IH]; intros acc H; simpl.
  - now rewrite app_nil_r.
  - assert (Hx : Forall (fun y => ge_num y x) acc).
    { destruct (sorted_app_inv _ _ _ H) as (_ & _ & Hab).
      eapply Forall_impl; [|exact Hab].
      intros y Hy. now inversion Hy. }
    rewrite (insert_at_end _ _ Hx), IH; rewrite <- app_assoc; auto.
Qed.

(** Sorting a sorted board changes nothing. *)
Lemma sort_of_sorted l : sorted_desc l -> stable_sort by_num l = l.
Proof. intros H. apply (fold_ins_of_sorted l []). exact H. Qed.

Lemma sort_snoc l x :
  stable_sort by_num (l ++ [x]) = insert by_num x (stable_sort by_num l).
Proof. unfold stable_sort. now rewrite fold_left_app. Qed.

Lemma firstn_sorted k l : sorted_desc l -> sorted_desc (firstn k l).
Proof.
  intros H. rewrite <- (firstn_skipn k l) in H.
  now apply sorted_app_inv in H.
Qed.

(** A board in strictly ascending order is sorted by turning it
    round. *)
Lemma sort_ascending l :
  StronglySorted lt_num l -> stable_sort by_num l = rev l.
Proof.
  induction l as [|x l IH] using rev_ind; intros H; [reflexivity|].
  destruct (sorted_app_inv _ _ _ H) as (Hl & _ & Hlx).
  rewrite sort_snoc, (IH Hl), rev_app_distr. simpl.
  destruct l as [|y l] using rev_ind; [reflexivity|].
  rewrite rev_app_distr. simpl.
  apply Forall_app in Hlx. destruct Hlx as [_ Hy].
  inversion Hy as [|? ? Hyx _]; subst. inversion Hyx as [|? ? Hlt _]; subst.
  unfold lt_num in Hlt. unfold by_num.
  destruct (Z.ltb_spec 0 (num x - num y)); [reflexivity|lia].
Qed.

(** *** Repeated submissions *)

(** The board after a series of submissions is the first hundred of
    the stable sort of all of them. *)
Lemma submit_fold es : forall A,
  fold_left submit_num es (firstn 100 (stable_sort by_num A)) =
  firstn 100 (stable_sort by_num (A ++ es)).
Proof.
  induction es as [|e es IH]; intros A; cbn [fold_left].
  - now rewrite app_nil_r.
  - change (A ++ e :: es) with (A ++ [e] ++ es).
    rewrite app_assoc, <- IH. f_equal.
    unfold submit_num. rewrite !sort_snoc.
    rewrite (sort_of_sorted (firstn 100 (stable_sort by_num A)))
      by apply firstn_sorted, sort_sorted.
    apply firstn_insert_firstn.
Qed.

Lemma submit_from_empty es :
  fold_left submit_num es [] = firstn 100 (stable_sort by_num es).
Proof. exact (submit_fold es []). Qed.

(** *** Stability *)

Lemma filter_below v l :
  Forall (fun y => (num y < v)%Z) l -> filter (has_num v) l = [].
Proof.
  induction 1 as [|y l Hy Hl IH]; simpl; [reflexivity|].
  unfold has_num at 1. destruct (Z.eqb_spec (num y) v); [lia|exact IH].
Qed.

Lemma filter_insert v x l :
  sorted_desc l ->
  filter (has_num v) (insert by_num x l) =
  filter (has_num v) l ++ (if has_num v x then [x] else []).
Proof.
  unfold sorted_desc. induction 1 as [|y l Hs IH Hy].
  - simpl. destruct (has_num v x); reflexivity.
  - cbn [insert]. destruct (0 <? by_num y x)%Z eqn:E.
    + apply Z.ltb_lt in E. unfold by_num in E.
      cbn [filter]. destruct (has_num v x) eqn:Hx.
      * unfold has_num in Hx. apply Z.eqb_eq in Hx.
        assert (Hall : Forall (fun z => (num z < v)%Z) (y :: l)).
        { constructor; [lia|]. eapply Forall_impl; [|exact Hy].
          unfold ge_num. intros; lia. }
        change (if has_num v y then y :: filter (has_num v) l
                else filter (has_num v) l)
          with (filter (has_num v) (y :: l)).
        now rewrite (filter_below _ _ Hall).
      * now rewrite app_nil_r.
    + cbn [filter]. rewrite IH.
      destruct (has_num v y); reflexivity.
Qed.

Lemma filter_fold_ins v l : forall acc,
  sorted_desc acc ->
  filter (has_num v) (fold_left ins l acc) =
  filter (has_num v) acc ++ filter (has_num v) l.
Proof.
  induction l as [|x l IH]; intros acc H; simpl.
  - now rewrite app_nil_r.
  - rewrite IH by now apply insert_sorted.
    rewrite filter_insert by assumption.
    rewrite <- app_assoc. destruct (has_num v x); reflexivity.
Qed.

(** The sort is stable: among equal scores the input order is kept. *)
Lemma sort_stable v l :
  filter (has_num v) (stable_sort by_num l) = filter (has_num v) l.
Proof. apply (filter_fold_ins v l []). constructor. Qed.

Lemma filter_firstn_prefix {A} (f : A -> bool) k l :
  exists rest, filter f l = filter f (firstn k l) ++ rest.
Proof.
  exists (filter f (skipn k l)).
  now rewrite <- filter_app, firstn_skipn.
Qed.

(** *** The engine's sort on boards of numbers *)

Lemma order_numeric a b :
  numeric a -> numeric b -> SortCompare compare a b = by_num a b.
Proof.
  unfold numeric, SortCompare, compare, by_num, num.
  destruct (score a), (score b); congruence.
Qed.

Lemma insertion_point_spec {A} (order : A -> Z) pre post :
  Forall (fun y => (order y <? 0)%Z = false) pre ->
  Forall (fun y => (order y <? 0)%Z = true) post ->
  forall fuel left right,
    left <= List.length pre <= right ->
    right <= List.length (pre ++ post) ->
    right - left <= fuel ->
    insertion_point order (pre ++ post) fuel left right = List.length pre.
Proof.
  intros Hpre Hpost. rewrite Forall_forall in Hpre, Hpost.
  induction fuel as [|fuel IH]; intros left right Hl Hr Hf;
    cbn [insertion_point]; [lia|].
  destruct (Nat.ltb_spec left right) as [Hlt|Hge]; [|lia].
  set (mid := left + (right - left) / 2).
  assert (Hd : (right - left) / 2 < right - left)
    by (apply Nat.div_lt; lia).
  assert (Hmid : left <= mid < right) by (unfold mid; lia).
  clearbody mid.
  destruct (nth_error (pre ++ post) mid) as [y|] eqn:Ey.
  2:{ apply nth_error_None in Ey. lia. }
  destruct (Nat.lt_ge_cases mid (List.length pre)) as [Hin|Hout].
  - rewrite nth_error_app1 in Ey by exact Hin.
    rewrite (Hpre y (nth_error_In _ _ Ey)). apply IH; lia.
  - rewrite nth_error_app2 in Ey by exact Hout.
    rewrite (Hpost y (nth_error_In _ _ Ey)). apply IH; lia.
Qed.

Lemma insert_split {A} (cmp : A -> A -> Z) x pre post :
  Forall (fun y => (0 <? cmp y x)%Z = false) pre ->
  Forall (fun y => (0 <? cmp y x)%Z = true) post ->
  insert cmp x (pre ++ post) = pre ++ x :: post.
Proof.
  intros Hpre Hpost. induction Hpre as [|y pre Hy _ IH]; simpl.
  - destruct Hpost as [|y post Hy _]; [reflexivity|].
    simpl. now rewrite Hy.
  - now rewrite Hy, IH.
Qed.

(** A sorted board splits into the entries not below [x] and the
    entries below it. *)
Lemma sorted_split x l :
  sorted_desc l ->
  exists pre post,
    l = pre ++ post /\
    Forall (fun y => (num x <= num y)%Z) pre /\
    Forall (fun y => (num y < num x)%Z) post.
Proof.
  unfold sorted_desc. induction 1 as [|y l Hs IH Hy].
  - exists [], []. repeat split; constructor.
  - destruct (Z.lt_ge_cases (num y) (num x)) as [Hlt|Hge].
    + exists [], (y :: l). repeat split; [constructor|].
      constructor; [exact Hlt|].
      eapply Forall_impl; [|exact Hy]. unfold ge_num. intros; lia.
    + destruct IH as (pre & post & -> & Hpre & Hpost).
      exists (y :: pre), post. repeat split; [|exact Hpost].
      constructor; assumption.
Qed.

(** On a sorted board of numbers the bisection finds the place of the
    stable insertion. *)
Lemma binary_insert_sorted x l :
  sorted_desc l -> Forall numeric l -> numeric x ->
  binary_insert (SortCompare compare) l x = insert by_num x l.
Proof.
  intros Hs Hn Hx.
  destruct (sorted_split x l Hs) as (pre & post & -> & Hpre & Hpost).
  apply Forall_app in Hn. destruct Hn as [Hnpre Hnpost].
  unfold binary_insert.
  rewrite (insertion_point_spec (SortCompare compare x) pre post).
  - rewrite firstn_app, skipn_app, Nat.sub_diag, firstn_all, skipn_all.
    simpl. rewrite app_nil_r. symmetry. apply insert_split.
    + eapply Forall_impl; [|exact Hpre]. intros y Hy. cbv beta in Hy.
      unfold by_num. apply Z.ltb_ge. lia.
    + eapply Forall_impl; [|exact Hpost]. intros y Hy. cbv beta in Hy.
      unfold by_num. apply Z.ltb_lt. lia.
  - rewrite Forall_forall in *. intros y Hy.
    rewrite (order_numeric x y Hx (Hnpre y Hy)). unfold by_num.
    apply Z.ltb_ge. specialize (Hpre y Hy). simpl in Hpre. lia.
  - rewrite Forall_forall in *. intros y Hy.
    rewrite (order_numeric x y Hx (Hnpost y Hy)). unfold by_num.
    apply Z.ltb_lt. specialize (Hpost y Hy). simpl in Hpost. lia.
  - rewrite length_app. lia.
  - lia.
  - lia.
Qed.

Lemma fold_binary_insert rest : forall acc,
  sorted_desc acc -> Forall numeric acc -> Forall numeric rest ->
  fold_left (binary_insert (SortCompare compare)) rest acc =
  fold_left ins rest acc.
Proof.
  induction rest as [|x rest IH]; intros acc Hs Hn Hr; [reflexivity|].
  inversion Hr as [|? ? Hx Hrest]; subst. cbn [fold_left].
  rewrite (binary_insert_sorted x acc Hs Hn Hx).
  apply IH; [now apply insert_sorted|now apply insert_Forall|exact Hrest].
Qed.

Lemma run_from_app {A} (cmp : A -> A -> Z) descending : forall l previous run rest,
  run_from cmp descending previous l = (run, rest) -> l = run ++ rest.
Proof.
  induction l as [|c l IH]; intros previous run rest H; simpl in H.
  - now injection H as <- <-.
  - destruct (if descending then (cmp c previous <? 0)%Z
              else (0 <=? cmp c previous)%Z).
    + destruct (run_from cmp descending c l) as [r o] eqn:E.
      injection H as <- <-. simpl. f_equal. exact (IH _ _ _ E).
    + now injection H as <- <-.
Qed.

(** A run of numbers that does not descend is a sorted board. *)
Lemma run_sorted : forall l previous run rest,
  run_from (SortCompare compare) false previous l = (run, rest) ->
  numeric previous -> Forall numeric l ->
  sorted_desc (previous :: run).
Proof.
  unfold sorted_desc.
  induction l as [|c l IH]; intros previous run rest H Hp Hl; simpl in H.
  - injection H as <- <-. repeat constructor.
  - inversion Hl as [|? ? Hc Hl']; subst.
    rewrite (order_numeric c previous Hc Hp) in H.
    destruct (Z.leb_spec 0 (by_num c previous)) as [Hle|Hgt].
    + destruct (run_from (SortCompare compare) false c l) as [r o] eqn:E.
      injection H as <- <-.
      pose proof (IH _ _ _ E Hc Hl') as Hs.
      constructor; [exact Hs|].
      inversion Hs as [|? ? _ Hcr]; subst.
      unfold by_num in Hle.
      constructor; [unfold ge_num; lia|].
      eapply Forall_impl; [|exact Hcr]. unfold ge_num. intros; lia.
    + injection H as <- <-. repeat constructor.
Qed.

(** A strictly descending run of numbers, turned round, is sorted. *)
Lemma run_ascending : forall l previous run rest,
  run_from (SortCompare compare) true previous l = (run, rest) ->
  numeric previous -> Forall numeric l ->
  StronglySorted lt_num (previous :: run).
Proof.
  induction l as [|c l IH]; intros previous run rest H Hp Hl; simpl in H.
  - injection H as <- <-. repeat constructor.
  - inversion Hl as [|? ? Hc Hl']; subst.
    rewrite (order_numeric c previous Hc Hp) in H.
    destruct (Z.ltb_spec (by_num c previous) 0) as [Hlt|Hge].
    + destruct (run_from (SortCompare compare) true c l) as [r o] eqn:E.
      injection H as <- <-.
      pose proof (IH _ _ _ E Hc Hl') as Hs.
      constructor; [exact Hs|].
      inversion Hs as [|? ? _ Hcr]; subst.
      unfold by_num in Hlt.
      constructor; [unfold lt_num; lia|].
      eapply Forall_impl; [|exact Hcr]. unfold lt_num. intros; lia.
    + injection H as <- <-. repeat constructor.
Qed.

Lemma stable_sort_Forall (P : Score -> Prop) l :
  Forall P l -> Forall P (stable_sort by_num l).
Proof.
  unfold stable_sort. intros H.
  assert (G : forall acc, Forall P acc -> Forall P (fold_left ins l acc)).
  { induction H as [|x l Hx Hl IH]; intros acc Hacc; simpl; [exact Hacc|].
    apply IH. now apply insert_Forall. }
  apply G. constructor.
Qed.

Lemma Forall_firstn' {A} (P : A -> Prop) k l :
  Forall P l -> Forall P (firstn k l).
Proof.
  intros H. rewrite <- (firstn_skipn k l) in H.
  now apply Forall_app in H.
Qed.

(** On a board of numbers the engine's sort is the stable sort by
    descending score. *)
Lemma sort_numeric l :
  Forall numeric l -> sort compare l = stable_sort by_num l.
Proof.
  intros Hn. destruct l as [|a [|b l]]; [reflexivity|reflexivity|].
  inversion Hn as [|? ? Ha Hbl]; subst.
  inversion Hbl as [|? ? Hb Hl]; subst.
  unfold sort.
  set (cmp := SortCompare compare).
  set (descending := (cmp b a <? 0)%Z).
  assert (Hrun : run_from cmp descending a (b :: l) =
                 let (run, rest) := run_from cmp descending b l in
                 (b :: run, rest)).
  { cbn [run_from]. unfold descending.
    destruct (Z.ltb_spec (cmp b a) 0) as [H|H]; [reflexivity|].
    destruct (Z.leb_spec 0 (cmp b a)); [reflexivity|lia]. }
  destruct (run_from cmp descending b l) as [run rest] eqn:E.
  pose proof (run_from_app _ _ _ _ _ _ E) as Hsplit. subst l.
  apply Forall_app in Hl. destruct Hl as [Hnrun Hnrest].
  assert (Hnall : Forall numeric (a :: b :: run))
    by (repeat constructor; assumption).
  change (a :: b :: run ++ rest) with ((a :: b :: run) ++ rest).
  unfold stable_sort. rewrite fold_left_app.
  fold (stable_sort by_num (a :: b :: run)).
  destruct descending.
  - pose proof (run_ascending _ _ _ _ Hrun Ha Hbl) as Hs.
    rewrite (sort_ascending _ Hs).
    apply fold_binary_insert.
    + rewrite <- (sort_ascending _ Hs). apply sort_sorted.
    + apply Forall_rev. exact Hnall.
    + exact Hnrest.
  - pose proof (run_sorted _ _ _ _ Hrun Ha Hbl) as Hs.
    rewrite (sort_of_sorted _ Hs).
    apply fold_binary_insert; assumption.
Qed.

Lemma submit_numeric board e :
  Forall numeric board -> numeric e -> submit board e = submit_num board e.
Proof.
  intros Hb He. unfold submit, submit_num. rewrite sort_numeric; [reflexivity|].
  apply Forall_app. split; [exact Hb|]. repeat constructor. exact He.
Qed.

Lemma submit_num_numeric board e :
  Forall numeric board -> numeric e -> Forall numeric (submit_num board e).
Proof.
  intros Hb He. apply Forall_firstn', stable_sort_Forall.
  apply Forall_app. split; [exact Hb|]. repeat constructor. exact He.
Qed.

Lemma fold_submit_numeric es : forall board,
  Forall numeric board -> Forall numeric es ->
  fold_left submit es board = fold_left submit_num es board.
Proof.
  induction es as [|e es IH]; intros board Hb He; [reflexivity|].
  inversion He as [|? ? Hx Hes]; subst. cbn [fold_left].
  rewrite (submit_numeric _ _ Hb Hx).
  apply IH; [now apply submit_num_numeric|exact Hes].
Qed.

(** A sorted board of numbers is in descending order of score. *)
Lemma score_ge_of_sorted l :
  sorted_desc l -> Forall numeric l -> StronglySorted score_ge l.
Proof.
  induction 1 as [|x l Hs IH Hx]; intros Hn; constructor.
  - inversion Hn; subst. now apply IH.
  - inversion Hn as [|? ? Hnx Hnl]; subst.
    rewrite Forall_forall in *. intros y Hy.
    specialize (Hx y Hy). specialize (Hnl y Hy).
    unfold ge_num, num, score_ge, numeric in *.
    destruct (score x), (score y); try congruence. lia.
Qed.

(** A board of two or more entries in descending order of score holds
    numbers only, and is sorted. *)
Lemma sorted_of_score_ge l :
  StronglySorted score_ge l ->
  sorted_desc l /\ (2 <= List.length l -> Forall numeric l).
Proof.
  intros H. split.
  - induction H as [|x l Hs IH Hx]; constructor; [exact IH|].
    eapply Forall_impl; [|exact Hx]. intros y Hy.
    unfold score_ge, ge_num, num in *.
    destruct (score x), (score y); try contradiction. lia.
  - intros Hlen. destruct l as [|x [|y l]]; simpl in Hlen; try lia.
    inversion H as [|? ? Hs Hx]; subst.
    assert (Hrest : Forall numeric (y :: l)).
    { eapply Forall_impl; [|exact Hx]. intros z Hz.
      unfold score_ge, numeric in *.
      destruct (score x), (score z); try contradiction. discriminate. }
    constructor; [|exact Hrest].
    inversion Hx as [|? ? Hxy _]; subst.
    unfold score_ge, numeric in *.
    destruct (score x); [discriminate|contradiction].
Qed.

Lemma has_score_num v l :
  Forall numeric l -> filter (has_score v) l = filter (has_num v) l.
Proof.
  induction 1 as [|x l Hx Hl IH]; simpl; [reflexivity|].
  rewrite IH. unfold has_score, has_num, is_score, num, numeric in *.
  destruct (score x); [reflexivity|congruence].
Qed.

(** *** The stored document *)

Lemma findById_id i games g : findById i games = Some g -> _id g = i.
Proof.
  intros H. apply find_some in H. destruct H as [_ H].
  now apply Nat.eqb_eq in H.
Qed.

Lemma findById_save_same i games g g' :
  findById i games = Some g -> _id g' = i ->
  findById i (save g' games) = Some g'.
Proof.
  unfold findById, save. intros H <-.
  induction games as [|h games IH]; simpl in *; [discriminate|].
  destruct (Nat.eqb (_id h) (_id g')) eqn:E.
  - now rewrite Nat.eqb_refl.
  - rewrite E. now apply IH.
Qed.

Lemma findById_save_other i games g' :
  _id g' <> i -> findById i (save g' games) = findById i games.
Proof.
  unfold findById, save. intros Hne.
  induction games as [|h games IH]; simpl; [reflexivity|].
  destruct (Nat.eqb (_id h) (_id g')) eqn:E.
  - apply Nat.eqb_eq in E.
    destruct (Nat.eqb_spec (_id g') i); [contradiction|].
    destruct (Nat.eqb_spec (_id h) i); [congruence|exact IH].
  - now rewrite IH.
Qed.

(** One request to game [i]. *)
Lemma post_same W req s i g :
  id req = Some i ->
  findById i (db s) = Some g ->
  post_leaderboard W req s =
    (Some {| status := 200;
             body := Ok (firstn 10
                           (submit (leaderboard g) (new_entry W req s))) |},
     {| fs_log := fs_log s;
        db := save (with_leaderboard g
                      (submit (leaderboard g) (new_entry W req s))) (db s);
        ticks := S (ticks s) |}).
Proof. intros Hi H. unfold post_leaderboard. now rewrite Hi, H. Qed.

Lemma post_other W req s i :
  id req <> Some i ->
  findById i (db (snd (post_leaderboard W req s))) = findById i (db s).
Proof.
  intros Hne. unfold post_leaderboard.
  destruct (id req) as [j|]; [|reflexivity].
  destruct (findById j (db s)) as [g|] eqn:E; [|reflexivity].
  simpl. apply findById_save_other. simpl.
  rewrite (findById_id _ _ _ E). congruence.
Qed.

Lemma to_game_spec i r : to_game i r = true <-> id r = Some i.
Proof.
  unfold to_game. destruct (id r) as [j|]; [|split; discriminate].
  rewrite Nat.eqb_eq. split; congruence.
Qed.

(** The board of a game after a series of requests: the submissions
    addressed to it, in request order. *)
Lemma posts_board W i reqs : forall s g,
  findById i (db s) = Some g ->
  exists g' es,
    findById i (db (posts W reqs s)) = Some g' /\
    leaderboard g' = fold_left submit es (leaderboard g) /\
    map entry_sig es = map req_sig (filter (to_game i) reqs).
Proof.
  induction reqs as [|r reqs IH]; intros s g Hg.
  - exists g, []. auto.
  - unfold posts. simpl. fold (posts W reqs (snd (post_leaderboard W r s))).
    destruct (to_game i r) eqn:Hi.
    + apply to_game_spec in Hi.
      rewrite (post_same _ _ _ _ _ Hi Hg). simpl.
      set (e := new_entry W r s).
      set (g1 := with_leaderboard g (submit (leaderboard g) e)).
      set (s1 := {| fs_log := fs_log s; db := save g1 (db s);
                    ticks := S (ticks s) |}).
      assert (Hg1 : findById i (db s1) = Some g1).
      { apply (findById_save_same _ _ g); [exact Hg|].
        simpl. exact (findById_id _ _ _ Hg). }
      destruct (IH s1 g1 Hg1) as (g' & es & Hf & Hb & Hsig).
      exists g', (e :: es). repeat split; [exact Hf|exact Hb|].
      simpl. now rewrite Hsig.
    + apply IH. rewrite post_other; [exact Hg|].
      intros H. apply to_game_spec in H. congruence.
Qed.

Lemma filter_sig v : forall es rs,
  map entry_sig es = map req_sig rs ->
  map entry_sig (filter (has_score v) es) =
  map req_sig (filter (fun r => is_score v (req_score r)) rs).
Proof.
  induction es as [|e es IH]; intros [|r rs] H; try discriminate;
    [reflexivity|].
  simpl in H. unfold entry_sig at 1, req_sig at 1 in H.
  injection H as Hu Hn Hs Hrest.
  simpl. unfold has_score at 1. rewrite Hs.
  destruct (is_score v (req_score r)); simpl.
  - unfold entry_sig at 1, req_sig at 1. rewrite Hu, Hn, Hs.
    f_equal. now apply IH.
  - now apply IH.
Qed.

Lemma numeric_sig : forall es rs,
  map entry_sig es = map req_sig rs ->
  Forall (fun r => req_score r <> None) rs -> Forall numeric es.
Proof.
  induction es as [|e es IH]; intros [|r rs] H Hr; try discriminate;
    constructor.
  - simpl in H. unfold entry_sig at 1, req_sig at 1 in H.
    injection H as _ _ Hs _. inversion Hr; subst.
    unfold numeric. congruence.
  - simpl in H. injection H as _ Hrest. inversion Hr; subst.
    now apply (IH rs).
Qed.

Lemma filter_filter {A} (f g : A -> bool) l :
  filter f (filter g l) = filter (fun x => g x && f x) l.
Proof.
  induction l as [|x l IH]; simpl; [reflexivity|].
  destruct (g x); simpl; [destruct (f x)|]; now rewrite IH.
Qed.

(** C8 (as amended): a submission to an existing game stores the old
    board with the new entry, sorted by the comparator and cut: it
    never has more than 100 entries.  When the stored scores and the
    submitted score are numbers, the new board is sorted by
    descending score and again holds numbers only.  For a game that
    started with an empty leaderboard (as every created game does)
    and received scores that are numbers, after any series of
    requests the entries of equal score are the earliest submissions
    of that score to this game, in the order in which they were
    submitted. *)
Theorem leaderboard_capped_sorted_stable W :
  (forall req s i g,
     id req = Some i ->
     findById i (db s) = Some g ->
     exists g',
       findById i (db (snd (post_leaderboard W req s))) = Some g' /\
       leaderboard g' = submit (leaderboard g) (new_entry W req s) /\
       List.length (leaderboard g') <= 100 /\
       (Forall (fun e => score e <> None) (leaderboard g) ->
        req_score req <> None ->
        StronglySorted score_ge (leaderboard g') /\
        Forall (fun e => score e <> None) (leaderboard g'))) /\
  (forall i reqs s g,
     findById i (db s) = Some g ->
     leaderboard g = [] ->
     Forall (fun r => to_game i r = true -> req_score r <> None) reqs ->
     exists g',
       findById i (db (posts W reqs s)) = Some g' /\
       List.length (leaderboard g') <= 100 /\
       StronglySorted score_ge (leaderboard g') /\
       forall v, exists dropped,
         map req_sig
           (filter (fun r => to_game i r && is_score v (req_score r)) reqs)
         = map entry_sig (filter (has_score v) (leaderboard g')) ++ dropped).
Proof.
  split.
  - intros req s i g Hi Hg. rewrite (post_same _ _ _ _ _ Hi Hg). simpl.
    eexists. split.
    + apply (findById_save_same _ _ g); [exact Hg|].
      simpl. exact (findById_id _ _ _ Hg).
    + simpl. split; [reflexivity|]. split.
      * unfold submit. apply firstn_le_length.
      * intros Hb Hr.
        assert (He : numeric (new_entry W req s)) by exact Hr.
        rewrite (submit_numeric _ _ Hb He). split.
        -- apply score_ge_of_sorted.
           ++ apply firstn_sorted, sort_sorted.
           ++ now apply submit_num_numeric.
        -- now apply submit_num_numeric.
  - intros i reqs s g Hg Hempty Hnum.
    destruct (posts_board W i reqs s g Hg) as (g' & es & Hf & Hb & Hsig).
    assert (Hes : Forall numeric es).
    { apply (numeric_sig _ _ Hsig).
      rewrite Forall_forall in *. intros r Hr.
      apply filter_In in Hr. destruct Hr as [Hr Ht]. now apply Hnum. }
    rewrite Hempty, (fold_submit_numeric es [] (Forall_nil _) Hes),
      submit_from_empty in Hb.
    assert (Hall : Forall numeric (firstn 100 (stable_sort by_num es)))
      by now apply Forall_firstn', stable_sort_Forall.
    exists g'. split; [exact Hf|]. rewrite Hb. split; [|split].
    + apply firstn_le_length.
    + apply score_ge_of_sorted; [apply firstn_sorted, sort_sorted|exact Hall].
    + intros v.
      destruct (filter_firstn_prefix (has_num v) 100 (stable_sort by_num es))
        as (rest & Hrest).
      rewrite sort_stable in Hrest.
      rewrite (has_score_num v _ Hall).
      exists (map entry_sig rest).
      rewrite <- map_app, <- Hrest, <- (has_score_num v _ Hes),
        <- filter_filter.
      symmetry. now apply filter_sig.
Qed.

End LeaderboardFacts.

(** ** The import pipeline on sample archives *)

Module BulkUploadExamples.
Import Schema World Json BulkUpload BulkUploadFacts.

Definition upload_of (entries : list Entry) : File :=
  {| path := "/srv/uploads/3f9a"; zip := Some entries |}.

Definition bad_page : string := "/srv/uploads/bad_1002/index.html".

Definition game_ok : Game :=
  {| _id := 0; title := JStr "Ok"; description := JStr "";
     category := JStr ""; tags := JArr [];
     filePath := "/games/files/ok_1000/index.html";
     lesson_title := JStr ""; lesson_content := JStr "";
     quizzes := JArr []; ratings := []; comments := [];
     leaderboard := []; createdAt := 1001 |}.

Definition quizzes_add : value :=
  JArr [JObj [("question", JStr "2+2");
              ("options", JArr [JStr "3"; JStr "4"]);
              ("answerIndex", JNum 1 0)]].


Definition game_add : Game :=
  {| _id := 0; title := JStr "Add"; description := JStr "";
     category := JStr ""; tags := JArr [];
     filePath := "/games/files/mathgame_1000/index.html";
     lesson_title := JStr ""; lesson_content := JStr "";
     quizzes := quizzes_add; ratings := []; comments := [];
     leaderboard := []; createdAt := 1001 |}.

Definition game_untitled : Game :=
  {| _id := 0; title := JStr "Untitled"; description := JStr "";
     category := JStr ""; tags := JArr [];
     filePath := "/games/files/puzzle_1000/index.html";
     lesson_title := JStr ""; lesson_content := JStr "";
     quizzes := JArr []; ratings := []; comments := [];
     leaderboard := []; createdAt := 1001 |}.

Lemma calm_never_fails t0 : never_fails (calm t0).
Proof. split; intros; reflexivity. Qed.

(** Close a goal that is an instance [K] of a general statement, both
    evaluated. *)
Ltac by_instance K :=
  vm_compute in K; vm_compute;
  first [exact K | apply K; repeat constructor; discriminate
        | apply K; reflexivity].

(** The write of [bad/index.html] fails: the request fails, the first
    folder's record stays. *)
Lemma write_failure_aborts_import_witness :
  exists s2,
    bulk_upload Json.parse uploads (write_fails_at bad_page 1000)
      (admin_request (upload_of archive_three)) empty_state =
      (send_status 500 (ErrorBody "Failed processing zip"), s2) /\
    db s2 = db empty_state ++ [game_ok].
Proof.
  exists (snd (bulk_upload Json.parse uploads (write_fails_at bad_page 1000)
                 (admin_request (upload_of archive_three)) empty_state)).
  pose proof (write_failure_aborts_import Json.parse uploads
                (write_fails_at bad_page 1000)
                (upload_of archive_three)
                (firstn 2 archive_three)
                (file_entry "bad/metadata.json" (titled "Bad"))
                (skipn 3 archive_three)
                (JObj [("title", JStr "Bad")]) [game_ok] empty_state
                (final_state
                   (for_entries Json.parse uploads
                      (write_fails_at bad_page 1000)
                      archive_three (firstn 2 archive_three) []
                      empty_state))
                (WriteFile bad_page "<html></html>")
                (snd (bulk_upload Json.parse uploads
                        (write_fails_at bad_page 1000)
                        (admin_request (upload_of archive_three))
                        empty_state)))
    as K.
  by_instance K.
Defined.

(** The claim of isolation fails here: one write fails, the response
    is the error, and the later folder [good] has no record. *)
Lemma write_failure_not_isolated :
  let W := write_fails_at bad_page 1000 in
  let r := bulk_upload Json.parse uploads W
             (admin_upload archive_three) empty_state in
  fs_fails W empty_state (WriteFile bad_page "<html></html>") = true /\
  fst r = {| status := 500; body := ErrorBody "Failed processing zip" |} /\
  map filePath (db (snd r)) = ["/games/files/ok_1000/index.html"].
Proof. vm_compute. repeat split. Qed.

Definition mathgame_log : list op :=
  [MkdirP "/srv/uploads/mathgame_1000";
   MkdirP "/srv/uploads/mathgame_1000";
   WriteFile "/srv/uploads/mathgame_1000/metadata.json" meta_add;
   MkdirP "/srv/uploads/mathgame_1000";
   WriteFile "/srv/uploads/mathgame_1000/index.html" "<html></html>";
   MkdirP "/srv/uploads/mathgame_1000/img";
   WriteFile "/srv/uploads/mathgame_1000/img/logo.png" "PNG";
   Readdir "/srv/uploads/mathgame_1000";
   Rename "/srv/uploads/mathgame_1000" "/srv/uploads/mathgame_1000"].



Lemma malformed_manifest_skipped_witness :
  exists created,
    fst (bulk_upload Json.parse uploads (calm 1000)
           (admin_request (upload_of archive_broken_good)) empty_state) =
      send (ImportBody (List.length created) (firstn 20 created)) /\
    db (snd (bulk_upload Json.parse uploads (calm 1000)
               (admin_request (upload_of archive_broken_good)) empty_state))
      = db empty_state ++ created /\
    Forall2 record_of
      (manifests Json.parse ([] ++ skipn 1 archive_broken_good)) created.
Proof.
  pose proof (proj2 (malformed_manifest_skipped Json.parse uploads
                       (calm 1000) broken_manifest eq_refl eq_refl)
                (upload_of archive_broken_good) []
                (skipn 1 archive_broken_good) empty_state
                (calm_never_fails 1000)) as K.
  by_instance K.
Defined.

Lemma candidate_manifests_witness :
  folder_of (file_entry "mathgame/metadata.json" meta_add) = "mathgame" /\
  Forall2 record_of (manifests Json.parse archive_mathgame) [game_add].
Proof.
  destruct (candidate_manifests Json.parse uploads (calm 1000))
    as (_ & Hfolder & _ & _ & Hrun).
  split.
  - apply Hfolder. reflexivity.
  - apply (Hrun archive_mathgame archive_mathgame empty_state [game_add]
             {| fs_log := mathgame_log; db := [game_add]; ticks := 2 |}).
    vm_compute. reflexivity.
Defined.

(** An entry named just [metadata.json] ends in that field, is not a
    directory, and is not a candidate: nothing is imported. *)
Lemma root_manifest_not_candidate :
  let e := file_entry "metadata.json" (titled "Root") in
  isDirectory e = false /\
  last (Str.split Str.slash (entryName e)) "" = "metadata.json" /\
  candidate e = false /\
  fst (bulk_upload Json.parse uploads (calm 1000)
         (admin_upload archive_root_manifest) empty_state) =
    {| status := 200; body := ImportBody 0 [] |}.
Proof. vm_compute. repeat split. Qed.

Definition puzzle_log : list op :=
  [MkdirP "/srv/uploads/puzzle_1000";
   MkdirP "/srv/uploads/puzzle_1000";
   WriteFile "/srv/uploads/puzzle_1000/metadata.json" "{}";
   MkdirP "/srv/uploads/puzzle_1000";
   WriteFile "/srv/uploads/puzzle_1000/main.js" "start()";
   Readdir "/srv/uploads/puzzle_1000";
   Rename "/srv/uploads/puzzle_1000" "/srv/uploads/puzzle_1000"].

Lemma missing_fields_defaulted_witness :
  db {| fs_log := puzzle_log; db := [game_untitled]; ticks := 2 |} =
    db empty_state ++ [game_untitled] /\
  title game_untitled = JStr "Untitled" /\
  description game_untitled = JStr "" /\
  category game_untitled = JStr "" /\
  tags game_untitled = JArr [] /\
  quizzes game_untitled = JArr [] /\
  lesson_title game_untitled = JStr "" /\
  lesson_content game_untitled = JStr "".
Proof.
  destruct (missing_fields_defaulted uploads (calm 1000) archive_no_index
              "puzzle" (JObj []) empty_state game_untitled
              {| fs_log := puzzle_log; db := [game_untitled]; ticks := 2 |})
    as (Hdb & Ht & Hd & Hc & Htg & Hq & Hlt & Hlc);
    [vm_compute; reflexivity|].
  repeat split; auto.
Defined.

(** The archive of the specification's example: one record, the
    upload removed. *)
Lemma import_response_witness :
  bulk_upload Json.parse uploads (calm 1000)
    (admin_request (upload_of archive_mathgame)) empty_state =
  ({| status := 200; body := ImportBody 1 [game_add] |},
   {| fs_log := mathgame_log ++ [Unlink "/srv/uploads/3f9a"];
      db := [game_add]; ticks := 2 |}).
Proof.
  assert (Hnn : Forall (fun fm => snd fm <> JNull)
                  (manifests Json.parse archive_mathgame)).
  { vm_compute. repeat constructor. discriminate. }
  destruct (proj1 (proj2 (import_response Json.parse uploads (calm 1000)))
              (upload_of archive_mathgame) archive_mathgame empty_state
              (calm_never_fails 1000) eq_refl Hnn)
    as (created & s1 & Hrun & Hun).
  destruct (proj1 (import_response Json.parse uploads (calm 1000))
              (upload_of archive_mathgame) archive_mathgame empty_state
              created s1 eq_refl Hrun Hun) as (Hresp & _).
  rewrite Hresp. vm_compute in Hrun. injection Hrun as <- <-.
  vm_compute. reflexivity.
Defined.

Lemma no_manifest_no_writes_witness :
  bulk_upload Json.parse uploads (calm 1000)
    (admin_request (upload_of archive_no_manifest)) empty_state =
  ({| status := 200; body := ImportBody 0 [] |},
   {| fs_log := fs_log empty_state ++ [Unlink "/srv/uploads/3f9a"];
      db := db empty_state; ticks := ticks empty_state |}).
Proof.
  apply (no_manifest_no_writes Json.parse uploads (calm 1000)
           (upload_of archive_no_manifest) archive_no_manifest empty_state).
  - reflexivity.
  - intros e [<-|[<-|[<-|[]]]] H; try discriminate H.
    vm_compute. reflexivity.
  - reflexivity.
Defined.

(** An archive whose only manifest is [null]: no record can be made
    from it, yet its folder is created and its files are written
    before the import fails. *)
Lemma null_only_archive_is_written :
  let r := bulk_upload Json.parse uploads (calm 1000)
             (admin_upload archive_null_only) empty_state in
  manifests Json.parse archive_null_only = [("solo", JNull)] /\
  (forall url, game_input JNull url = None) /\
  fst r = {| status := 500; body := ErrorBody "Failed processing zip" |} /\
  db (snd r) = [] /\
  fs_log (snd r) =
    [MkdirP "/srv/uploads/solo_1000";
     MkdirP "/srv/uploads/solo_1000";
     WriteFile "/srv/uploads/solo_1000/metadata.json" "null";
     MkdirP "/srv/uploads/solo_1000";
     WriteFile "/srv/uploads/solo_1000/index.html" "<html></html>";
     Readdir "/srv/uploads/solo_1000";
     Rename "/srv/uploads/solo_1000" "/srv/uploads/solo_1000"].
Proof. vm_compute. repeat split. Qed.

Lemma record_without_index_check_witness :
  Forall (fun e => entryName e <> "puzzle/index.html") archive_no_index /\
  exists g,
    db (snd (bulk_upload Json.parse uploads (calm 1000)
               (admin_request (upload_of archive_no_index)) empty_state))
      = [g] /\
    filePath g = "/games/files/puzzle_1000/index.html" /\
    title g = JStr "Untitled".
Proof.
  split; [repeat constructor; discriminate|].
  assert (Hc : candidate (file_entry "puzzle/metadata.json" "{}") = true)
    by (vm_compute; reflexivity).
  assert (Hp : Json.parse (data (file_entry "puzzle/metadata.json" "{}"))
               = Some (JObj []))
    by (vm_compute; reflexivity).
  destruct (record_without_index_check Json.parse uploads (calm 1000)
              (upload_of archive_no_index) []
              (file_entry "puzzle/metadata.json" "{}")
              (skipn 1 archive_no_index) (JObj []) empty_state
              (calm_never_fails 1000) eq_refl Hc Hp
              ltac:(discriminate) (Forall_nil _))
    as (before & s1 & g & later & Hrun & _ & Hdb & Hfp & _).
  vm_compute in Hrun. injection Hrun as <- <-.
  vm_compute in Hdb. injection Hdb as <- <-.
  eexists. split; [vm_compute; reflexivity|]. split; reflexivity.
Defined.

(** A manifest that parses to [null] gets no record. *)
Lemma null_manifest_creates_no_record :
  let r := bulk_upload Json.parse uploads (calm 1000)
             (admin_upload archive_null_only) empty_state in
  Json.parse "null" = Some JNull /\
  fst r = {| status := 500; body := ErrorBody "Failed processing zip" |} /\
  db (snd r) = [].
Proof. vm_compute. repeat split. Qed.

Lemma null_manifest_aborts_witness :
  let r := bulk_upload Json.parse uploads (calm 1000)
             (admin_request (upload_of archive_null_second)) empty_state in
  (forall url, game_input JNull url = None) /\
  fst r = {| status := 500; body := ErrorBody "Failed processing zip" |} /\
  (exists ops,
     fs_log (snd r) = fs_log empty_state ++ ops /\
     Forall (fun o => is_unlink o = false) ops) /\
  (forall created s1,
     for_entries Json.parse uploads (calm 1000)
       (firstn 2 archive_null_second ++
        file_entry "second/metadata.json" "null" ::
        skipn 3 archive_null_second)
       (firstn 2 archive_null_second) [] empty_state = Ret created s1 ->
     db (snd r) = db empty_state ++ created).
Proof.
  pose proof (null_manifest_aborts Json.parse uploads (calm 1000)
                (upload_of archive_null_second)
                (firstn 2 archive_null_second)
                (file_entry "second/metadata.json" "null")
                (skipn 3 archive_null_second) empty_state) as K.
  vm_compute in K. vm_compute. apply K; reflexivity.
Defined.

End BulkUploadExamples.

(** ** The leaderboard on a sample game *)

Module LeaderboardExamples.
Import Schema World Leaderboard LeaderboardFacts.

Definition one_game : state :=
  {| fs_log := []; db := [BulkUploadExamples.game_add]; ticks := 0 |}.

Definition submission (i u : ObjectId) (n : string) (v : Z) : Request :=
  {| id := Some i; user := u; req_name := n; req_score := Some v |}.

(** A submission whose body has no score. *)
Definition unscored (i u : ObjectId) (n : string) : Request :=
  {| id := Some i; user := u; req_name := n; req_score := None |}.

(** Two players tie at 50, one request goes to an unknown game. *)
Definition three_players : list Request :=
  [submission 0 1 "ann" 50; submission 0 2 "bob" 70;
   submission 7 9 "eve" 99; submission 0 3 "cy" 50].

Lemma leaderboard_capped_sorted_stable_witness :
  exists g',
    findById 0 (db (posts (BulkUpload.calm 1000) three_players one_game))
      = Some g' /\
    List.length (leaderboard g') <= 100 /\
    StronglySorted score_ge (leaderboard g') /\
    forall v, exists dropped,
      map req_sig
        (filter (fun r => to_game 0 r && is_score v (req_score r))
           three_players)
      = map entry_sig (filter (has_score v) (leaderboard g')) ++ dropped.
Proof.
  refine (proj2 (leaderboard_capped_sorted_stable (BulkUpload.calm 1000))
            0 three_players one_game BulkUploadExamples.game_add
            eq_refl eq_refl _).
  repeat constructor; discriminate.
Defined.

(** The tie is listed in submission order, after the higher score. *)
Example three_players_board :
  option_map (fun g => map entry_sig (leaderboard g))
    (findById 0 (db (posts (BulkUpload.calm 1000) three_players one_game)))
  = Some [(2, "bob", Some 70%Z); (1, "ann", Some 50%Z);
          (3, "cy", Some 50%Z)].
Proof. vm_compute. reflexivity. Qed.

(** Three submissions to one game, the second without a score. *)
Definition with_a_gap : list Request :=
  [submission 0 1 "z" 2; unscored 0 2 "n"; submission 0 3 "y" 5].

(** The entry without a score compares as [NaN] with both others, so
    the sort leaves the three where they are: 2 stays ahead of 5. *)
Lemma missing_score_leaves_board_unsorted :
  exists g',
    findById 0 (db (posts (BulkUpload.calm 1000) with_a_gap one_game))
      = Some g' /\
    map entry_sig (leaderboard g') =
      [(1, "z", Some 2%Z); (2, "n", None); (3, "y", Some 5%Z)] /\
    ~ StronglySorted score_ge (leaderboard g').
Proof.
  eexists. split; [vm_compute; reflexivity|].
  split; [reflexivity|].
  intros H. inversion H as [|? ? _ Hz]; subst.
  inversion Hz as [|? ? Hn _]; subst. exact Hn.
Qed.

End LeaderboardExamples.

(** ** More on the leaderboard *)

Module LeaderboardMore.
Import Schema World Leaderboard LeaderboardFacts.

Lemma insert_perm {A} (cmp : A -> A -> Z) (x : A) l :
  Permutation (insert cmp x l) (x :: l).
Proof.
  induction l as [|y l IH]; simpl; [reflexivity|].
  destruct (0 <? cmp y x)%Z; [reflexivity|].
  rewrite IH. apply perm_swap.
Qed.

Lemma insert_length {A} (cmp : A -> A -> Z) (x : A) l :
  List.length (insert cmp x l) = S (List.length l).
Proof. apply (Permutation_length (insert_perm cmp x l)). Qed.

Lemma binary_insert_perm {A} (cmp : A -> A -> Z) l (x : A) :
  Permutation (binary_insert cmp l x) (x :: l).
Proof.
  unfold binary_insert.
  set (k := insertion_point _ _ _ _ _).
  rewrite <- (firstn_skipn k l) at 3.
  symmetry. apply Permutation_middle.
Qed.

Lemma fold_binary_insert_perm {A} (cmp : A -> A -> Z) rest : forall acc,
  Permutation (fold_left (binary_insert cmp) rest acc) (acc ++ rest).
Proof.
  induction rest as [|x rest IH]; intros acc; simpl.
  - now rewrite app_nil_r.
  - rewrite IH, binary_insert_perm. apply Permutation_middle.
Qed.

(** Sorting loses and invents nothing, whatever the comparator. *)
Lemma sort_perm {A} (comparefn : A -> A -> option Z) (l : list A) :
  Permutation (sort comparefn l) l.
Proof.
  destruct l as [|a [|b l]]; [reflexivity|reflexivity|].
  unfold sort.
  destruct (run_from _ _ b l) as [run rest] eqn:E.
  pose proof (run_from_app _ _ _ _ _ _ E) as Hl. subst l.
  rewrite fold_binary_insert_perm.
  change (a :: b :: run ++ rest) with ((a :: b :: run) ++ rest).
  apply Permutation_app_tail.
  destruct (SortCompare comparefn b a <? 0)%Z;
    [symmetry; apply Permutation_rev|reflexivity].
Qed.

(** An entry that beats the last one goes somewhere before it. *)
Lemma insert_before_last x z l :
  (num z < num x)%Z ->
  insert by_num x (l ++ [z]) = insert by_num x l ++ [z].
Proof.
  intros H. induction l as [|y l IH]; simpl.
  - unfold by_num. destruct (Z.ltb_spec 0 (num x - num z)); [reflexivity|lia].
  - destruct (0 <? by_num y x)%Z; [reflexivity|]. now rewrite IH.
Qed.

Lemma insert_numeric x l :
  numeric x -> Forall numeric l ->
  insert (SortCompare compare) x l = insert by_num x l.
Proof.
  intros Hx. induction 1 as [|y l Hy Hl IH]; simpl; [reflexivity|].
  now rewrite (order_numeric y x Hy Hx), IH.
Qed.

(** A submission touches one game only.  Unless it is answered 200
    nothing is stored: for an id that cannot be cast there is no
    answer, for an unknown game the answer is 404, and the state
    stays as it was.  In any case every other game is found exactly
    as before, the number of games stays the same and the filesystem
    log is not touched. *)
Theorem submission_touches_one_game W req s :
  (id req = None -> post_leaderboard W req s = (None, s)) /\
  ((forall r, fst (post_leaderboard W req s) = Some r -> status r <> 200) ->
   snd (post_leaderboard W req s) = s) /\
  (forall i,
     id req = Some i ->
     (fst (post_leaderboard W req s)
        = Some {| status := 404; body := NotFound |}
      <-> findById i (db s) = None)) /\
  (forall j, id req <> Some j ->
     findById j (db (snd (post_leaderboard W req s))) = findById j (db s)) /\
  List.length (db (snd (post_leaderboard W req s))) = List.length (db s) /\
  fs_log (snd (post_leaderboard W req s)) = fs_log s.
Proof.
  split; [|split; [|split; [|split; [|split]]]].
  - intros H. unfold post_leaderboard. now rewrite H.
  - unfold post_leaderboard. destruct (id req) as [i|]; [|reflexivity].
    destruct (findById i (db s)); [|reflexivity].
    intros H. now destruct (H _ eq_refl).
  - intros i Hi. unfold post_leaderboard. rewrite Hi.
    destruct (findById i (db s)); simpl; split; congruence.
  - intros j Hj. now apply post_other.
  - unfold post_leaderboard. destruct (id req) as [i|]; [|reflexivity].
    destruct (findById i (db s)); [|reflexivity].
    simpl. unfold save. apply length_map.
  - unfold post_leaderboard. destruct (id req) as [i|]; [|reflexivity].
    destruct (findById i (db s)); reflexivity.
Qed.

(** While a board has fewer than 100 entries a submission drops
    nothing: the new board holds the old entries and the new one. *)
Theorem board_below_cap_keeps_all board entry :
  List.length board < 100 ->
  Permutation (submit board entry) (entry :: board).
Proof.
  intros H. unfold submit.
  rewrite firstn_all2.
  - rewrite sort_perm. symmetry. apply Permutation_cons_append.
  - rewrite (Permutation_length (sort_perm _ _)), length_app. simpl. lia.
Qed.

(** What the hypotheses on a full board give. *)
Lemma full_board_numeric board :
  StronglySorted score_ge board -> List.length board = 100 ->
  sorted_desc board /\ Forall numeric board.
Proof.
  intros Hs Hlen. destruct (sorted_of_score_ge _ Hs) as [H1 H2].
  split; [exact H1|apply H2; lia].
Qed.

(** On a full sorted board a submission that does not beat the last
    entry is dropped, ties included: the board stays as it is. *)
Theorem full_board_rejects_low_score board entry :
  StronglySorted score_ge board ->
  List.length board = 100 ->
  score_ge (last board entry) entry ->
  submit board entry = board.
Proof.
  intros Hs Hlen Hlast.
  destruct (full_board_numeric _ Hs Hlen) as [Hsd Hnum].
  assert (He : numeric entry).
  { unfold score_ge, numeric in *.
    destruct (score (last board entry)), (score entry);
      try contradiction; discriminate. }
  assert (Hall : Forall (fun y => ge_num y entry) board).
  { destruct (exists_last (l:=board)) as (init & z & ->).
    { destruct board; [discriminate|discriminate]. }
    rewrite PathFacts.last_snoc in Hlast.
    assert (Hz : ge_num z entry).
    { unfold score_ge, ge_num, num in *.
      destruct (score z), (score entry); try contradiction. lia. }
    destruct (sorted_app_inv _ _ _ Hsd) as (_ & _ & Hab).
    apply Forall_app. split.
    - eapply Forall_impl; [|exact Hab]. intros y Hy.
      inversion Hy; subst. unfold ge_num in *. lia.
    - repeat constructor. exact Hz. }
  rewrite (submit_numeric _ _ Hnum He). unfold submit_num.
  rewrite sort_snoc, (sort_of_sorted _ Hsd).
  rewrite (insert_at_end _ _ Hall).
  rewrite firstn_app, <- Hlen, firstn_all, Nat.sub_diag. simpl.
  apply app_nil_r.
Qed.

(** On a full sorted board a submission that beats the last entry
    takes its place in the order and the last entry is dropped. *)
Theorem full_board_evicts_last board entry :
  StronglySorted score_ge board ->
  List.length board = 100 ->
  score_lt (last board entry) entry ->
  submit board entry =
  insert (SortCompare compare) entry (removelast board).
Proof.
  intros Hs Hlen Hlast.
  destruct (full_board_numeric _ Hs Hlen) as [Hsd Hnum].
  assert (He : numeric entry).
  { unfold score_lt, numeric in *.
    destruct (score (last board entry)), (score entry);
      try contradiction; discriminate. }
  destruct (exists_last (l:=board)) as (init & z & ->).
  { destruct board; discriminate. }
  rewrite PathFacts.last_snoc in Hlast.
  assert (Hz : (num z < num entry)%Z).
  { unfold score_lt, num in *.
    destruct (score z), (score entry); try contradiction. lia. }
  rewrite PathFacts.removelast_snoc.
  rewrite (submit_numeric _ _ Hnum He). unfold submit_num.
  apply Forall_app in Hnum. destruct Hnum as [Hinit _].
  rewrite (insert_numeric _ _ He Hinit).
  rewrite sort_snoc, (sort_of_sorted _ Hsd).
  rewrite (insert_before_last _ _ _ Hz).
  rewrite length_app in Hlen. simpl in Hlen.
  rewrite firstn_app.
  replace 100 with (List.length (insert by_num entry init))
    by (rewrite insert_length; lia).
  rewrite firstn_all, Nat.sub_diag. simpl. apply app_nil_r.
Qed.

End LeaderboardMore.

(** ** More on the import pipeline *)

Module BulkUploadMore.
Import Schema World Json BulkUpload BulkUploadFacts.

(** *** Strings *)

Lemma string_length_app (a b : string) :
  String.length (a ++ b)%string = String.length a + String.length b.
Proof. induction a; simpl; congruence. Qed.

Lemma string_app_inv_head (a x y : string) :
  (a ++ x)%string = (a ++ y)%string -> x = y.
Proof. induction a; simpl; intros H; [exact H|]. injection H. auto. Qed.

Lemma string_app_inv_tail (s : string) : forall x y : string,
  (x ++ s)%string = (y ++ s)%string -> x = y.
Proof.
  induction x as [|c x IH]; intros [|d y] H; simpl in H.
  - reflexivity.
  - apply (f_equal String.length) in H. simpl in H.
    rewrite string_length_app in H. lia.
  - apply (f_equal String.length) in H. simpl in H.
    rewrite string_length_app in H. lia.
  - injection H as -> H. f_equal. now apply IH.
Qed.

(** A name is split in one way only at its last underscore. *)
Lemma app_underscore_inj : forall a b d1 d2 : string,
  Str.mem "_"%char d1 = false -> Str.mem "_"%char d2 = false ->
  (a ++ "_" ++ d1)%string = (b ++ "_" ++ d2)%string ->
  a = b /\ d1 = d2.
Proof.
  induction a as [|c a IH]; intros [|d b] d1 d2 H1 H2 H; simpl in H.
  - injection H as ->. auto.
  - injection H as <- ->.
    rewrite StrFacts.mem_app in H1. simpl in H1.
    rewrite orb_true_r in H1. discriminate.
  - injection H as -> <-.
    rewrite StrFacts.mem_app in H2. simpl in H2.
    rewrite orb_true_r in H2. discriminate.
  - injection H as -> H. destruct (IH _ _ _ H1 H2 H) as [-> ->]. auto.
Qed.

Lemma uint_no_underscore d :
  Str.mem "_"%char (NilEmpty.string_of_uint d) = false.
Proof. induction d; simpl; auto. Qed.

Lemma of_N_no_underscore n : Str.mem "_"%char (Str.of_N n) = false.
Proof.
  unfold Str.of_N, NilZero.string_of_uint.
  destruct (N.to_uint n) eqn:E; try reflexivity;
    rewrite <- E; clear E; apply uint_no_underscore.
Qed.

Lemma to_uint_nonnil n : N.to_uint n <> Decimal.Nil.
Proof.
  intros H. pose proof (DecimalN.Unsigned.of_to n) as Hn.
  rewrite H in Hn. simpl in Hn. subst n. discriminate.
Qed.

(** Distinct clock readings print differently. *)
Lemma of_N_inj n m : Str.of_N n = Str.of_N m -> n = m.
Proof.
  unfold Str.of_N. intros H.
  apply (f_equal NilZero.uint_of_string) in H.
  rewrite !NilZero.usu in H by apply to_uint_nonnil.
  injection H as H. now apply DecimalN.Unsigned.to_uint_inj.
Qed.

Section More.

Variable JSON_parse : string -> option value.
Variable uploadDir : string.
Variable W : World.t.

Abbreviation for_entries := (for_entries JSON_parse uploadDir W).
Abbreviation try_block := (try_block JSON_parse uploadDir W).
Abbreviation bulk_upload := (bulk_upload JSON_parse uploadDir W).

(** What a request does to the database and to the log. *)
Lemma bulk_upload_effects req s :
  exists new ops,
    db (snd (bulk_upload req s)) = db s ++ new /\
    fs_log (snd (bulk_upload req s)) = fs_log s ++ ops /\
    forall o, In o ops -> is_unlink o = true ->
      status (fst (bulk_upload req s)) = 200 /\
      exists f, file req = Some f /\ o = Unlink (path f).
Proof.
  assert (Hnone : forall (r : Response),
            exists (new : list Game) (ops : list op),
              db s = db s ++ new /\ fs_log s = fs_log s ++ ops /\
              forall o, In o ops -> is_unlink o = true ->
                status r = 200 /\
                exists f, file req = Some f /\ o = Unlink (path f)).
  { intros r. exists [], []. rewrite !app_nil_r.
    split; [reflexivity|split; [reflexivity|intros o []]]. }
  unfold BulkUpload.bulk_upload.
  destruct (negb (String.eqb (role req) "admin")).
  { apply Hnone. }
  destruct (file req) as [f|] eqn:Hfile; [|apply Hnone].
  clear Hnone.
  destruct (zip f) as [entries|] eqn:Hz.
  2:{ unfold BulkUpload.try_block. rewrite Hz. simpl.
      exists [], []. rewrite !app_nil_r.
      split; [reflexivity|split; [reflexivity|intros o []]]. }
  rewrite (try_block_entries _ _ _ _ _ _ Hz).
  destruct (for_entries_grows JSON_parse uploadDir W entries entries [] s)
    as (new & ops & Hdb & Hlog & Hops & _).
  rewrite Forall_forall in Hops.
  destruct (for_entries entries entries [] s) as [out s1|err s1];
    simpl in Hdb, Hlog.
  - destruct (fs_fails W s1 (Unlink (path f))); simpl.
    + exists new, ops. split; [exact Hdb|split; [exact Hlog|]].
      intros o Hin Hu. rewrite (Hops _ Hin) in Hu. discriminate.
    + exists new, (ops ++ [Unlink (path f)]).
      rewrite Hdb, Hlog, app_assoc.
      split; [reflexivity|split; [reflexivity|]].
      intros o Hin Hu. apply in_app_or in Hin.
      destruct Hin as [Hin|[<-|[]]].
      * rewrite (Hops _ Hin) in Hu. discriminate.
      * eauto.
  - simpl. exists new, ops. split; [exact Hdb|split; [exact Hlog|]].
    intros o Hin Hu. rewrite (Hops _ Hin) in Hu. discriminate.
Qed.

(** Whatever the request and whatever fails, the handler only appends
    to the games collection: the records stored before are still
    there, unchanged and in the same order.  A request that the
    handler refuses with 403 or 400 leaves the state as the handler
    found it: it makes no filesystem call and stores nothing.  The
    handler runs after [upload.single] has stored the uploaded file
    in the upload directory; unless it answers 200 it does not remove
    that file, so the upload of a refused request stays on disk. *)
Theorem import_keeps_existing_records req s :
  (exists new, db (snd (bulk_upload req s)) = db s ++ new) /\
  (status (fst (bulk_upload req s)) = 403 \/
   status (fst (bulk_upload req s)) = 400 ->
   snd (bulk_upload req s) = s) /\
  (forall f,
     file req = Some f ->
     status (fst (bulk_upload req s)) <> 200 ->
     exists ops,
       fs_log (snd (bulk_upload req s)) = fs_log s ++ ops /\
       ~ In (Unlink (path f)) ops).
Proof.
  split; [|split].
  - destruct (bulk_upload_effects req s) as (new & _ & H & _). eauto.
  - unfold BulkUpload.bulk_upload.
    destruct (negb (String.eqb (role req) "admin")); [reflexivity|].
    destruct (file req) as [f|]; [|reflexivity].
    destruct (try_block f s) eqn:E; simpl.
    + unfold BulkUpload.try_block in E.
      destruct (zip f); [|discriminate].
      unfold bind in E.
      destruct (BulkUpload.for_entries _ _ _ _ _ _ s); [|discriminate].
      destruct (fs W (Unlink (path f)) s1); [|discriminate].
      injection E as <- _. simpl. intros [H|H]; discriminate.
    + intros [H|H]; discriminate.
  - intros f Hf Hstatus.
    destruct (bulk_upload_effects req s) as (_ & ops & _ & Hlog & Hops).
    exists ops. split; [exact Hlog|].
    intros Hin. destruct (Hops _ Hin eq_refl) as [H200 _]. contradiction.
Qed.

(** The import removes nothing from storage but the uploaded archive,
    and that only when it answers with success: any [unlink] in the
    calls of a request is the one of [req.file.path], and the status
    is then 200. *)
Theorem import_unlinks_only_the_upload req s :
  exists ops,
    fs_log (snd (bulk_upload req s)) = fs_log s ++ ops /\
    forall o, In o ops -> is_unlink o = true ->
      status (fst (bulk_upload req s)) = 200 /\
      exists f, file req = Some f /\ o = Unlink (path f).
Proof.
  destruct (bulk_upload_effects req s) as (_ & ops & _ & H1 & H2). eauto.
Qed.

End More.

(** The public reference of a materialized folder is determined by the
    last field of its identifier and the clock reading, and by nothing
    else: two folders get the same reference exactly when they agree
    on both.  Folders [a/game] and [b/game] read at the same
    millisecond collide. *)
Theorem reference_collision uploadDir (folder1 folder2 : string) (t1 t2 : N) :
  serveUrl_of (Path.join [uploadDir; (folder1 ++ "_" ++ Str.of_N t1)%string])
  = serveUrl_of (Path.join [uploadDir; (folder2 ++ "_" ++ Str.of_N t2)%string])
  <->
  last (Str.split Str.slash folder1) "" = last (Str.split Str.slash folder2) ""
  /\ t1 = t2.
Proof.
  unfold serveUrl_of. rewrite !PathFacts.basename_targetFolder. split.
  - intros H. apply string_app_inv_head in H.
    apply string_app_inv_tail in H.
    apply app_underscore_inj in H; try apply of_N_no_underscore.
    destruct H as [H1 H2]. split; [exact H1|]. now apply of_N_inj.
  - intros [-> ->]. reflexivity.
Qed.

End BulkUploadMore.

(** ** Comments and moderation *)

Module CommentsFacts.
Import Schema World Comments.

(** *** [splice] *)

(** The array that remains when the start resolves to position [k]
    and [d] elements go. *)
Lemma splice1_resolved {A} (start : option Z) (l : list A) (k d : nat) :
  (let len := Z.of_nat (List.length l) in
   let r := match start with Some i => i | None => 0%Z end in
   let a := if (r <? 0)%Z then Z.max (len + r) 0 else Z.min r len in
   a = Z.of_nat k /\ Z.min 1 (len - a) = Z.of_nat d) ->
  splice1 start l = firstn k l ++ skipn (k + d) l.
Proof.
  cbv zeta. intros [Ha Hd]. unfold splice1. cbv zeta.
  rewrite Hd, Ha, <- Nat2Z.inj_add, !Nat2Z.id. reflexivity.
Qed.

Lemma splice1_nan {A} (l : list A) : splice1 None l = tl l.
Proof.
  destruct l as [|x l]; [reflexivity|].
  rewrite (splice1_resolved None (x :: l) 0 1); [reflexivity|].
  cbv zeta. change (0 <? 0)%Z with false. cbv iota.
  cbn [List.length]. lia.
Qed.

Lemma splice1_at {A} (l : list A) (i : Z) :
  (0 <= i < Z.of_nat (List.length l))%Z ->
  splice1 (Some i) l =
  firstn (Z.to_nat i) l ++ skipn (S (Z.to_nat i)) l.
Proof.
  intros H.
  rewrite (splice1_resolved (Some i) l (Z.to_nat i) 1).
  - now rewrite Nat.add_1_r.
  - cbv zeta. destruct (Z.ltb_spec i 0); lia.
Qed.

Lemma splice1_beyond {A} (l : list A) (i : Z) :
  (Z.of_nat (List.length l) <= i)%Z -> splice1 (Some i) l = l.
Proof.
  intros H.
  rewrite (splice1_resolved (Some i) l (List.length l) 0).
  - rewrite Nat.add_0_r, firstn_all, skipn_all. apply app_nil_r.
  - cbv zeta. destruct (Z.ltb_spec i 0); lia.
Qed.

Lemma splice1_negative {A} (l : list A) (i : Z) :
  (i < 0)%Z -> l <> [] ->
  let k := Z.to_nat (Z.max (Z.of_nat (List.length l) + i) 0) in
  k < List.length l /\
  splice1 (Some i) l = firstn k l ++ skipn (S k) l.
Proof.
  intros H Hne k.
  assert (Hlen : 0 < List.length l) by (destruct l; [congruence|simpl; lia]).
  split; [unfold k; lia|].
  rewrite (splice1_resolved (Some i) l k 1).
  - now rewrite Nat.add_1_r.
  - cbv zeta. unfold k. destruct (Z.ltb_spec i 0); lia.
Qed.

Lemma remove_at_length {A} (l : list A) k :
  k < List.length l ->
  List.length (firstn k l ++ skipn (S k) l) = List.length l - 1.
Proof.
  intros H. rewrite length_app, length_firstn, length_skipn. lia.
Qed.

(** *** The stored document *)

Lemma put_found g0 g s :
  Leaderboard.findById (_id g0) (db s) = Some g0 ->
  _id g = _id g0 ->
  Leaderboard.findById (_id g0) (db (put g s)) = Some g.
Proof.
  intros H Hid. unfold put. simpl.
  now apply (LeaderboardFacts.findById_save_same _ _ g0).
Qed.

Lemma set_nth_split {A} (x : A) : forall n l y,
  nth_error l n = Some y ->
  set_nth n x l = firstn n l ++ x :: skipn (S n) l.
Proof.
  induction n as [|n IH]; intros [|z l] y H; simpl in *; try discriminate.
  - reflexivity.
  - f_equal. now apply (IH l y).
Qed.

Lemma found_id i s g :
  Leaderboard.findById i (db s) = Some g -> _id g = i.
Proof. apply LeaderboardFacts.findById_id. Qed.

Definition admin (u : User) : Prop := user_role u = "admin".

Lemma admin_passes u : admin u -> negb (String.eqb (user_role u) "admin") = false.
Proof. unfold admin. intros ->. reflexivity. Qed.

(** Deleting with an index inside the list removes exactly that
    comment and keeps the others in order; an index at or beyond the
    end removes nothing, and the answer is [ok] all the same. *)
Theorem delete_by_index u gameId commentIndex s g i :
  admin u ->
  Leaderboard.findById gameId (db s) = Some g ->
  parseInt commentIndex = Some i ->
  (0 <= i)%Z ->
  exists g',
    delete_comment u gameId commentIndex s =
      (Some {| status := 200; body := OkBody |}, put g' s) /\
    Leaderboard.findById gameId (db (put g' s)) = Some g' /\
    comments g' =
      if (i <? Z.of_nat (List.length (comments g)))%Z
      then firstn (Z.to_nat i) (comments g) ++
           skipn (S (Z.to_nat i)) (comments g)
      else comments g.
Proof.
  intros Hu Hg Hi Hpos.
  exists (with_comments g (splice1 (Some i) (comments g))).
  unfold delete_comment. rewrite (admin_passes _ Hu), Hg, Hi.
  split; [reflexivity|]. split.
  - pose proof (found_id _ _ _ Hg) as <-.
    now apply put_found.
  - simpl. destruct (Z.ltb_spec i (Z.of_nat (List.length (comments g)))).
    + now apply splice1_at.
    + now apply splice1_beyond.
Qed.

(** Deleting with an index that is not a number removes the first
    comment; a negative index counts from the end of the list (and
    one below minus the length removes the first comment). *)
Theorem delete_by_odd_index u gameId commentIndex s g :
  admin u ->
  Leaderboard.findById gameId (db s) = Some g ->
  exists g',
    delete_comment u gameId commentIndex s =
      (Some {| status := 200; body := OkBody |}, put g' s) /\
    Leaderboard.findById gameId (db (put g' s)) = Some g' /\
    (parseInt commentIndex = None -> comments g' = tl (comments g)) /\
    (forall i, parseInt commentIndex = Some i -> (i < 0)%Z ->
       let k := Z.to_nat (Z.max (Z.of_nat (List.length (comments g)) + i) 0) in
       comments g' = firstn k (comments g) ++ skipn (S k) (comments g)).
Proof.
  intros Hu Hg.
  exists (with_comments g (splice1 (parseInt commentIndex) (comments g))).
  unfold delete_comment. rewrite (admin_passes _ Hu), Hg.
  split; [reflexivity|]. split; [|split].
  - pose proof (found_id _ _ _ Hg) as <-. now apply put_found.
  - intros ->. simpl. apply splice1_nan.
  - intros i Hi Hneg. rewrite Hi. cbn [comments with_comments].
    destruct (comments g) as [|c cs] eqn:E.
    { unfold splice1. cbv zeta. now rewrite !firstn_nil, !skipn_nil. }
    apply splice1_negative; [exact Hneg|discriminate].
Qed.

(** Approving answers 404 unless the index is an integer within the
    list; then exactly that comment becomes approved, its author,
    text and date and all other comments stay as they are. *)
Theorem approve_by_index u gameId commentIndex s g :
  admin u ->
  Leaderboard.findById gameId (db s) = Some g ->
  (at_index (comments g) (parseInt commentIndex) = None ->
   post_approve u gameId commentIndex s =
     ({| status := 404; body := ErrorBody "Comment not found" |}, s)) /\
  (forall c, at_index (comments g) (parseInt commentIndex) = Some c ->
   exists i g',
     parseInt commentIndex = Some i /\
     (0 <= i < Z.of_nat (List.length (comments g)))%Z /\
     post_approve u gameId commentIndex s =
       ({| status := 200; body := OkBody |}, put g' s) /\
     Leaderboard.findById gameId (db (put g' s)) = Some g' /\
     comments g' =
       firstn (Z.to_nat i) (comments g) ++
       approve c :: skipn (S (Z.to_nat i)) (comments g) /\
     c_text (approve c) = c_text c /\
     c_userId (approve c) = c_userId c /\
     c_userEmail (approve c) = c_userEmail c /\
     c_createdAt (approve c) = c_createdAt c /\
     c_approved (approve c) = true).
Proof.
  intros Hu Hg. unfold post_approve.
  rewrite (admin_passes _ Hu), Hg. split.
  - intros ->. reflexivity.
  - intros c Hc. rewrite Hc.
    destruct (parseInt commentIndex) as [i|] eqn:Hi; [|discriminate].
    unfold at_index in Hc.
    destruct (Z.ltb_spec i 0); [discriminate|].
    exists i, (with_comments g
                 (set_nth (Z.to_nat i) (approve c) (comments g))).
    split; [reflexivity|]. split.
    { assert (Z.to_nat i < List.length (comments g))
        by (apply nth_error_Some; congruence). lia. }
    split; [reflexivity|]. split.
    { pose proof (found_id _ _ _ Hg) as <-. now apply put_found. }
    split; [|repeat split].
    simpl. now apply (set_nth_split _ _ _ c).
Qed.

(** The two moderation endpoints read the index differently: for an
    index that is not a number, or that is negative, on a game that
    has comments, approving answers 404 and changes nothing, while
    deleting with the same index removes a comment. *)
Theorem approve_and_delete_disagree u gameId commentIndex s g :
  admin u ->
  Leaderboard.findById gameId (db s) = Some g ->
  comments g <> [] ->
  (parseInt commentIndex = None \/
   exists i, parseInt commentIndex = Some i /\ (i < 0)%Z) ->
  post_approve u gameId commentIndex s =
    ({| status := 404; body := ErrorBody "Comment not found" |}, s) /\
  exists g',
    delete_comment u gameId commentIndex s =
      (Some {| status := 200; body := OkBody |}, put g' s) /\
    Leaderboard.findById gameId (db (put g' s)) = Some g' /\
    List.length (comments g') = List.length (comments g) - 1.
Proof.
  intros Hu Hg Hne Hidx. split.
  - unfold post_approve. rewrite (admin_passes _ Hu), Hg.
    destruct Hidx as [->|(i & -> & Hi)]; [reflexivity|].
    unfold at_index. destruct (Z.ltb_spec i 0); [reflexivity|lia].
  - destruct (delete_by_odd_index u gameId commentIndex s g Hu Hg)
      as (g' & Hd & Hf & Hnan & Hneg).
    exists g'. split; [exact Hd|]. split; [exact Hf|].
    destruct Hidx as [Hn|(i & Hi & Hlt)].
    + rewrite (Hnan Hn). destruct (comments g); [congruence|simpl; lia].
    + rewrite (Hneg i Hi Hlt).
      apply remove_at_length.
      exact (proj1 (splice1_negative (comments g) i Hlt Hne)).
Qed.

(** *** The moderation gate *)

(** The number of approved comments of game [j]. *)
Definition approved_in (j : ObjectId) (s : state) : nat :=
  match Leaderboard.findById j (db s) with
  | Some g => approved_count (comments g)
  | None => 0
  end.

Lemma filter_skipn_le {A} (f : A -> bool) k (l : list A) :
  List.length (filter f (skipn k l)) <= List.length (filter f l).
Proof.
  rewrite <- (firstn_skipn k l) at 2. rewrite filter_app, length_app. lia.
Qed.

Lemma approved_cut a b (l : list Comment) :
  a <= b ->
  approved_count (firstn a l ++ skipn b l) <= approved_count l.
Proof.
  intros H. unfold approved_count.
  assert (Hl : List.length (filter c_approved l) =
               List.length (filter c_approved (firstn a l)) +
               List.length (filter c_approved (skipn a l))).
  { rewrite <- (firstn_skipn a l) at 1. now rewrite filter_app, length_app. }
  assert (Hb : skipn b l = skipn (b - a) (skipn a l)).
  { rewrite skipn_skipn. f_equal. lia. }
  rewrite filter_app, length_app, Hl, Hb.
  pose proof (filter_skipn_le c_approved (b - a) (skipn a l)). lia.
Qed.

Lemma approved_splice1 idx (l : list Comment) :
  approved_count (splice1 idx l) <= approved_count l.
Proof.
  unfold splice1. cbv zeta. apply approved_cut.
  destruct idx as [i|]; [destruct (Z.ltb_spec i 0); lia|].
  change (0 <? 0)%Z with false. cbv iota. lia.
Qed.

Lemma approved_set_nth c : forall n (l : list Comment),
  approved_count (set_nth n c l) <= approved_count l + 1.
Proof.
  unfold approved_count.
  induction n as [|n IH]; intros [|y l]; simpl; try lia.
  - destruct (c_approved c), (c_approved y); simpl; lia.
  - specialize (IH l). destruct (c_approved y); simpl; lia.
Qed.

Lemma approved_in_put j g0 g s :
  Leaderboard.findById (_id g0) (db s) = Some g0 ->
  _id g = _id g0 ->
  approved_in j (put g s) =
  if Nat.eqb j (_id g0) then approved_count (comments g)
  else approved_in j s.
Proof.
  intros H Hid. unfold approved_in.
  destruct (Nat.eqb_spec j (_id g0)) as [->|Hne].
  - now rewrite (put_found g0 g s H Hid).
  - unfold put. simpl.
    rewrite LeaderboardFacts.findById_save_other; [reflexivity|congruence].
Qed.

(** Comments become approved only through the approve endpoint called
    by an admin, one at a time: posting a comment leaves the number
    of approved comments of every game as it is, deleting never
    raises it, an approve request raises it by at most one and only
    in the addressed game, and not at all when the caller is not an
    admin. *)
Theorem approval_needs_admin_approve :
  (forall W u i text s j,
     approved_in j (snd (post_comment W u i text s)) = approved_in j s) /\
  (forall u gameId idx s j,
     approved_in j (snd (delete_comment u gameId idx s)) <= approved_in j s) /\
  (forall u gameId idx s j,
     approved_in j (snd (post_approve u gameId idx s)) <= approved_in j s + 1 /\
     (user_role u <> "admin" \/ j <> gameId ->
      approved_in j (snd (post_approve u gameId idx s)) = approved_in j s)).
Proof.
  split; [|split].
  - intros W u i text s j. unfold post_comment.
    destruct (Leaderboard.findById i (db s)) as [g|] eqn:Hg; [|reflexivity].
    pose proof (found_id _ _ _ Hg) as Hid. subst i.
    cbn [snd].
    unfold approved_in at 1. cbn [db].
    destruct (Nat.eqb_spec j (_id g)) as [->|Hne].
    + rewrite (LeaderboardFacts.findById_save_same _ _ g) by auto.
      unfold approved_in. rewrite Hg. cbn [comments with_comments].
      unfold approved_count. rewrite filter_app. simpl.
      now rewrite app_nil_r.
    + rewrite LeaderboardFacts.findById_save_other by (simpl; congruence).
      reflexivity.
  - intros u gameId idx s j. unfold delete_comment.
    destruct (negb (String.eqb (user_role u) "admin")); [reflexivity|].
    destruct (Leaderboard.findById gameId (db s)) as [g|] eqn:Hg;
      [|reflexivity].
    pose proof (found_id _ _ _ Hg) as Hid. subst gameId. cbn [snd].
    rewrite (approved_in_put j g) by auto.
    destruct (Nat.eqb_spec j (_id g)) as [->|Hne]; [|reflexivity].
    unfold approved_in. rewrite Hg. apply approved_splice1.
  - intros u gameId idx s j. unfold post_approve.
    destruct (String.eqb (user_role u) "admin") eqn:Hrole; cbn [negb].
    2:{ cbn [snd]. split; [lia|reflexivity]. }
    apply String.eqb_eq in Hrole.
    destruct (Leaderboard.findById gameId (db s)) as [g|] eqn:Hg.
    2:{ cbn [snd]. split; [lia|reflexivity]. }
    pose proof (found_id _ _ _ Hg) as Hid. subst gameId.
    destruct (at_index (comments g) (parseInt idx)) as [c|].
    2:{ cbn [snd]. split; [lia|reflexivity]. }
    destruct (parseInt idx) as [i|].
    2:{ cbn [snd]. split; [lia|reflexivity]. }
    cbn [snd]. rewrite (approved_in_put j g) by auto.
    destruct (Nat.eqb_spec j (_id g)) as [->|Hne].
    + split.
      * unfold approved_in. rewrite Hg. apply approved_set_nth.
      * intros [H|H]; congruence.
    + split; [lia|reflexivity].
Qed.

(** *** The dashboard *)

Lemma list_comments_all games :
  list_comments games =
  flat_map (fun g => map (item_of g) (comments g)) games.
Proof.
  unfold list_comments. induction games as [|g games IH]; [reflexivity|].
  simpl. destruct (comments g) eqn:E; simpl; [exact IH|].
  rewrite E, IH. reflexivity.
Qed.

(** The listing holds one item per comment of every game, in order
    (the filter on games with a first comment loses nothing), and no
    item carries a comment index: for every listed item the dashboard
    sends index [0], whichever comment the item shows. *)
Theorem dashboard_sends_index_zero games :
  list_comments games =
    flat_map (fun g => map (item_of g) (comments g)) games /\
  forall it, In it (list_comments games) ->
    clicked_index it = FNum 0 /\
    url_segment (clicked_index it) = Some "0" /\
    exists g c,
      In g games /\ In c (comments g) /\
      item_field "comment" it = Some (FComment c) /\
      clicked_game it = Some (FId (_id g)).
Proof.
  split; [apply list_comments_all|].
  intros it Hin. rewrite list_comments_all in Hin.
  apply in_flat_map in Hin. destruct Hin as (g & Hg & Hin).
  apply in_map_iff in Hin. destruct Hin as (c & <- & Hc).
  split; [reflexivity|]. split; [reflexivity|].
  exists g, c. repeat split; assumption.
Qed.

(** Clicking Approve on any comment of a game approves the game's
    first comment: the request carries index [0]. *)
Theorem approve_click_hits_first_comment u s g c0 rest c :
  admin u ->
  Leaderboard.findById (_id g) (db s) = Some g ->
  comments g = c0 :: rest ->
  In c (comments g) ->
  exists idx g',
    url_segment (clicked_index (item_of g c)) = Some idx /\
    post_approve u (_id g) idx s =
      ({| status := 200; body := OkBody |}, put g' s) /\
    comments g' = approve c0 :: rest.
Proof.
  intros Hu Hg Hcs _.
  exists "0", (with_comments g (approve c0 :: rest)).
  split; [reflexivity|]. split; [|reflexivity].
  unfold post_approve. rewrite (admin_passes _ Hu), Hg, Hcs. reflexivity.
Qed.

Example parseInt_samples :
  parseInt "12" = Some 12%Z /\ parseInt " 7up" = Some 7%Z /\
  parseInt "-3" = Some (-3)%Z /\ parseInt "+4" = Some 4%Z /\
  parseInt "abc" = None /\ parseInt "" = None /\ parseInt "-" = None.
Proof. repeat split. Qed.

End CommentsFacts.

(** ** Samples for the leaderboard, the import and the comments *)

Module MoreExamples.
Import Schema World Json.

(** *** Leaderboard *)

Definition player (k : nat) : Score :=
  {| userId := k; name := "p"; score := Some (Z.of_nat (k / 2));
     scoreCreatedAt := 0 |}.

(** A full board: a hundred players, sorted. *)
Definition full_board : list Score :=
  Leaderboard.sort Leaderboard.compare (map player (seq 0 100)).

Definition newcomer (v : Z) : Score :=
  {| userId := 500; name := "new"; score := Some v; scoreCreatedAt := 9 |}.

Lemma players_numeric l : Forall LeaderboardFacts.numeric (map player l).
Proof. induction l; constructor; [discriminate|assumption]. Qed.

Lemma full_board_sorted : StronglySorted Leaderboard.score_ge full_board.
Proof.
  unfold full_board.
  rewrite (LeaderboardFacts.sort_numeric _ (players_numeric (seq 0 100))).
  apply LeaderboardFacts.score_ge_of_sorted.
  - apply LeaderboardFacts.sort_sorted.
  - apply LeaderboardFacts.stable_sort_Forall, players_numeric.
Qed.

(** A submission to a game that does not exist, and one whose id is
    no ObjectId. *)
Lemma submission_touches_one_game_witness :
  Leaderboard.post_leaderboard (BulkUpload.calm 0)
    (LeaderboardExamples.submission 7 9 "eve" 99)
    LeaderboardExamples.one_game =
  (Some {| Leaderboard.status := 404;
           Leaderboard.body := Leaderboard.NotFound |},
   LeaderboardExamples.one_game) /\
  Leaderboard.post_leaderboard (BulkUpload.calm 0)
    {| Leaderboard.id := None; Leaderboard.user := 9;
       Leaderboard.req_name := "eve"; Leaderboard.req_score := Some 99%Z |}
    LeaderboardExamples.one_game = (None, LeaderboardExamples.one_game).
Proof.
  split.
  - pose proof (LeaderboardMore.submission_touches_one_game
                  (BulkUpload.calm 0)
                  (LeaderboardExamples.submission 7 9 "eve" 99)
                  LeaderboardExamples.one_game) as (_ & H2 & H3 & _).
    apply injective_projections.
    + apply (proj2 (H3 7 eq_refl)). reflexivity.
    + apply H2. intros r Hr. vm_compute in Hr. injection Hr as <-.
      discriminate.
  - apply (proj1 (LeaderboardMore.submission_touches_one_game
                    (BulkUpload.calm 0) _ LeaderboardExamples.one_game)).
    reflexivity.
Defined.

Lemma board_below_cap_keeps_all_witness :
  Permutation (Leaderboard.submit [player 4; player 1] (newcomer 1))
    [newcomer 1; player 4; player 1].
Proof.
  apply LeaderboardMore.board_below_cap_keeps_all. simpl. lia.
Defined.

(** A tie with the last entry of a full board does not get in. *)
Lemma full_board_rejects_low_score_witness :
  Leaderboard.submit full_board (newcomer 0) = full_board.
Proof.
  apply LeaderboardMore.full_board_rejects_low_score.
  - exact full_board_sorted.
  - vm_compute. reflexivity.
  - vm_compute. discriminate.
Defined.

Lemma full_board_evicts_last_witness :
  Leaderboard.submit full_board (newcomer 30) =
  Leaderboard.insert (Leaderboard.SortCompare Leaderboard.compare)
    (newcomer 30) (removelast full_board).
Proof.
  apply LeaderboardMore.full_board_evicts_last.
  - exact full_board_sorted.
  - vm_compute. reflexivity.
  - vm_compute. reflexivity.
Defined.

(** *** Import *)

Definition visitor_upload : BulkUpload.Request :=
  {| BulkUpload.role := "user";
     BulkUpload.file :=
       Some (BulkUploadExamples.upload_of BulkUpload.archive_mathgame) |}.

(** A visitor's request is refused; the state is as it was, and the
    file stored for the request is not removed. *)
Lemma import_keeps_existing_records_witness :
  snd (BulkUpload.bulk_upload Json.parse BulkUpload.uploads
         (BulkUpload.calm 1000) visitor_upload LeaderboardExamples.one_game)
  = LeaderboardExamples.one_game /\
  exists ops,
    fs_log (snd (BulkUpload.bulk_upload Json.parse BulkUpload.uploads
                   (BulkUpload.calm 1000) visitor_upload
                   LeaderboardExamples.one_game))
      = fs_log LeaderboardExamples.one_game ++ ops /\
    ~ In (Unlink "/srv/uploads/3f9a") ops.
Proof.
  pose proof (BulkUploadMore.import_keeps_existing_records Json.parse
                BulkUpload.uploads (BulkUpload.calm 1000) visitor_upload
                LeaderboardExamples.one_game) as (_ & H2 & H3).
  split.
  - apply H2. left. vm_compute. reflexivity.
  - apply (H3 (BulkUploadExamples.upload_of BulkUpload.archive_mathgame)
              eq_refl).
    vm_compute. discriminate.
Defined.

Lemma import_unlinks_only_the_upload_witness :
  exists ops,
    fs_log (snd (BulkUpload.bulk_upload Json.parse BulkUpload.uploads
                   (BulkUpload.calm 1000)
                   (BulkUpload.admin_upload BulkUpload.archive_mathgame)
                   BulkUpload.empty_state))
      = fs_log BulkUpload.empty_state ++ ops /\
    forall o, In o ops -> BulkUploadFacts.is_unlink o = true ->
      BulkUpload.status
        (fst (BulkUpload.bulk_upload Json.parse BulkUpload.uploads
                (BulkUpload.calm 1000)
                (BulkUpload.admin_upload BulkUpload.archive_mathgame)
                BulkUpload.empty_state)) = 200 /\
      exists f,
        BulkUpload.file (BulkUpload.admin_upload BulkUpload.archive_mathgame)
          = Some f /\
        o = Unlink (BulkUpload.path f).
Proof.
  exact (BulkUploadMore.import_unlinks_only_the_upload Json.parse
           BulkUpload.uploads (BulkUpload.calm 1000)
           (BulkUpload.admin_upload BulkUpload.archive_mathgame)
           BulkUpload.empty_state).
Defined.

(** Two folders named [game], read at the same millisecond. *)
Lemma reference_collision_witness :
  BulkUpload.serveUrl_of
    (Path.join [BulkUpload.uploads; ("a/game" ++ "_" ++ Str.of_N 1000)%string])
  = BulkUpload.serveUrl_of
    (Path.join [BulkUpload.uploads; ("b/game" ++ "_" ++ Str.of_N 1000)%string]).
Proof.
  apply (proj2 (BulkUploadMore.reference_collision BulkUpload.uploads
                  "a/game" "b/game" 1000 1000)).
  split; reflexivity.
Defined.

(** *** Comments *)

Definition remark (k : nat) (t : string) (ok : bool) : Comment :=
  {| c_userId := k; c_userEmail := "reader@example.org"; c_text := t;
     c_createdAt := 5; c_approved := ok |}.

Definition three_remarks : list Comment :=
  [remark 1 "first" false; remark 2 "second" true; remark 3 "third" false].

Definition discussed : Game :=
  Comments.with_comments BulkUploadExamples.game_add three_remarks.

Definition forum : state := {| fs_log := []; db := [discussed]; ticks := 0 |}.

Definition moderator : Comments.User :=
  {| Comments.user_id := 10; Comments.user_email := "mod@example.org";
     Comments.user_role := "admin" |}.

Definition reader : Comments.User :=
  {| Comments.user_id := 11; Comments.user_email := "reader@example.org";
     Comments.user_role := "user" |}.

Lemma delete_by_index_witness :
  exists g',
    Comments.delete_comment moderator 0 "1" forum =
      (Some {| Comments.status := 200; Comments.body := Comments.OkBody |},
       Comments.put g' forum) /\
    Leaderboard.findById 0 (db (Comments.put g' forum)) = Some g' /\
    comments g' =
      if (1 <? Z.of_nat (List.length (comments discussed)))%Z
      then firstn (Z.to_nat 1) (comments discussed) ++
           skipn (S (Z.to_nat 1)) (comments discussed)
      else comments discussed.
Proof.
  apply (CommentsFacts.delete_by_index moderator 0 "1" forum discussed 1%Z);
    try reflexivity.
  lia.
Defined.

Lemma delete_by_odd_index_witness :
  exists g',
    Comments.delete_comment moderator 0 "oops" forum =
      (Some {| Comments.status := 200; Comments.body := Comments.OkBody |},
       Comments.put g' forum) /\
    comments g' = tl (comments discussed).
Proof.
  destruct (CommentsFacts.delete_by_odd_index moderator 0 "oops" forum
              discussed eq_refl eq_refl) as (g' & Hd & _ & Hnan & _).
  exists g'. split; [exact Hd|]. apply Hnan. reflexivity.
Defined.

Lemma approve_by_index_witness :
  Comments.post_approve moderator 0 "3" forum =
    ({| Comments.status := 404;
        Comments.body := Comments.ErrorBody "Comment not found" |}, forum) /\
  exists i g',
    Comments.parseInt "2" = Some i /\
    Comments.post_approve moderator 0 "2" forum =
      ({| Comments.status := 200; Comments.body := Comments.OkBody |},
       Comments.put g' forum) /\
    comments g' =
      firstn (Z.to_nat i) (comments discussed) ++
      Comments.approve (remark 3 "third" false) ::
      skipn (S (Z.to_nat i)) (comments discussed).
Proof.
  split.
  - apply (proj1 (CommentsFacts.approve_by_index moderator 0 "3" forum
                    discussed eq_refl eq_refl)).
    reflexivity.
  - destruct (proj2 (CommentsFacts.approve_by_index moderator 0 "2" forum
                       discussed eq_refl eq_refl)
                (remark 3 "third" false) eq_refl)
      as (i & g' & Hi & _ & Hp & _ & Hc & _).
    exists i, g'. auto.
Defined.

Lemma approve_and_delete_disagree_witness :
  Comments.post_approve moderator 0 "-1" forum =
    ({| Comments.status := 404;
        Comments.body := Comments.ErrorBody "Comment not found" |}, forum) /\
  exists g',
    Comments.delete_comment moderator 0 "-1" forum =
      (Some {| Comments.status := 200; Comments.body := Comments.OkBody |},
       Comments.put g' forum) /\
    Leaderboard.findById 0 (db (Comments.put g' forum)) = Some g' /\
    List.length (comments g') = List.length (comments discussed) - 1.
Proof.
  apply (CommentsFacts.approve_and_delete_disagree moderator 0 "-1" forum
           discussed); try reflexivity.
  - discriminate.
  - right. exists (-1)%Z. split; [reflexivity|lia].
Defined.

Lemma approval_needs_admin_approve_witness :
  CommentsFacts.approved_in 0
    (snd (Comments.post_approve reader 0 "0" forum))
  = CommentsFacts.approved_in 0 forum.
Proof.
  destruct CommentsFacts.approval_needs_admin_approve as (_ & _ & H).
  apply (proj2 (H reader 0 "0" forum 0)).
  left. discriminate.
Defined.

Lemma dashboard_sends_index_zero_witness :
  Comments.clicked_index
    (Comments.item_of discussed (remark 3 "third" false)) = Comments.FNum 0 /\
  Comments.url_segment
    (Comments.clicked_index
       (Comments.item_of discussed (remark 3 "third" false))) = Some "0".
Proof.
  destruct (proj2 (CommentsFacts.dashboard_sends_index_zero [discussed])
              (Comments.item_of discussed (remark 3 "third" false)))
    as (H1 & H2 & _).
  - simpl. auto.
  - split; assumption.
Defined.

(** The button of the third comment approves the first one. *)
Lemma approve_click_hits_first_comment_witness :
  exists idx g',
    Comments.url_segment
      (Comments.clicked_index
         (Comments.item_of discussed (remark 3 "third" false))) = Some idx /\
    Comments.post_approve moderator (_id discussed) idx forum =
      ({| Comments.status := 200; Comments.body := Comments.OkBody |},
       Comments.put g' forum) /\
    comments g' =
      Comments.approve (remark 1 "first" false) ::
      [remark 2 "second" true; remark 3 "third" false].
Proof.
  apply (CommentsFacts.approve_click_hits_first_comment moderator forum
           discussed (remark 1 "first" false)
           [remark 2 "second" true; remark 3 "third" false]
           (remark 3 "third" false)); try reflexivity.
  simpl. auto.
Defined.

End MoreExamples.

(** ** Ratings and favorites *)

Module RatingsFacts.
Import Schema World Ratings.

Definition by_user (u : ObjectId) (r : Rating) : bool := Nat.eqb (r_userId r) u.

Lemma filter_by_filter_not u (rs : list Rating) :
  filter (by_user u) (filter (fun r => negb (Nat.eqb (r_userId r) u)) rs) = [].
Proof.
  induction rs as [|r rs IH]; simpl; [reflexivity|].
  destruct (Nat.eqb (r_userId r) u) eqn:E; simpl; [exact IH|].
  unfold by_user at 1. now rewrite E.
Qed.

Lemma filter_idem {A} (f : A -> bool) l : filter f (filter f l) = filter f l.
Proof.
  induction l as [|x l IH]; simpl; [reflexivity|].
  destruct (f x) eqn:E; simpl; [rewrite E; f_equal|]; exact IH.
Qed.

Lemma NoDup_map_filter {A B} (f : A -> B) (p : A -> bool) l :
  NoDup (map f l) -> NoDup (map f (filter p l)).
Proof.
  induction l as [|x l IH]; simpl; intros H; [constructor|].
  inversion H as [|? ? Hx Hl]; subst.
  destruct (p x); simpl; [|now apply IH].
  constructor; [|now apply IH].
  intros Hin. apply Hx. apply in_map_iff in Hin.
  destruct Hin as (y & Hy & Hin). apply filter_In in Hin.
  apply in_map_iff. exists y. tauto.
Qed.

Lemma rate_NoDup u v rs :
  NoDup (map r_userId rs) -> NoDup (map r_userId (rate u v rs)).
Proof.
  intros H. unfold rate. rewrite map_app. simpl.
  apply NoDup_app_remove_l with (l := []). simpl.
  apply Permutation_NoDup with (l := u :: map r_userId
    (filter (fun r => negb (Nat.eqb (r_userId r) u)) rs)).
  - apply Permutation_cons_append.
  - constructor; [|now apply NoDup_map_filter].
    intros Hin. apply in_map_iff in Hin. destruct Hin as (r & Hr & Hin).
    apply filter_In in Hin. destruct Hin as [_ Hne].
    rewrite Hr, Nat.eqb_refl in Hne. discriminate.
Qed.

(** After a rating the game holds exactly one rating by that user, the
    new score; the ratings of all other users are as before, in the
    same order; user ids that were distinct stay distinct; and the
    average in the response is taken over at least one rating. *)
Theorem rate_one_per_user u id v s g :
  Leaderboard.findById id (db s) = Some g ->
  exists g',
    Leaderboard.findById id (db (snd (post_rate u id v s))) = Some g' /\
    filter (by_user u) (ratings g') = [{| r_userId := u; r_score := v |}] /\
    filter (fun r => negb (by_user u r)) (ratings g') =
      filter (fun r => negb (by_user u r)) (ratings g) /\
    (NoDup (map r_userId (ratings g)) -> NoDup (map r_userId (ratings g'))) /\
    fst (post_rate u id v s) =
      {| status := 200;
         body := Rated (total (ratings g')) (List.length (ratings g')) |} /\
    1 <= List.length (ratings g').
Proof.
  intros Hg. unfold post_rate. rewrite Hg. cbn [fst snd db].
  exists (with_ratings g (rate u v (ratings g))). split.
  - apply (LeaderboardFacts.findById_save_same _ _ g); [exact Hg|].
    simpl. exact (LeaderboardFacts.findById_id _ _ _ Hg).
  - cbn [ratings with_ratings]. unfold rate.
    rewrite !filter_app, filter_by_filter_not. simpl.
    unfold by_user at 1 3. simpl. rewrite Nat.eqb_refl. simpl.
    split; [reflexivity|]. split.
    + rewrite app_nil_r. apply (filter_idem (fun r => negb (by_user u r))).
    + split; [apply rate_NoDup|]. split; [reflexivity|].
      rewrite length_app. simpl. lia.
Qed.

Lemma In_rate u v rs r :
  In r (rate u v rs) <->
  r = {| r_userId := u; r_score := v |} \/ (r_userId r <> u /\ In r rs).
Proof.
  unfold rate. rewrite in_app_iff, filter_In, negb_true_iff, Nat.eqb_neq.
  simpl. split.
  - intros [[H1 H2]|[H|[]]]; auto.
  - intros [H|[H1 H2]]; auto.
Qed.

(** Latest wins: after any series of ratings of a game that had none,
    every user has at most one rating, and a rating is stored exactly
    when it is the last vote of its user. *)
Theorem rate_latest_wins votes :
  NoDup (map r_userId (rate_all votes [])) /\
  forall u v,
    In {| r_userId := u; r_score := v |} (rate_all votes []) <->
    last_vote u votes = Some v.
Proof.
  unfold rate_all, last_vote.
  induction votes as [|[u0 v0] votes IH] using rev_ind.
  - split; [constructor|]. intros u v. simpl. split; [tauto|discriminate].
  - destruct IH as [IH1 IH2].
    rewrite fold_left_app. simpl. split; [now apply rate_NoDup|].
    intros u v. rewrite In_rate, rev_app_distr. simpl.
    destruct (Nat.eqb_spec u0 u) as [->|Hne].
    + simpl. split.
      * intros [H|[H _]]; [injection H as ->; reflexivity|congruence].
      * intros H. injection H as ->. auto.
    + rewrite <- IH2. split.
      * intros [H|[_ H]]; [injection H; congruence|exact H].
      * intros H. right. split; [simpl; congruence|exact H].
Qed.

End RatingsFacts.

Module FavoritesFacts.
Import Schema Favorites.

Lemma findUser_uid i users u : findUser i users = Some u -> uid u = i.
Proof.
  intros H. apply find_some in H. destruct H as [_ H].
  now apply Nat.eqb_eq in H.
Qed.

Lemma findUser_save_same i users u u' :
  findUser i users = Some u -> uid u' = i ->
  findUser i (saveUser u' users) = Some u'.
Proof.
  unfold findUser, saveUser. intros H <-.
  induction users as [|h users IH]; simpl in *; [discriminate|].
  destruct (Nat.eqb (uid h) (uid u')) eqn:E.
  - now rewrite Nat.eqb_refl.
  - rewrite E. now apply IH.
Qed.

Lemma findUser_save_other i users u' :
  uid u' <> i -> findUser i (saveUser u' users) = findUser i users.
Proof.
  unfold findUser, saveUser. intros Hne.
  induction users as [|h users IH]; simpl; [reflexivity|].
  destruct (Nat.eqb (uid h) (uid u')) eqn:E.
  - apply Nat.eqb_eq in E.
    destruct (Nat.eqb_spec (uid u') i); [contradiction|].
    destruct (Nat.eqb_spec (uid h) i); [congruence|exact IH].
  - now rewrite IH.
Qed.

Section Ids.

Variable toString : ObjectId -> string.
Variable cast : string -> option ObjectId.

(** [gid] is the text of [g], and of no other favorite in [favs]. *)
Definition spells (gid : string) (g : ObjectId) (favs : list ObjectId)
  : Prop :=
  gid = toString g /\ cast gid = Some g /\
  forall f, In f favs -> toString f = gid -> f = g.

Lemma existsb_is_gid gid g favs :
  spells gid g favs ->
  existsb (is_gid toString gid) favs = true <-> In g favs.
Proof.
  intros (Hg & _ & Hinj). rewrite existsb_exists. unfold is_gid. split.
  - intros (x & Hx & E). apply String.eqb_eq in E.
    now rewrite <- (Hinj x Hx E).
  - intros H. exists g. split; [exact H|]. rewrite Hg. apply String.eqb_refl.
Qed.

(** Toggling by the text of [g] flips the membership of [g] and of
    nothing else. *)
Lemma toggle_In gid g favs :
  spells gid g favs ->
  exists favs',
    toggle toString cast gid favs = Some favs' /\
    (forall x, In x favs' <->
       (x = g /\ ~ In g favs) \/ (x <> g /\ In x favs)) /\
    (NoDup favs -> NoDup favs').
Proof.
  intros Hsp. pose proof (existsb_is_gid _ _ _ Hsp) as Hex.
  destruct Hsp as (Hg & Hcast & Hinj).
  unfold toggle. destruct (existsb (is_gid toString gid) favs) eqn:E.
  - eexists. split; [reflexivity|]. split.
    + intros x. rewrite filter_In, negb_true_iff. unfold is_gid.
      rewrite String.eqb_neq.
      assert (Hin : In g favs) by now apply Hex.
      split.
      * intros [Hx Hne]. right. split; [|exact Hx].
        intros ->. apply Hne. now symmetry.
      * intros [[-> Hn]|[Hne Hx]]; [contradiction|].
        split; [exact Hx|]. intros Ht. apply Hne. now apply Hinj.
    + intros Hnd. now apply NoDup_filter.
  - rewrite Hcast. eexists. split; [reflexivity|].
    assert (Hn : ~ In g favs).
    { intros H. apply Hex in H. congruence. }
    split.
    + intros x. rewrite in_app_iff. simpl.
      destruct (Nat.eq_dec x g) as [->|Hne]; [tauto|].
      split; [intros [H|[H|[]]]; [tauto|congruence]|tauto].
    + intros Hnd. apply Permutation_NoDup with (l := g :: favs).
      * apply Permutation_cons_append.
      * constructor; assumption.
Qed.

(** The favorite endpoint compares the text of the stored ids with the
    text of the id in the URL.  When that text is the one an id
    prints as, the endpoint flips the game for the user: afterwards
    it is a favorite exactly when it was not before, every other game
    is a favorite exactly when it was, no duplicate appears, the
    response is the stored list and the other users are untouched.
    When the text is another spelling that still casts to the id (no
    favorite prints as it), the game is pushed whether or not it is a
    favorite already, which makes a duplicate of a favorite.  For a
    user that no longer exists nothing is sent or changed. *)
Theorem favorite_toggles user gid users :
  (findUser user users = None ->
   post_favorite toString cast user gid users = (None, users)) /\
  (forall u g,
     findUser user users = Some u ->
     spells gid g (favorites u) ->
     exists u',
       post_favorite toString cast user gid users =
         (Some (favorites u'), saveUser u' users) /\
       findUser user (saveUser u' users) = Some u' /\
       (In g (favorites u') <-> ~ In g (favorites u)) /\
       (forall x, x <> g ->
          (In x (favorites u') <-> In x (favorites u))) /\
       (NoDup (favorites u) -> NoDup (favorites u')) /\
       (forall j, j <> user ->
          findUser j (saveUser u' users) = findUser j users)) /\
  (forall u g,
     findUser user users = Some u ->
     cast gid = Some g ->
     (forall f, In f (favorites u) -> toString f <> gid) ->
     post_favorite toString cast user gid users =
       (Some (favorites u ++ [g]),
        saveUser (with_favorites u (favorites u ++ [g])) users) /\
     (In g (favorites u) -> ~ NoDup (favorites u ++ [g]))).
Proof.
  unfold post_favorite. split; [|split].
  - intros ->. reflexivity.
  - intros u g Hu Hsp. rewrite Hu.
    destruct (toggle_In _ _ _ Hsp) as (favs' & -> & Hin & Hnd).
    exists (with_favorites u favs').
    pose proof (findUser_uid _ _ _ Hu) as Hid.
    split; [reflexivity|]. split; [|split; [|split; [|split]]].
    + now apply (findUser_save_same _ _ u).
    + simpl. rewrite Hin. tauto.
    + intros x Hx. simpl. rewrite Hin. tauto.
    + exact Hnd.
    + intros j Hj. apply findUser_save_other. simpl. congruence.
  - intros u g Hu Hcast Hno. rewrite Hu. unfold toggle.
    assert (E : existsb (is_gid toString gid) (favorites u) = false).
    { destruct (existsb (is_gid toString gid) (favorites u)) eqn:E;
        [|reflexivity].
      apply existsb_exists in E. destruct E as (f & Hf & E).
      apply String.eqb_eq in E. now destruct (Hno f Hf). }
    rewrite E, Hcast. split; [reflexivity|].
    intros Hin Hnd. apply NoDup_remove_2 in Hnd.
    rewrite app_nil_r in Hnd. contradiction.
Qed.

End Ids.

End FavoritesFacts.

(** ** Quiz scoring *)

Module QuizFacts.
Import Json Quiz.

Lemma score_from_bound quizzes answers : forall i n,
  score_from i quizzes answers = Some n -> n <= List.length quizzes.
Proof.
  induction quizzes as [|q rest IH]; intros i n H; simpl in *.
  - injection H as <-. lia.
  - destruct (element answers i); [|discriminate].
    destruct (score_from (S i) rest answers) as [m|] eqn:E; [|discriminate].
    injection H as <-. specialize (IH _ _ E).
    destruct (strict_eq o (answerIndex q)); lia.
Qed.

Lemma value_is_null (a : value) : a = JNull \/ a <> JNull.
Proof. destruct a; [now left|right; discriminate..]. Qed.

Lemma element_defined answers i :
  answers <> None -> answers <> Some JNull ->
  exists a, element answers i = Some a.
Proof.
  intros H1 H2. destruct answers as [[]|]; simpl; eauto; congruence.
Qed.

Lemma score_from_defined quizzes answers :
  answers <> None -> answers <> Some JNull ->
  forall i, exists n, score_from i quizzes answers = Some n.
Proof.
  intros H1 H2. induction quizzes as [|q rest IH]; intros i; simpl; eauto.
  destruct (element_defined answers i H1 H2) as (a & ->).
  destruct (IH (S i)) as (n & ->). eauto.
Qed.

(** The quiz endpoint answers [{score, total}] with [total] the number
    of quizzes and [score] at most [total], whenever it answers at
    all; it sends nothing exactly when the game has at least one quiz
    and [answers] is missing or [null]. *)
Theorem quiz_score_bounded quizzes answers :
  (forall r, post_quiz (Some quizzes) answers = Some r ->
     exists score,
       r = {| status := 200;
              body := Scored score (List.length quizzes) |} /\
       score <= List.length quizzes) /\
  (post_quiz (Some quizzes) answers = None <->
   quizzes <> [] /\ (answers = None \/ answers = Some JNull)).
Proof.
  unfold post_quiz. split.
  - intros r H.
    destruct (score_from 0 quizzes answers) as [n|] eqn:E; [|discriminate].
    injection H as <-. exists n. split; [reflexivity|].
    exact (score_from_bound quizzes answers 0 n E).
  - split.
    + intros H.
      destruct (score_from 0 quizzes answers) as [n|] eqn:E; [discriminate|].
      split.
      * intros ->. discriminate.
      * destruct answers as [a|]; [|now left].
        destruct (value_is_null a) as [->|Hn]; [now right|].
        destruct (score_from_defined quizzes (Some a)
                    ltac:(discriminate) ltac:(congruence) 0) as (n & Hn').
        congruence.
    + intros [Hq Ha]. destruct quizzes as [|q rest]; [congruence|].
      destruct Ha as [->| ->]; reflexivity.
Qed.

Lemma number_is_self n : number_is n 0 n = true.
Proof. unfold number_is. simpl. rewrite Z.mul_1_r. apply Z.eqb_refl. Qed.

Lemma score_from_right quizzes : forall given pre extra,
  Forall2 right_answer quizzes given ->
  score_from (List.length pre) quizzes (Some (JArr (pre ++ given ++ extra)))
  = Some (List.length quizzes).
Proof.
  induction quizzes as [|q rest IH]; intros given pre extra H;
    inversion H as [|? a ? given' Ha Hrest]; subst; [reflexivity|].
  cbn [score_from element].
  rewrite nth_error_app2, Nat.sub_diag by lia. cbn [nth_error app].
  specialize (IH given' (pre ++ [a]) extra Hrest).
  rewrite length_app, Nat.add_1_r, <- app_assoc in IH. cbn [app] in IH.
  rewrite IH. destruct Ha as (n & -> & ->). cbn [strict_eq].
  now rewrite number_is_self.
Qed.

(** Answering every quiz with its answer index gives full marks;
    answers beyond the last quiz are ignored. *)
Theorem right_answers_full_marks quizzes given extra :
  Forall2 right_answer quizzes given ->
  post_quiz (Some quizzes) (Some (JArr (given ++ extra))) =
  Some {| status := 200;
          body := Scored (List.length quizzes) (List.length quizzes) |}.
Proof.
  intros H. unfold post_quiz.
  pose proof (score_from_right quizzes given [] extra H) as K.
  cbn [List.length app] in K. now rewrite K.
Qed.

Lemma score_from_unkeyed quizzes : forall i,
  Forall (fun q => answerIndex q = None) quizzes ->
  score_from i quizzes (Some (JArr [])) = Some (List.length quizzes).
Proof.
  induction quizzes as [|q rest IH]; intros i H; [reflexivity|].
  inversion H as [|? ? Hq Hrest]; subst.
  cbn [score_from element]. rewrite (IH (S i) Hrest).
  destruct i; cbn [nth_error]; rewrite Hq; reflexivity.
Qed.

(** Quizzes stored without an answer index (the import does not check
    them) count as answered correctly when no answer is given: an
    empty answer list gets full marks on such a game. *)
Theorem unkeyed_quizzes_score_unanswered quizzes :
  Forall (fun q => answerIndex q = None) quizzes ->
  post_quiz (Some quizzes) (Some (JArr [])) =
  Some {| status := 200;
          body := Scored (List.length quizzes) (List.length quizzes) |}.
Proof.
  intros H. unfold post_quiz. now rewrite (score_from_unkeyed _ 0 H).
Qed.

End QuizFacts.

(** ** Tags *)

Module TagsFacts.
Import Tags.

Lemma skip_spaces_head s :
  spaced (first_char (Comments.skip_spaces s)) = false.
Proof.
  induction s as [|c s IH]; simpl; [reflexivity|].
  destruct (Comments.is_space c) eqn:E; [exact IH|]. simpl. exact E.
Qed.

Lemma skip_spaces_fixed s :
  spaced (first_char s) = false -> Comments.skip_spaces s = s.
Proof. destruct s as [|c s]; simpl; [reflexivity|]. now intros ->. Qed.

Lemma trim_end_idem s : trim_end (trim_end s) = trim_end s.
Proof.
  induction s as [|c s IH]; simpl; [reflexivity|].
  destruct (Comments.is_space c && String.eqb (trim_end s) "") eqn:E;
    [reflexivity|].
  simpl. now rewrite IH, E.
Qed.

Lemma trim_end_head s :
  spaced (first_char s) = false -> spaced (first_char (trim_end s)) = false.
Proof.
  destruct s as [|c s]; simpl; [reflexivity|]. intros H.
  rewrite H. simpl. exact H.
Qed.

Lemma trim_head s : spaced (first_char (trim s)) = false.
Proof. apply trim_end_head, skip_spaces_head. Qed.

(** Trimming twice is trimming once. *)
Lemma trim_idem s : trim (trim s) = trim s.
Proof.
  unfold trim at 1. rewrite skip_spaces_fixed by apply trim_head.
  apply trim_end_idem.
Qed.

Lemma trim_end_last s :
  match Path.last_char (trim_end s) with
  | Some c => Comments.is_space c = false
  | None => trim_end s = ""
  end.
Proof.
  induction s as [|c s IH]; simpl; [reflexivity|].
  destruct (Comments.is_space c && String.eqb (trim_end s) "") eqn:E;
    [reflexivity|].
  simpl. destruct (trim_end s) as [|d r] eqn:Er.
  - simpl in E. rewrite andb_true_r in E. exact E.
  - destruct (Path.last_char (String d r)); [exact IH|discriminate].
Qed.

Lemma mem_skip_spaces c s :
  Str.mem c s = false -> Str.mem c (Comments.skip_spaces s) = false.
Proof.
  induction s as [|d s IH]; simpl; [reflexivity|]. intros H.
  apply orb_false_iff in H. destruct H as [H1 H2].
  destruct (Comments.is_space d); [now apply IH|].
  simpl. now rewrite H1, H2.
Qed.

Lemma mem_trim_end c s :
  Str.mem c s = false -> Str.mem c (trim_end s) = false.
Proof.
  induction s as [|d s IH]; simpl; [reflexivity|]. intros H.
  apply orb_false_iff in H. destruct H as [H1 H2].
  destruct (Comments.is_space d && String.eqb (trim_end s) "");
    [reflexivity|].
  simpl. now rewrite H1, IH.
Qed.

Lemma mem_trim c s : Str.mem c s = false -> Str.mem c (trim s) = false.
Proof. intros H. now apply mem_trim_end, mem_skip_spaces. Qed.

Lemma parsed_tag_trimmed tags t :
  In t (parsedTags tags) ->
  t <> "" /\ Str.mem ","%char t = false /\
  spaced (first_char t) = false /\ spaced (Path.last_char t) = false /\
  trim t = t.
Proof.
  intros Hin. unfold parsedTags in Hin.
  apply filter_In in Hin. destruct Hin as [Hin Hne].
  apply in_map_iff in Hin. destruct Hin as (raw & <- & Hraw).
  split; [|split; [|split; [|split]]].
  - unfold Path.nonempty in Hne. apply negb_true_iff in Hne.
    now apply String.eqb_neq.
  - apply mem_trim.
    pose proof (StrFacts.split_fields_no_sep ","%char
                  (match tags with Some t => t | None => "" end)) as HF.
    rewrite Forall_forall in HF. now apply HF.
  - apply trim_head.
  - unfold trim. pose proof (trim_end_last (Comments.skip_spaces raw)) as H.
    destruct (Path.last_char (trim_end (Comments.skip_spaces raw)));
      [exact H|reflexivity].
  - apply trim_idem.
Qed.

(** Every parsed tag is non-empty, holds no comma and neither starts
    nor ends with white space; no tags at all come from a missing or
    empty field. *)
Theorem parsed_tags_clean :
  parsedTags None = [] /\ parsedTags (Some "") = [] /\
  forall tags t, In t (parsedTags tags) ->
    t <> "" /\ Str.mem ","%char t = false /\
    spaced (first_char t) = false /\ spaced (Path.last_char t) = false /\
    trim t = t.
Proof.
  split; [reflexivity|]. split; [reflexivity|].
  exact parsed_tag_trimmed.
Qed.

(** Round trip: joining the parsed tags with commas and parsing again
    gives the same tags. *)
Theorem parsed_tags_round_trip tags :
  parsedTags (Some (Str.join "," (parsedTags tags))) = parsedTags tags.
Proof.
  pose proof parsed_tag_trimmed as Hclean.
  set (ts := parsedTags tags) in *.
  assert (Hts : forall t, In t ts ->
            Path.nonempty t = true /\ Str.mem ","%char t = false /\
            trim t = t).
  { intros t Hin. destruct (Hclean tags t Hin) as (H1 & H2 & _ & _ & H5).
    repeat split; auto. unfold Path.nonempty.
    apply negb_true_iff. now apply String.eqb_neq. }
  clearbody ts. unfold parsedTags at 1.
  destruct ts as [|t0 ts']; [reflexivity|].
  rewrite (StrFacts.split_join ","%char (t0 :: ts')).
  - rewrite (map_ext_in trim (fun t => t)) by (intros t Ht; now apply Hts).
    rewrite map_id. apply forallb_filter_id. apply forallb_forall.
    intros t Ht. now apply Hts.
  - discriminate.
  - apply Forall_forall. intros t Ht. now apply Hts.
Qed.

Example parsed_tags_sample :
  parsedTags (Some " addition, kiwi ,,  ,fun math ") =
  ["addition"; "kiwi"; "fun math"].
Proof. reflexivity. Qed.

End TagsFacts.

(** ** Tokens, accounts and the game secret *)

Module AccessFacts.
Import Schema Access.

Lemma bearer_second (scheme token : string) :
  Str.mem " "%char scheme = false ->
  Str.mem " "%char token = false ->
  bearer (Some (scheme ++ String " "%char token)%string) = Some token.
Proof.
  intros Hs Ht. unfold bearer.
  rewrite StrFacts.split_app_sep, (StrFacts.split_no_sep _ _ Hs),
    (StrFacts.split_no_sep _ _ Ht).
  reflexivity.
Qed.

Section Jwt.

Variable verify : string -> option Payload.
Variable sign : Payload -> string.
Variable env_GAME_SECRET : option string.

(** The middleware never looks at the scheme word: a header is judged
    by its second space-separated field alone, so any word (or none)
    in front of a token does what [Bearer] does; a header without a
    space, or with nothing after its first space, is refused. *)
Theorem auth_ignores_scheme :
  (forall scheme token : string,
     Str.mem " "%char scheme = false ->
     Str.mem " "%char token = false ->
     authMiddleware verify (Some (scheme ++ " " ++ token)%string) =
     authMiddleware verify (Some ("Bearer " ++ token)%string)) /\
  (forall h, Str.mem " "%char h = false ->
     authMiddleware verify (Some h) = Rejected 401 "Unauthorized") /\
  (forall scheme : string, Str.mem " "%char scheme = false ->
     authMiddleware verify (Some (scheme ++ " ")%string) =
     Rejected 401 "Unauthorized") /\
  authMiddleware verify None = Rejected 401 "Unauthorized".
Proof.
  clear sign env_GAME_SECRET.
  split; [|split; [|split]].
  - intros scheme token Hs Ht. unfold authMiddleware.
    change (scheme ++ " " ++ token)%string
      with (scheme ++ String " "%char token)%string.
    change ("Bearer " ++ token)%string
      with ("Bearer" ++ String " "%char token)%string.
    now rewrite !bearer_second.
  - intros h Hh. unfold authMiddleware, bearer.
    now rewrite (StrFacts.split_no_sep _ _ Hh).
  - intros scheme Hs. unfold authMiddleware.
    change (scheme ++ " ")%string with (scheme ++ String " "%char "")%string.
    now rewrite bearer_second.
  - reflexivity.
Qed.

Lemma secret_nonempty : GAME_SECRET env_GAME_SECRET <> "".
Proof.
  clear verify sign.
  unfold GAME_SECRET, or_string.
  destruct env_GAME_SECRET as [s|]; simpl; [|discriminate].
  destruct (String.eqb s "") eqn:E; simpl; [discriminate|].
  now apply String.eqb_neq.
Qed.

Lemma unlock_right_secret :
  unlock sign env_GAME_SECRET (Some (GAME_SECRET env_GAME_SECRET)) =
  {| status := 200; body := Unlocked (sign game_access);
     cookie := Some (sign game_access) |}.
Proof.
  clear verify.
  pose proof secret_nonempty as Hne.
  unfold unlock. simpl.
  apply String.eqb_neq in Hne. rewrite Hne. simpl.
  now rewrite String.eqb_refl.
Qed.

(** The unlock endpoint issues a token exactly when the submitted
    secret is the game secret, and then the cookie carries the same
    token; a missing or empty secret is answered 400, any other 403,
    and neither sets a cookie.  The game secret itself is never empty:
    an empty environment value falls back to the built-in one. *)
Theorem unlock_iff_secret secret :
  GAME_SECRET env_GAME_SECRET <> "" /\
  (status (unlock sign env_GAME_SECRET secret) = 200 <->
   secret = Some (GAME_SECRET env_GAME_SECRET)) /\
  (secret = Some (GAME_SECRET env_GAME_SECRET) ->
   unlock sign env_GAME_SECRET secret =
     {| status := 200; body := Unlocked (sign game_access);
        cookie := Some (sign game_access) |}) /\
  (secret <> Some (GAME_SECRET env_GAME_SECRET) ->
   unlock sign env_GAME_SECRET secret =
     if truthy_string secret
     then {| status := 403; body := UnlockError "Wrong secret";
             cookie := None |}
     else {| status := 400; body := UnlockError "Missing secret";
             cookie := None |}).
Proof.
  clear verify.
  split; [exact secret_nonempty|].
  assert (Hwrong : secret <> Some (GAME_SECRET env_GAME_SECRET) ->
            string_is secret (GAME_SECRET env_GAME_SECRET) = false).
  { intros Hn. destruct secret as [s|]; simpl; [|reflexivity].
    apply String.eqb_neq. congruence. }
  split; [|split].
  - split; [|intros ->; now rewrite unlock_right_secret].
    intros H.
    destruct secret as [s|]; [|discriminate H].
    destruct (String.eqb_spec s (GAME_SECRET env_GAME_SECRET)) as [->|Hn];
      [reflexivity|].
    unfold unlock in H. rewrite Hwrong in H by congruence.
    destruct (truthy_string (Some s)); discriminate H.
  - intros ->. apply unlock_right_secret.
  - intros Hn. unfold unlock. rewrite (Hwrong Hn).
    now destruct (truthy_string secret).
Qed.

(** The token handed out by unlock opens the games when it comes back
    as the [access] query parameter or, without that parameter, as the
    [x-game-access] header, provided no non-empty cookie was parsed;
    so does the bare secret.  The authorization header plays no part.
    It is assumed that the token verifies to its payload and is not
    empty. *)
Theorem unlock_token_grants_access req token :
  verify (sign game_access) = Some game_access ->
  sign game_access <> "" ->
  body (unlock sign env_GAME_SECRET (Some (GAME_SECRET env_GAME_SECRET)))
    = Unlocked token ->
  truthy_string (match cookies req with Some c => c | None => None end)
    = false ->
  (query_access req = Some token \/
   query_access req = Some (GAME_SECRET env_GAME_SECRET) \/
   (truthy_string (query_access req) = false /\
    (header_access req = Some token \/
     header_access req = Some (GAME_SECRET env_GAME_SECRET)))) ->
  hasGameAccess verify env_GAME_SECRET req = true.
Proof.
  intros Hrt Hne Hbody Hcookie Hsrc.
  rewrite unlock_right_secret in Hbody.
  simpl in Hbody. injection Hbody as <-.
  unfold hasGameAccess.
  match goal with |- (if ?b then true else _) = true => destruct b end;
    [reflexivity|].
  unfold or_string. rewrite Hcookie.
  pose proof secret_nonempty as Hsec. apply String.eqb_neq in Hsec.
  assert (Htok : String.eqb (sign game_access) "" = false)
    by (apply String.eqb_neq, Hne).
  set (SECRET := GAME_SECRET env_GAME_SECRET) in *.
  assert (Hgood : forall t, t = sign game_access \/ t = SECRET ->
            truthy_string (Some t) = true /\
            (if String.eqb t SECRET then true
             else match verify t with
                  | Some payload => string_is (p_type payload) "game_access"
                  | None => false
                  end) = true).
  { intros t [->| ->].
    - simpl. rewrite Htok. split; [reflexivity|].
      destruct (String.eqb (sign game_access) SECRET); [reflexivity|].
      now rewrite Hrt.
    - simpl. rewrite Hsec, String.eqb_refl. auto. }
  destruct Hsrc as [Hq|[Hq|[Hq Hh]]].
  - rewrite Hq.
    destruct (Hgood _ (or_introl eq_refl)) as [H1 H2].
    rewrite !H1. exact H2.
  - rewrite Hq.
    destruct (Hgood _ (or_intror eq_refl)) as [H1 H2].
    rewrite !H1. exact H2.
  - rewrite Hq.
    destruct Hh as [Hh|Hh]; rewrite Hh.
    + destruct (Hgood _ (or_introl eq_refl)) as [H1 H2].
      rewrite !H1. exact H2.
    + destruct (Hgood _ (or_intror eq_refl)) as [H1 H2].
      rewrite !H1. exact H2.
Qed.

(** Without the secret and without a verifying token nobody gets in:
    when neither the bearer token nor the access token verifies, access
    is granted only if the access token is the secret itself. *)
Theorem no_token_no_access req :
  (forall t, bearer (authorization req) = Some t -> verify t = None) ->
  (forall t, In (Some t) [match cookies req with Some c => c | None => None end;
                          query_access req; header_access req] ->
             verify t = None) ->
  hasGameAccess verify env_GAME_SECRET req = true ->
  In (Some (GAME_SECRET env_GAME_SECRET))
     [match cookies req with Some c => c | None => None end;
      query_access req; header_access req].
Proof.
  clear sign.
  intros Hb Ha. unfold hasGameAccess.
  destruct (bearer (authorization req)) as [t|] eqn:Et.
  - rewrite (Hb t eq_refl).
    destruct (truthy_string (Some t)); cbv iota.
    all: set (c := match cookies req with Some c => c | None => None end) in *.
    all: unfold or_string.
    all: destruct c as [c0|] eqn:Ec, (query_access req) as [q|] eqn:Eq,
           (header_access req) as [h|] eqn:Eh; simpl;
         repeat match goal with
         | |- context [String.eqb ?a ""] =>
             destruct (String.eqb a "") eqn:?; simpl
         | |- context [String.eqb ?a (GAME_SECRET ?e)] =>
             destruct (String.eqb_spec a (GAME_SECRET e)); [subst; auto|]
         | |- context [verify ?a] => rewrite (Ha a) by (simpl; auto)
         end; try discriminate; auto.
  - simpl.
    set (c := match cookies req with Some c => c | None => None end) in *.
    unfold or_string.
    destruct c as [c0|] eqn:Ec, (query_access req) as [q|] eqn:Eq,
           (header_access req) as [h|] eqn:Eh; simpl;
         repeat match goal with
         | |- context [String.eqb ?a ""] =>
             destruct (String.eqb a "") eqn:?; simpl
         | |- context [String.eqb ?a (GAME_SECRET ?e)] =>
             destruct (String.eqb_spec a (GAME_SECRET e)); [subst; auto|]
         | |- context [verify ?a] => rewrite (Ha a) by (simpl; auto)
         end; try discriminate; auto.
Qed.

End Jwt.

End AccessFacts.

Module AccountsFacts.
Import Schema Favorites Accounts.


Lemma findOne_app_new e us u :
  findOne e us = None -> email u = e -> findOne e (us ++ [u]) = Some u.
Proof.
  unfold findOne. intros H <-.
  induction us as [|h us IH]; simpl in *.
  - now rewrite String.eqb_refl.
  - destruct (String.eqb (email h) (email u)); [discriminate|]. now apply IH.
Qed.

Lemma max_ids_ge us i : In i (map uid us) -> i <= fold_right Nat.max 0 (map uid us).
Proof.
  induction us as [|h us IH]; simpl; [tauto|].
  intros [<-|H]; [lia|]. specialize (IH H). lia.
Qed.

Lemma fresh_id_new us : ~ In (fresh_id us) (map uid us).
Proof.
  intros H. apply max_ids_ge in H. unfold fresh_id in H. lia.
Qed.


Section Handlers.

Variable verify : string -> option Access.Payload.
Variable sign : N -> Access.Payload -> string.
Variable hash : nat -> string -> string.
Variable compare : string -> string -> bool.

(** Signup either refuses with 400 and changes nothing, or appends
    one account. *)
Lemma signup_cases now e password st :
  (status (fst (signup sign hash now e password st)) = 400 /\
   snd (signup sign hash now e password st) = st) \/
  (exists em pw,
     e = Some em /\ password = Some pw /\
     findOne em (users st) = None /\
     let user := {| uid := fresh_id (users st); email := em;
                    passwordHash := hash (salts st) pw;
                    role := "user"; favorites := [] |} in
     signup sign hash now e password st =
       ({| status := 200;
           body := Session (Access.createToken (sign now) user) "user" |},
        {| users := users st ++ [user]; salts := S (salts st) |})).
Proof.
  clear verify compare.
  unfold signup.
  destruct e as [em|], password as [pw|]; try (left; split; reflexivity).
  destruct (String.eqb em "" || String.eqb pw "");
    [left; split; reflexivity|].
  destruct (findOne em (users st)) as [u|] eqn:Ef.
  - left. split; reflexivity.
  - right. exists em, pw. repeat split; assumption.
Qed.


(** Logging in after signing up, with the same email and password,
    succeeds for the account that signup stored: the answer is a
    token for the same id, role and email, signed at the time of the
    login, and the role [user].  The two tokens are issued at
    different times; the two answers are the same when the clock
    reads the same.  It is assumed that the password compares equal
    to the hash made from it. *)
Theorem signup_then_login now later em pw st :
  compare pw (hash (salts st) pw) = true ->
  status (fst (signup sign hash now (Some em) (Some pw) st)) = 200 ->
  exists user,
    users (snd (signup sign hash now (Some em) (Some pw) st)) =
      users st ++ [user] /\
    email user = em /\ role user = "user" /\
    ~ In (uid user) (map uid (users st)) /\
    fst (signup sign hash now (Some em) (Some pw) st) =
      {| status := 200;
         body := Session (Access.createToken (sign now) user) "user" |} /\
    login sign compare later em pw
      (snd (signup sign hash now (Some em) (Some pw) st)) =
      {| status := 200;
         body := Session (Access.createToken (sign later) user) "user" |} /\
    (later = now ->
     login sign compare later em pw
       (snd (signup sign hash now (Some em) (Some pw) st)) =
     fst (signup sign hash now (Some em) (Some pw) st)).
Proof.
  clear verify.
  intros Hc Hs.
  destruct (signup_cases now (Some em) (Some pw) st)
    as [(Hn & _)|(em' & pw' & [= <-] & [= <-] & Hf & Heq)];
    [congruence|].
  cbv zeta in Heq. rewrite Heq. cbn [fst snd users].
  set (user := {| uid := fresh_id (users st); email := em;
                  passwordHash := hash (salts st) pw;
                  role := "user"; favorites := [] |}).
  assert (Hlogin : forall t,
            login sign compare t em pw
              {| users := users st ++ [user]; salts := S (salts st) |} =
            {| status := 200;
               body := Session (Access.createToken (sign t) user) "user" |}).
  { intros t. unfold login. cbn [users].
    rewrite (findOne_app_new em (users st) user Hf eq_refl).
    unfold user at 1. cbn [passwordHash]. now rewrite Hc. }
  exists user. split; [reflexivity|]. split; [reflexivity|].
  split; [reflexivity|]. split; [apply fresh_id_new|].
  split; [reflexivity|]. split; [apply Hlogin|].
  intros ->. apply Hlogin.
Qed.

(** A wrong password and an unknown email are answered alike, and a
    wrong password never yields a token. *)
Lemma login_refused now e pw st :
  (forall u, findOne e (users st) = Some u ->
             compare pw (passwordHash u) = false) ->
  login sign compare now e pw st =
    {| status := 400; body := ErrorBody "Invalid credentials" |}.
Proof.
  clear verify hash.
  intros H. unfold login.
  destruct (findOne e (users st)) as [u|]; [|reflexivity].
  now rewrite (H u eq_refl).
Qed.

(** The admin checks read the role from the token, never from the
    stored account: after an admin's role has been set to another
    value, the token issued while they were an admin is still served
    by the import exactly as an admin is.  It is assumed that the
    token verifies to its payload, is not empty and holds no space. *)
Theorem stale_token_stays_admin issued caller u new_role us token req s
        (JSON_parse : string -> option Json.value) (uploadDir : string)
        (w : World.t) :
  Access.not_admin caller = false ->
  findUser (uid u) us = Some u ->
  role u = "admin" ->
  token = Access.createToken (sign issued) u ->
  verify token =
    Some {| Access.p_id := Some (uid u); Access.p_role := Some (role u);
            Access.p_email := Some (email u); Access.p_isPremium := false;
            Access.p_type := None |} ->
  token <> "" ->
  Str.mem " "%char token = false ->
  let us' := snd (post_role caller (uid u) new_role us) in
  (exists u', findUser (uid u) us' = Some u' /\ role u' = new_role) /\
  Access.behind_auth verify (Some ("Bearer " ++ token)%string)
    (fun user =>
       BulkUpload.bulk_upload JSON_parse uploadDir w
         {| BulkUpload.role := Access.role_of user;
            BulkUpload.file := req |} s) =
  inr (BulkUpload.bulk_upload JSON_parse uploadDir w
         {| BulkUpload.role := "admin"; BulkUpload.file := req |} s).
Proof.
  clear hash compare.
  intros Hcaller Hu Hrole Htok Hv Hne Hsp us'. subst us'.
  unfold post_role. rewrite Hcaller, Hu. cbn [snd]. split.
  - exists (with_role u new_role). split; [|reflexivity].
    now apply (FavoritesFacts.findUser_save_same _ _ u).
  - unfold Access.behind_auth, Access.authMiddleware.
    change ("Bearer " ++ token)%string
      with ("Bearer" ++ String " "%char token)%string.
    rewrite AccessFacts.bearer_second by (reflexivity || exact Hsp).
    simpl Access.truthy_string. apply String.eqb_neq in Hne. rewrite Hne.
    cbn [negb]. rewrite Hv.
    cbn [Access.role_of Access.p_role]. now rewrite Hrole.
Qed.

End Handlers.

End AccountsFacts.

(** ** Examples: ratings, favorites, quizzes, tags, tokens and accounts *)

Module AccountExamples.
Import Schema World Json.

(** *** Ratings and favorites *)

Definition rated_once : state :=
  snd (Ratings.post_rate 4 0 3 LeaderboardExamples.one_game).

(** A user who rated 3 rates again with 5. *)
Lemma rate_one_per_user_witness :
  exists g',
    Leaderboard.findById 0 (db (snd (Ratings.post_rate 4 0 5 rated_once)))
      = Some g' /\
    ratings g' = [{| r_userId := 4; r_score := 5%Z |}] /\
    fst (Ratings.post_rate 4 0 5 rated_once) =
      {| Ratings.status := 200; Ratings.body := Ratings.Rated 5 1 |}.
Proof.
  destruct (RatingsFacts.rate_one_per_user 4 0 5 rated_once
              (Ratings.with_ratings BulkUploadExamples.game_add
                 [{| r_userId := 4; r_score := 3%Z |}]) eq_refl)
    as (g' & Hg & _ & _ & _ & Hr & _).
  exists g'. split; [exact Hg|].
  vm_compute in Hg. injection Hg as <-.
  split; [reflexivity|]. vm_compute. reflexivity.
Defined.

Definition reader : Favorites.UserDoc :=
  {| Favorites.uid := 1; Favorites.email := "ann@example.org";
     Favorites.passwordHash := "h:pw"; Favorites.role := "user";
     Favorites.favorites := [3; 5] |}.

Definition boss : Favorites.UserDoc :=
  {| Favorites.uid := 2; Favorites.email := "bob@example.org";
     Favorites.passwordHash := "h:secret"; Favorites.role := "admin";
     Favorites.favorites := [] |}.

(** A stand-in for the text of an ObjectId: 24 hexadecimal digits in
    lower case; the cast reads 24 hexadecimal digits in either case. *)
Definition hex_digit (d : N) : ascii :=
  nth (N.to_nat d)
    ["0"; "1"; "2"; "3"; "4"; "5"; "6"; "7"; "8"; "9";
     "a"; "b"; "c"; "d"; "e"; "f"]%char "0"%char.

Fixpoint hex_digits (count : nat) (n : N) (acc : string) : string :=
  match count with
  | 0 => acc
  | S count' =>
      hex_digits count' (n / 16)%N (String (hex_digit (n mod 16)%N) acc)
  end.

Definition hex_text (i : ObjectId) : string :=
  hex_digits 24 (N.of_nat i) "".

Definition hex_value (c : ascii) : option N :=
  let k := N_of_ascii c in
  if (48 <=? k)%N && (k <=? 57)%N then Some (k - 48)%N
  else if (97 <=? k)%N && (k <=? 102)%N then Some (k - 87)%N
  else if (65 <=? k)%N && (k <=? 70)%N then Some (k - 55)%N
  else None.

Fixpoint hex_read (s : string) (acc : N) : option N :=
  match s with
  | EmptyString => Some acc
  | String c s' =>
      match hex_value c with
      | Some d => hex_read s' (16 * acc + d)%N
      | None => None
      end
  end.

Definition hex_cast (s : string) : option ObjectId :=
  if Nat.eqb (String.length s) 24 then option_map N.to_nat (hex_read s 0%N)
  else None.

Definition lower_a : string := "00000000000000000000000a".
Definition upper_a : string := "00000000000000000000000A".

Definition player_one : Favorites.UserDoc :=
  {| Favorites.uid := 1; Favorites.email := "ann@example.org";
     Favorites.passwordHash := "h:pw"; Favorites.role := "user";
     Favorites.favorites := [10; 5] |}.

(** Game 10 is a favorite.  Under its own text it is removed; under
    the same text in upper case it is pushed a second time. *)
Lemma favorite_toggles_witness :
  fst (Favorites.post_favorite hex_text hex_cast 1 lower_a [player_one; boss])
    = Some [5] /\
  fst (Favorites.post_favorite hex_text hex_cast 1 upper_a [player_one; boss])
    = Some [10; 5; 10] /\
  ~ NoDup [10; 5; 10] /\
  Favorites.post_favorite hex_text hex_cast 9 lower_a [player_one; boss]
    = (None, [player_one; boss]).
Proof.
  pose proof (FavoritesFacts.favorite_toggles hex_text hex_cast 1 lower_a
                [player_one; boss]) as (_ & Hflip & _).
  pose proof (FavoritesFacts.favorite_toggles hex_text hex_cast 1 upper_a
                [player_one; boss]) as (_ & _ & Hpush).
  pose proof (FavoritesFacts.favorite_toggles hex_text hex_cast 9 lower_a
                [player_one; boss]) as (Hgone & _).
  split; [|split; [|split]].
  - destruct (Hflip player_one 10 eq_refl) as (u' & Hp & _).
    + split; [reflexivity|]. split; [reflexivity|].
      intros f [<-|[<-|[]]] H; [reflexivity|].
      vm_compute in H. discriminate.
    + vm_compute. reflexivity.
  - destruct (Hpush player_one 10 eq_refl eq_refl) as (Hp & _).
    + intros f [<-|[<-|[]]] H; vm_compute in H; discriminate.
    + rewrite Hp. reflexivity.
  - destruct (Hpush player_one 10 eq_refl eq_refl) as (_ & Hdup).
    + intros f [<-|[<-|[]]] H; vm_compute in H; discriminate.
    + apply Hdup. simpl. auto.
  - apply Hgone. reflexivity.
Defined.

(** *** Quizzes *)

Definition sums : list Quiz.Item :=
  [{| Quiz.question := "2+2"; Quiz.options := ["3"; "4"];
      Quiz.answerIndex := Some 1%Z |};
   {| Quiz.question := "1+1"; Quiz.options := ["2"; "3"];
      Quiz.answerIndex := Some 0%Z |}].

Definition unkeyed : list Quiz.Item :=
  [{| Quiz.question := "2+2"; Quiz.options := ["3"; "4"];
      Quiz.answerIndex := None |}].

Lemma quiz_score_bounded_witness :
  Quiz.post_quiz (Some sums) None = None /\
  exists score,
    Quiz.post_quiz (Some sums) (Some (JArr [JNum 1 0; JNum 1 0])) =
      Some {| Quiz.status := 200; Quiz.body := Quiz.Scored score 2 |} /\
    score <= 2.
Proof.
  split.
  - apply (proj2 (QuizFacts.quiz_score_bounded sums None)).
    split; [discriminate|left; reflexivity].
  - destruct (proj1 (QuizFacts.quiz_score_bounded sums
                       (Some (JArr [JNum 1 0; JNum 1 0])))
                {| Quiz.status := 200; Quiz.body := Quiz.Scored 1 2 |}
                eq_refl) as (score & Hs & Hle).
    exists score. split; [|exact Hle].
    vm_compute in Hs. injection Hs as <-. vm_compute. reflexivity.
Defined.

Lemma right_answers_full_marks_witness :
  Quiz.post_quiz (Some sums) (Some (JArr [JNum 1 0; JNum 0 0; JStr "x"])) =
  Some {| Quiz.status := 200; Quiz.body := Quiz.Scored 2 2 |}.
Proof.
  apply (QuizFacts.right_answers_full_marks sums [JNum 1 0; JNum 0 0]
           [JStr "x"]).
  repeat constructor; eexists; split; reflexivity.
Defined.

Lemma unkeyed_quizzes_score_unanswered_witness :
  Quiz.post_quiz (Some unkeyed) (Some (JArr [])) =
  Some {| Quiz.status := 200; Quiz.body := Quiz.Scored 1 1 |}.
Proof.
  apply (QuizFacts.unkeyed_quizzes_score_unanswered unkeyed).
  repeat constructor.
Defined.

(** *** Tags *)

Lemma parsed_tags_clean_witness :
  "fun math" <> "" /\ Str.mem ","%char "fun math" = false /\
  Tags.trim "fun math" = "fun math".
Proof.
  destruct (proj2 (proj2 TagsFacts.parsed_tags_clean)
              (Some " addition, kiwi ,,  ,fun math ") "fun math")
    as (H1 & H2 & _ & _ & H5).
  - vm_compute. auto.
  - auto.
Defined.

(** *** Tokens *)

Definition boss_payload : Access.Payload :=
  {| Access.p_id := Some 2; Access.p_role := Some "admin";
     Access.p_email := Some "bob@example.org"; Access.p_isPremium := false;
     Access.p_type := None |}.

(** A stand-in for signing and verifying: a token is a fixed text per
    kind of payload. *)
Definition toy_sign (p : Access.Payload) : string :=
  if Access.string_is (Access.p_type p) "game_access" then "tok.game"
  else if Access.string_is (Access.p_role p) "admin" then "tok.boss"
  else "tok.user".

Definition toy_verify (t : string) : option Access.Payload :=
  if String.eqb t "tok.game" then Some Access.game_access
  else if String.eqb t "tok.boss" then Some boss_payload
  else None.

Lemma auth_ignores_scheme_witness :
  Access.authMiddleware toy_verify (Some "Basic tok.boss") =
    Access.Next boss_payload /\
  Access.authMiddleware toy_verify (Some "tok.boss") =
    Access.Rejected 401 "Unauthorized".
Proof.
  pose proof (AccessFacts.auth_ignores_scheme toy_verify) as (H1 & H2 & _).
  split.
  - exact (eq_trans (H1 "Basic" "tok.boss" eq_refl eq_refl) eq_refl).
  - apply (H2 "tok.boss"). reflexivity.
Defined.

Lemma unlock_iff_secret_witness :
  Access.status (Access.unlock toy_sign None (Some "skibidi123")) = 200 /\
  Access.unlock toy_sign (Some "") (Some "letmein") =
    {| Access.status := 403; Access.body := Access.UnlockError "Wrong secret";
       Access.cookie := None |}.
Proof.
  split.
  - apply (proj1 (proj2 (AccessFacts.unlock_iff_secret toy_sign None
                           (Some "skibidi123")))).
    reflexivity.
  - apply (proj2 (proj2 (proj2 (AccessFacts.unlock_iff_secret toy_sign
                                  (Some "") (Some "letmein"))))).
    discriminate.
Defined.

Definition with_query (t : string) : Access.AccessRequest :=
  {| Access.authorization := None; Access.cookies := None;
     Access.query_access := Some t; Access.header_access := None |}.

Lemma unlock_token_grants_access_witness :
  Access.hasGameAccess toy_verify None (with_query "tok.game") = true.
Proof.
  apply (AccessFacts.unlock_token_grants_access toy_verify toy_sign None
           (with_query "tok.game") "tok.game").
  - reflexivity.
  - discriminate.
  - reflexivity.
  - reflexivity.
  - left. reflexivity.
Defined.

Lemma no_token_no_access_witness :
  In (Some "skibidi123") [None; Some "skibidi123"; None].
Proof.
  apply (AccessFacts.no_token_no_access (fun _ => None) None
           (with_query "skibidi123")).
  - reflexivity.
  - reflexivity.
  - reflexivity.
Defined.

(** *** Accounts *)

Definition toy_hash (salt : nat) (password : string) : string :=
  ("h:" ++ password)%string.

Definition toy_compare (password h : string) : bool :=
  String.eqb h ("h:" ++ password).

Definition two_accounts : Accounts.store :=
  {| Accounts.users := [reader; boss]; Accounts.salts := 2 |}.

(** A stand-in for signing at a clock reading: the token shows the
    time of issue. *)
Definition stamped_sign (t : N) (p : Access.Payload) : string :=
  (toy_sign p ++ "@" ++ Str.of_N t)%string.


(** Signup at 100, login at 160: the same account, two tokens. *)
Lemma signup_then_login_witness :
  fst (Accounts.signup stamped_sign toy_hash 100
         (Some "cy@example.org") (Some "pw") two_accounts) =
    {| Accounts.status := 200;
       Accounts.body := Accounts.Session "tok.user@100" "user" |} /\
  Accounts.login stamped_sign toy_compare 160 "cy@example.org" "pw"
    (snd (Accounts.signup stamped_sign toy_hash 100
            (Some "cy@example.org") (Some "pw") two_accounts)) =
    {| Accounts.status := 200;
       Accounts.body := Accounts.Session "tok.user@160" "user" |}.
Proof.
  destruct (AccountsFacts.signup_then_login stamped_sign toy_hash
              toy_compare 100%N 160%N "cy@example.org" "pw" two_accounts
              eq_refl eq_refl)
    as (user & Hu & _ & _ & _ & Hs & Hl & _).
  vm_compute in Hu. injection Hu as <-.
  rewrite Hs, Hl. split; vm_compute; reflexivity.
Defined.

Definition boss_upload (r : string) : BulkUpload.Request :=
  {| BulkUpload.role := r;
     BulkUpload.file :=
       Some (BulkUploadExamples.upload_of BulkUpload.archive_mathgame) |}.

(** The admin demotes themself; the old token still imports. *)
Lemma stale_token_stays_admin_witness :
  (exists u',
     Favorites.findUser 2
       (snd (Accounts.post_role boss_payload 2 "user" [reader; boss]))
       = Some u' /\ Favorites.role u' = "user") /\
  Access.behind_auth toy_verify (Some "Bearer tok.boss")
    (fun user =>
       BulkUpload.bulk_upload Json.parse BulkUpload.uploads
         (BulkUpload.calm 1000)
         {| BulkUpload.role := Access.role_of user;
            BulkUpload.file :=
              Some (BulkUploadExamples.upload_of
                      BulkUpload.archive_mathgame) |}
         LeaderboardExamples.one_game) =
  inr (BulkUpload.bulk_upload Json.parse BulkUpload.uploads
         (BulkUpload.calm 1000) (boss_upload "admin")
         LeaderboardExamples.one_game).
Proof.
  exact (AccountsFacts.stale_token_stays_admin toy_verify
           (fun _ => toy_sign) 0%N
           boss_payload boss "user" [reader; boss] "tok.boss"
           (Some (BulkUploadExamples.upload_of BulkUpload.archive_mathgame))
           LeaderboardExamples.one_game Json.parse BulkUpload.uploads
           (BulkUpload.calm 1000)
           eq_refl eq_refl eq_refl eq_refl eq_refl
           (fun E => match E with end) eq_refl).
Defined.

(** The import in that example goes through. *)
Example stale_token_import_status :
  BulkUpload.status
    (fst (BulkUpload.bulk_upload Json.parse BulkUpload.uploads
            (BulkUpload.calm 1000) (boss_upload "admin")
            LeaderboardExamples.one_game)) = 200.
Proof. vm_compute. reflexivity. Qed.

End AccountExamples.
